(** * Bulk uploader: content synchronisation pipeline

    A shallow embedding of [bulk-upload.js] (the per-row reconciler, the
    duplicate scanner, the term resolver, the media step and the batch
    runner) and of the helpers [convertGoogleDriveUrl] and
    [downloadImageFromUrl] of [reproduce_issue.js], together with the
    properties that the design document states about them.

    Conventions of the embedding:
    - a JavaScript string is a list of code units; the pipeline is run
      on the code units below 256 (Latin-1), for which whitespace and
      [toLowerCase] are given exactly as ECMAScript defines them; the
      normalisation of titles is also given on all UTF-16 code units
      (module [Utf16]), with [toLowerCase] as a function of the
      platform, and the two agree on the strings of the pipeline;
    - asynchronous code is written in a state and exception monad over
      the remote site: every HTTP call is answered by an abstract handler
      and is recorded, with its success, in a call log;
    - the one loop without a syntactic bound, [while (hasMore)], takes a
      budget of iterations, and running out of it is an outcome of its
      own, distinct from returning and from throwing;
    - [sleep] keeps its place in the code but has no observable effect;
      console output, the optional progress callback and the log file
      only report and are left out, and the client configuration is a
      value given to the functions;
    - the command line ([main] and the set-up of a client) reads the
      process through a record of what it finds there, and ends with
      the exit code of the process. *)

From Stdlib Require Import List Ascii String Bool Arith ZArith Lia DecimalString.
Import ListNotations.

Local Open Scope char_scope.
Local Open Scope list_scope.

(** ** JavaScript strings *)

Definition jsstring : Type := list ascii.

Definition str (s : string) : jsstring := list_ascii_of_string s.

Fixpoint jsstring_eqb (a b : jsstring) : bool :=
  match a, b with
  | [], [] => true
  | x :: a', y :: b' => Ascii.eqb x y && jsstring_eqb a' b'
  | _, _ => false
  end.

(** [\s] of a regular expression and the characters removed by [trim]:
    TAB, LF, VT, FF, CR, SP and NBSP are the ones below 256. *)
Definition is_space (c : ascii) : bool :=
  let n := nat_of_ascii c in
  (((9 <=? n) && (n <=? 13)) || (n =? 32) || (n =? 160))%nat.

(** [toLowerCase] on one Latin-1 code unit: A-Z and the accented capitals
    U+00C0..U+00DE (the multiplication sign U+00D7 apart) move up by 32. *)
Definition lower_char (c : ascii) : ascii :=
  let n := nat_of_ascii c in
  if (((65 <=? n) && (n <=? 90))
      || ((192 <=? n) && (n <=? 222) && negb (n =? 215)))%nat
  then ascii_of_nat (n + 32) else c.

Definition toLowerCase (s : jsstring) : jsstring := map lower_char s.

Fixpoint trim_start (s : jsstring) : jsstring :=
  match s with
  | [] => []
  | c :: r => if is_space c then trim_start r else s
  end.

Fixpoint trim_end (s : jsstring) : jsstring :=
  match s with
  | [] => []
  | c :: r =>
      match trim_end r with
      | [] => if is_space c then [] else [c]
      | r' => c :: r'
      end
  end.

Definition trim (s : jsstring) : jsstring := trim_end (trim_start s).

Fixpoint startsWith (s p : jsstring) : bool :=
  match p, s with
  | [], _ => true
  | x :: p', y :: s' => Ascii.eqb x y && startsWith s' p'
  | _ :: _, [] => false
  end.

Fixpoint includes (s p : jsstring) : bool :=
  startsWith s p ||
  match s with
  | [] => false
  | _ :: r => includes r p
  end.

(** [s.split(sep)] for a one-character separator. *)
Fixpoint split_on (sep : ascii) (s : jsstring) : list jsstring :=
  match s with
  | [] => [[]]
  | c :: r =>
      if Ascii.eqb c sep then [] :: split_on sep r
      else match split_on sep r with
           | w :: ws => (c :: w) :: ws
           | [] => [[c]]
           end
  end.

(** Truthiness of a string value, and of a possibly absent one
    ([undefined] and [''] are falsy). *)
Definition nonempty (s : jsstring) : bool :=
  match s with [] => false | _ :: _ => true end.

Definition truthy_str (o : option jsstring) : bool :=
  match o with Some s => nonempty s | None => false end.

(** [x?.trim()] followed by a truthiness test: the trimmed value when the
    field is present and not blank. *)
Definition trimmed (o : option jsstring) : option jsstring :=
  match o with
  | Some s => if nonempty (trim s) then Some (trim s) else None
  | None => None
  end.

(** ** Global replacement

    [s.replace(/re/g, rep)] scans [s] from the left; where the expression
    matches (a non-empty match) the replacement is emitted and the scan
    resumes after the match, elsewhere the character is copied.  None of
    the expressions below is anchored or looks behind, so a match at a
    position is a function of the suffix that starts there: [m] gives
    the length of the match at the head of its argument. *)
Fixpoint replace_from (m : jsstring -> option nat) (rep : jsstring)
         (skip : nat) (s : jsstring) : jsstring :=
  match s with
  | [] => []
  | c :: r =>
      match skip with
      | S k => replace_from m rep k r
      | O =>
          match m s with
          | Some (S n) => rep ++ replace_from m rep n r
          | _ => c :: replace_from m rep 0 r
          end
      end
  end.

Definition replace_all (m : jsstring -> option nat) (rep s : jsstring)
  : jsstring :=
  replace_from m rep 0 s.

(** Position of the first occurrence of a character. *)
Fixpoint index_of (c : ascii) (s : jsstring) : option nat :=
  match s with
  | [] => None
  | x :: r => if Ascii.eqb x c then Some 0 else option_map S (index_of c r)
  end.

(** [/<[^>]*>/] : a [<] up to the nearest [>]. *)
Definition match_tag (s : jsstring) : option nat :=
  match s with
  | c :: r =>
      if Ascii.eqb c "<" then option_map (fun i => i + 2) (index_of ">" r)
      else None
  | [] => None
  end.

(** A literal pattern such as [/&amp;/]. *)
Definition match_lit (p : jsstring) (s : jsstring) : option nat :=
  if startsWith s p then Some (List.length p) else None.

(** [/&[^;]+;/] : an ampersand, at least one character other than [;],
    then the nearest [;]. *)
Definition match_entity (s : jsstring) : option nat :=
  match s with
  | a :: c :: r =>
      if Ascii.eqb a "&" && negb (Ascii.eqb c ";")
      then option_map (fun i => i + 3) (index_of ";" r)
      else None
  | _ => None
  end.

(** [/\s+/] : a maximal run of whitespace. *)
Fixpoint space_run (s : jsstring) : nat :=
  match s with
  | c :: r => if is_space c then S (space_run r) else 0
  | [] => 0
  end.

Definition match_spaces (s : jsstring) : option nat :=
  match space_run s with
  | 0 => None
  | n => Some n
  end.

(** The double quote character. *)
Definition dquote : ascii := ascii_of_nat 34.

(** ** [normalizeTitle] (local to [findPostByTitle]) *)
Definition normalizeTitle (s : jsstring) : jsstring :=
  if negb (nonempty s) then []
  else
    let s := replace_all match_tag [] s in
    let s := replace_all (match_lit (str "&nbsp;")) (str " ") s in
    let s := replace_all (match_lit (str "&amp;")) (str "&") s in
    let s := replace_all (match_lit (str "&quot;")) [dquote] s in
    let s := replace_all (match_lit (str "&#8217;")) (str "'") s in
    let s := replace_all (match_lit (str "&#8216;")) (str "'") s in
    let s := replace_all (match_lit (str "&#39;")) (str "'") s in
    let s := replace_all (match_lit (str "&#038;")) (str "&") s in
    let s := replace_all match_entity [] s in
    let s := replace_all match_spaces (str " ") s in
    trim (toLowerCase s).


(** [!x || !x.trim()] for a string, and for a field that may be absent. *)
Definition blank (s : jsstring) : bool :=
  negb (nonempty s) || negb (nonempty (trim s)).

Definition absent_or_blank (o : option jsstring) : bool :=
  match o with
  | Some s => blank s
  | None => true
  end.

(** [o || d] for a string that may be absent. *)
Definition or_else (o : option jsstring) (d : jsstring) : jsstring :=
  match o with
  | Some s => if nonempty s then s else d
  | None => d
  end.

(** The string held by a field that is known to be present. *)
Definition text_of (o : option jsstring) : jsstring :=
  match o with
  | Some s => s
  | None => []
  end.

(** ** Data exchanged with the remote site *)

(** A thrown error: its [message] and, for a rejected request, the
    payload of the response ([error.response.data]) as JSON text. *)
Record Error : Type := {
  message : jsstring;
  response_data : option jsstring
}.

Definition plain_error (msg : jsstring) : Error :=
  {| message := msg; response_data := None |}.

(** The [title] member of a listed post: an object with [rendered] and
    [raw], a bare string, or nothing. *)
Inductive TitleField : Type :=
| TitleObject (rendered raw : option jsstring)
| TitleString (s : jsstring)
| TitleAbsent.

Record Post : Type := {
  post_id : Z;
  post_title : TitleField;
  post_status : jsstring;
  post_slug : jsstring
}.

Record Term : Type := {
  term_id : Z;
  term_name : jsstring
}.

Inductive Taxonomy : Type := tax_categories | tax_tags.

(** Response to [axios.get(url, {responseType: 'arraybuffer'})]. *)
Record Fetched : Type := {
  content_type : option jsstring;
  content_disposition : option jsstring;
  fetched_data : list ascii
}.

(** [data] of the response to a create or an update of a post. *)
Record Written : Type := {
  written_id : Z;
  written_status : jsstring
}.

(** A parsed JSON value, kept as its canonical text. *)
Record Json : Type := { json_text : jsstring }.

(** One record of the CSV file: a column that is missing from the file
    is [None]. *)
Record Row : Type := {
  title : option jsstring;
  content : option jsstring;
  status : option jsstring;
  slug : option jsstring;
  excerpt : option jsstring;
  acf_json : option jsstring;
  categories : option jsstring;
  tags : option jsstring;
  featured_image_path : option jsstring;
  featured_image_url : option jsstring
}.

(** The payload built for a row ([postData]). *)
Record PostData : Type := {
  pd_title : jsstring;
  pd_content : jsstring;
  pd_status : jsstring;
  pd_slug : option jsstring;
  pd_excerpt : option jsstring;
  pd_acf : option Json;
  pd_categories : option (list Z);
  pd_tags : option (list Z);
  pd_featured_media : option Z
}.

(** The HTTP calls of the program. *)
Inductive Request : Type :=
| GetPosts (per_page page : nat)
    (* GET /posts, status any, orderby date, order desc *)
| GetPostsBySlug (slug : jsstring)          (* GET /posts, slug, per_page 1 *)
| GetProbe                                  (* GET /posts, per_page 1 *)
| GetTerms (taxonomy : Taxonomy) (search : jsstring)   (* per_page 100 *)
| PostTerm (taxonomy : Taxonomy) (name : jsstring)
| PostMedia (body : list ascii) (mime fileName : jsstring)
| PostCreate (data : PostData)              (* POST /posts *)
| PostUpdate (id : Z) (data : PostData)     (* POST /posts/<id> *)
| Fetch (url : jsstring).                   (* axios.get outside the site *)

Definition Answer (r : Request) : Type :=
  match r with
  | GetPosts _ _ | GetPostsBySlug _ | GetProbe => list Post
  | GetTerms _ _ => list Term
  | PostTerm _ _ => Term
  | PostMedia _ _ _ => Z
  | PostCreate _ | PostUpdate _ _ => Written
  | Fetch _ => Fetched
  end.

(** The remote side: each request is answered, or rejected with an
    error, and may change the state of the site. *)
Definition Remote (S : Type) : Type :=
  forall r : Request, S -> (Error + Answer r) * S.

(** Functions of the Node platform that the program calls. *)
Record Platform : Type := {
  JSON_parse : jsstring -> option Json;      (* [None]: SyntaxError *)
  mime_lookup : jsstring -> option jsstring; (* [None]: false *)
  url_basename : jsstring -> option jsstring;
    (* path.basename(new URL(u).pathname); [None]: the URL is invalid *)
  path_resolve : jsstring -> jsstring;
  path_basename : jsstring -> jsstring;
  fs_existsSync : jsstring -> bool;
  fs_readFileSync : jsstring -> Error + list ascii;
  loadCsv : jsstring -> Error + list Row
}.

(** ** The monad of the program *)

Inductive Outcome (A : Type) : Type :=
| Returned (a : A)
| Thrown (e : Error)
| Unfinished.     (* the loop budget ran out *)

Arguments Returned {A} a.
Arguments Thrown {A} e.
Arguments Unfinished {A}.

Record World (S : Type) : Type := {
  site : S;
  calls : list (Request * bool)   (* oldest first; [true]: answered *)
}.

Arguments site {S} w.
Arguments calls {S} w.

Definition M (S A : Type) : Type := World S -> Outcome A * World S.

Definition ret {S A} (a : A) : M S A := fun w => (Returned a, w).

Definition throw {S A} (e : Error) : M S A := fun w => (Thrown e, w).

Definition unfinished {S A} : M S A := fun w => (Unfinished, w).

Definition bind {S A B} (c : M S A) (k : A -> M S B) : M S B :=
  fun w =>
    match c w with
    | (Returned a, w') => k a w'
    | (Thrown e, w') => (Thrown e, w')
    | (Unfinished, w') => (Unfinished, w')
    end.

Definition try_catch {S A} (body : M S A) (handler : Error -> M S A) : M S A :=
  fun w =>
    match body w with
    | (Thrown e, w') => handler e w'
    | other => other
    end.

Definition call {S} (remote : Remote S) (r : Request) : M S (Answer r) :=
  fun w =>
    match remote r (site w) with
    | (inr a, s') => (Returned a, {| site := s'; calls := calls w ++ [(r, true)] |})
    | (inl e, s') => (Thrown e, {| site := s'; calls := calls w ++ [(r, false)] |})
    end.

(** [await sleep(ms)]: time is not observable in the model. *)
Definition sleep {S} (ms : Z) : M S unit := ret tt.

Declare Scope js_scope.
Delimit Scope js_scope with js.
Notation "x <- c ;; k" := (bind c (fun x => k))
  (at level 61, c at next level, right associativity) : js_scope.
Notation "c ;;; k" := (bind c (fun _ => k))
  (at level 61, right associativity) : js_scope.
Local Open Scope js_scope.

(** Truthiness of an identifier that may be [null]. *)
Definition truthy_id (o : option Z) : bool :=
  match o with
  | Some z => negb (Z.eqb z 0)
  | None => false
  end.

(** Decimal rendering of an integer inside a template literal. *)
Definition show_Z (z : Z) : jsstring :=
  list_ascii_of_string (DecimalString.NilZero.string_of_int (Z.to_int z)).

(** ** [bulk-upload.js] *)

Record Config : Type := {
  DEFAULT_STATUS : jsstring;
  REQUEST_DELAY_MS : Z
}.

Inductive Action : Type := created | updated.

(** The per-row result object. *)
Record Result : Type := {
  rowNumber : nat;
  result_title : jsstring;
  action : option Action;
  postId : option Z;
  result_status : option jsstring;
  error : option jsstring
}.

(** The value that [processCsvFile] resolves to ([duration] and
    [logPath] left out). *)
Record Summary : Type := {
  total : nat;
  success : nat;
  failed : nat;
  results : list Result
}.

Module BulkUpload.
Section WithSite.

Context {S : Type} (remote : Remote S) (platform : Platform).

Definition checkConnectivity : M S bool :=
  try_catch
    (_ <- call remote GetProbe ;; ret true)
    (fun _ => ret false).

Definition getOrCreateTerm (name : jsstring) (taxonomy : Taxonomy) (delayMs : Z)
  : M S (option Z) :=
  if blank name then ret None
  else
    let trimmedName := trim name in
    try_catch
      (searchResponse <- call remote (GetTerms taxonomy trimmedName) ;;
       match find (fun term => jsstring_eqb (toLowerCase (term_name term))
                                            (toLowerCase trimmedName))
                  searchResponse with
       | Some existing => ret (Some (term_id existing))
       | None =>
           sleep delayMs ;;;
           createResponse <- call remote (PostTerm taxonomy trimmedName) ;;
           ret (Some (term_id createResponse))
       end)
      (fun _ => ret None).

(** The body of [for (const name of names)] with the array [termIds]. *)
Fixpoint resolveTerms_loop (names : list jsstring) (taxonomy : Taxonomy)
         (delayMs : Z) (termIds : list Z) : M S (list Z) :=
  match names with
  | [] => ret termIds
  | name :: rest =>
      id <- getOrCreateTerm name taxonomy delayMs ;;
      let termIds :=
        match id with
        | Some z => if Z.eqb z 0 then termIds else termIds ++ [z]
        | None => termIds
        end in
      sleep delayMs ;;;
      resolveTerms_loop rest taxonomy delayMs termIds
  end.

Definition resolveTerms (termString : jsstring) (taxonomy : Taxonomy) (delayMs : Z)
  : M S (list Z) :=
  if blank termString then ret []
  else
    let names := filter nonempty (map trim (split_on "," termString)) in
    resolveTerms_loop names taxonomy delayMs [].

Record Asset : Type := {
  buffer : list ascii;
  mimeType : jsstring;
  fileName : jsstring
}.

Definition downloadImageFromUrl (imageUrl : jsstring) : M S (option Asset) :=
  try_catch
    (response <- call remote (Fetch imageUrl) ;;
     match url_basename platform imageUrl with
     | None => throw (plain_error (str "Invalid URL"))
     | Some base =>
         ret (Some {| buffer := fetched_data response;
                      mimeType :=
                        or_else (content_type response)
                          (or_else (mime_lookup platform imageUrl) (str "image/jpeg"));
                      fileName := or_else (Some base) (str "image.jpg") |})
     end)
    (fun _ => ret None).

Definition uploadMedia (filePathOrUrl : jsstring) (delayMs : Z) : M S (option Z) :=
  if blank filePathOrUrl then ret None
  else
    source <-
      (if startsWith (trim filePathOrUrl) (str "http://")
          || startsWith (trim filePathOrUrl) (str "https://")
       then downloadImageFromUrl (trim filePathOrUrl)
       else
         let fullPath := path_resolve platform filePathOrUrl in
         if negb (fs_existsSync platform fullPath) then ret None
         else
           match fs_readFileSync platform fullPath with
           | inl e => throw e
           | inr fileBuffer =>
               ret (Some {| buffer := fileBuffer;
                            mimeType := or_else (mime_lookup platform fullPath)
                                                (str "application/octet-stream");
                            fileName := path_basename platform fullPath |})
           end) ;;
    match source return M S (option Z) with
    | None => ret None
    | Some file =>
        try_catch
          (sleep delayMs ;;;
           response <- call remote (PostMedia (buffer file) (mimeType file) (fileName file)) ;;
           ret (Some response))
          (fun _ => ret None)
    end.

Definition findPostBySlug (slug : jsstring) : M S (option Z) :=
  if blank slug then ret None
  else
    try_catch
      (response <- call remote (GetPostsBySlug (trim slug)) ;;
       match response with
       | first :: _ => ret (Some (post_id first))
       | [] => ret None
       end)
      (fun _ => ret None).

(** [post.title?.rendered || post.title?.raw || post.title || '']; the
    value is not a string when the title object has neither a non-empty
    [rendered] nor a non-empty [raw]: [None] stands for that object. *)
Definition postTitleRaw (post : Post) : option jsstring :=
  match post_title post with
  | TitleObject rendered raw =>
      if truthy_str rendered then rendered
      else if truthy_str raw then raw
      else None
  | TitleString s => Some s
  | TitleAbsent => Some []
  end.

(** [normalizeTitle] called on the title object: [str.replace] is not a
    function. *)
Definition not_a_function : Error :=
  plain_error (str "str.replace is not a function").

Definition perPage : nat := 100.

(** [for (const post of response.data)]: the identifier of the first
    post whose normalised title equals the searched one ([return
    post.id]), nothing when the page has none, or the TypeError. *)
Fixpoint check_page (normalizedSearchTitle : jsstring) (data : list Post)
  : Error + option Z :=
  match data with
  | [] => inr None
  | post :: rest =>
      match postTitleRaw post with
      | None => inl not_a_function
      | Some postTitleRaw =>
          let postTitleNormalized := normalizeTitle postTitleRaw in
          let isMatch := jsstring_eqb postTitleNormalized normalizedSearchTitle in
          if isMatch then inr (Some (post_id post))
          else check_page normalizedSearchTitle rest
      end
  end.

(** [while (hasMore)], one page for each unit of [fuel]. *)
Fixpoint scan_pages (fuel : nat) (normalizedSearchTitle : jsstring) (page : nat)
  : M S (option Z) :=
  match fuel with
  | O => unfinished
  | Datatypes.S fuel =>
      data <- call remote (GetPosts perPage page) ;;
      if Nat.eqb (List.length data) 0 then ret None
      else
        match check_page normalizedSearchTitle data with
        | inl e => throw e
        | inr (Some id) => ret (Some id)
        | inr None =>
            if Nat.ltb (List.length data) perPage then ret None
            else
              let page := page + 1 in
              if Nat.ltb 10 page then ret None
              else scan_pages fuel normalizedSearchTitle page
        end
  end.

Definition findPostByTitle (fuel : nat) (title : jsstring) : M S (option Z) :=
  if blank title then ret None
  else
    try_catch
      (let normalizedSearchTitle := normalizeTitle title in
       scan_pages fuel normalizedSearchTitle 1)
      (fun _ => ret None).

(** The text of the error thrown for a duplicate title. *)
Definition duplicate_message (title : jsstring) (id : Z) : jsstring :=
  str "Post with title " ++ [dquote] ++ title ++ [dquote]
  ++ str " already exists (ID: " ++ show_Z id
  ++ str "). Duplicate posts are not allowed.".

(** The first part of the [try] block of [createOrUpdatePost], from the
    validation to the upload of the featured image: it yields
    [postData]. *)
Definition buildPostData (row : Row) (config : Config) : M S PostData :=
  if absent_or_blank (title row)
  then throw (plain_error (str "Missing required field: title"))
  else if absent_or_blank (content row)
  then throw (plain_error (str "Missing required field: content"))
  else
    let delay := REQUEST_DELAY_MS config in
    let acf :=
      match acf_json row with
      | Some raw => if nonempty (trim raw) then JSON_parse platform raw else None
      | None => None
      end in
    categoryIds <-
      match categories row with
      | Some raw =>
          if nonempty (trim raw) then resolveTerms raw tax_categories delay else ret []
      | None => ret []
      end ;;
    tagIds <-
      match tags row with
      | Some raw =>
          if nonempty (trim raw) then resolveTerms raw tax_tags delay else ret []
      | None => ret []
      end ;;
    let imagePath :=
      match trimmed (featured_image_path row) with
      | Some p => Some p
      | None => trimmed (featured_image_url row)
      end in
    mediaId <-
      match imagePath with
      | Some p => uploadMedia p delay
      | None => ret None
      end ;;
    ret {| pd_title := trim (text_of (title row));
           pd_content := trim (text_of (content row));
           pd_status := or_else (trimmed (status row)) (DEFAULT_STATUS config);
           pd_slug := trimmed (slug row);
           pd_excerpt := trimmed (excerpt row);
           pd_acf := acf;
           pd_categories :=
             if Nat.ltb 0 (List.length categoryIds) then Some categoryIds else None;
           pd_tags := if Nat.ltb 0 (List.length tagIds) then Some tagIds else None;
           pd_featured_media := if truthy_id mediaId then mediaId else None |}.

(** What the [catch] block stores in [result.error]. *)
Definition error_text (e : Error) : jsstring :=
  match response_data e with
  | Some data => if nonempty data then message e ++ str ": " ++ data else message e
  | None => message e
  end.

(** The last part of the [try] block of [createOrUpdatePost]: the
    lookup by slug and the write; it fills the result of the row in. *)
Definition writePost (postData : PostData) (result : Result) (config : Config)
  : M S Result :=
  existingPostId <-
    match pd_slug postData with
    | Some slug => findPostBySlug slug
    | None => ret None
    end ;;
  sleep (REQUEST_DELAY_MS config) ;;;
  match (if truthy_id existingPostId then existingPostId else None) with
  | Some id =>
      updateResponse <- call remote (PostUpdate id postData) ;;
      ret {| rowNumber := rowNumber result; result_title := result_title result;
             action := Some updated;
             postId := Some (written_id updateResponse);
             result_status := Some (written_status updateResponse);
             error := None |}
  | None =>
      createResponse <- call remote (PostCreate postData) ;;
      ret {| rowNumber := rowNumber result; result_title := result_title result;
             action := Some created;
             postId := Some (written_id createResponse);
             result_status := Some (written_status createResponse);
             error := None |}
  end.

Definition createOrUpdatePost (fuel : nat) (row : Row) (rowNumber : nat)
           (config : Config) : M S Result :=
  let result :=
    {| rowNumber := rowNumber;
       result_title := or_else (title row) (str "Untitled");
       action := None; postId := None; result_status := None; error := None |} in
  try_catch
    (postData <- buildPostData row config ;;
     existingPostByTitle <- findPostByTitle fuel (pd_title postData) ;;
     match existingPostByTitle with
     | Some id =>
         if truthy_id existingPostByTitle
         then throw (plain_error (duplicate_message (pd_title postData) id))
         else ret tt
     | None => ret tt
     end ;;;
     writePost postData result config)
    (fun e =>
       ret {| rowNumber := rowNumber; result_title := result_title result;
              action := None; postId := None; result_status := None;
              error := Some (error_text e) |}).

(** [for (let i = 0; i < rows.length; i++)] with the array
    [logResults]; [rows] is what remains from index [i] on. *)
Fixpoint process_rows (fuel : nat) (config : Config) (rows : list Row) (i : nat)
         (logResults : list Result) : M S (list Result) :=
  match rows with
  | [] => ret logResults
  | row :: rest =>
      result <- createOrUpdatePost fuel row (i + 1) config ;;
      process_rows fuel config rest (i + 1) (logResults ++ [result])
  end.

Definition processCsvFile (fuel : nat) (csvPath : jsstring) (config : Config)
  : M S Summary :=
  isConnected <- checkConnectivity ;;
  if negb isConnected
  then throw (plain_error
                (str "WordPress REST API is not accessible. Check your configuration."))
  else
    match loadCsv platform csvPath with
    | inl e => throw (plain_error (str "Failed to load CSV: " ++ message e))
    | inr rows =>
        if Nat.eqb (List.length rows) 0
        then throw (plain_error (str "CSV file is empty"))
        else
          logResults <- process_rows fuel config rows 0 [] ;;
          let successCount :=
            List.length (filter (fun r => negb (truthy_str (error r))) logResults) in
          let failedCount :=
            List.length (filter (fun r => truthy_str (error r)) logResults) in
          ret {| total := List.length rows;
                 success := successCount;
                 failed := failedCount;
                 results := logResults |}
    end.

End WithSite.
End BulkUpload.

(** ** [reproduce_issue.js] *)

Module ReproduceIssue.
Section WithSite.

Context {S : Type} (remote : Remote S) (platform : Platform).

(** [[a-zA-Z0-9_-]] *)
Definition is_id_char (c : ascii) : bool :=
  let n := nat_of_ascii c in
  (((97 <=? n) && (n <=? 122)) || ((65 <=? n) && (n <=? 90))
   || ((48 <=? n) && (n <=? 57)) || (n =? 95) || (n =? 45))%nat.

Fixpoint take_while (p : ascii -> bool) (s : jsstring) : jsstring :=
  match s with
  | c :: r => if p c then c :: take_while p r else []
  | [] => []
  end.

(** [s.match(re)] for an expression with one group: the group of the
    leftmost match, where [at_head] tells whether the expression matches
    at the head of a string and what the group then holds. *)
Fixpoint search (at_head : jsstring -> option jsstring) (s : jsstring)
  : option jsstring :=
  match at_head s with
  | Some group => Some group
  | None =>
      match s with
      | [] => None
      | _ :: r => search at_head r
      end
  end.

(** [/\/d\/([a-zA-Z0-9_-]+)/] and [/id=([a-zA-Z0-9_-]+)/]: the prefix and
    the longest run of identifier characters after it, not empty. *)
Definition id_after (prefix : jsstring) (s : jsstring) : option jsstring :=
  if startsWith s prefix
  then match take_while is_id_char (skipn (List.length prefix) s) with
       | [] => None
       | run => Some run
       end
  else None.

Definition convertGoogleDriveUrl (url : jsstring) : jsstring :=
  if negb (nonempty url) then url
  else if includes url (str "drive.google.com")
  then
    let idMatch :=
      match search (id_after (str "/d/")) url with
      | Some id => Some id
      | None => search (id_after (str "id=")) url
      end in
    match idMatch with
    | Some fileId => str "https://drive.google.com/uc?export=download&id=" ++ fileId
    | None => url
    end
  else url.

(** The expression for the file name in a content-disposition header:
    after [filename=], an optional double quote, then the longest run
    of characters other than a double quote, not empty. *)
Definition filename_at (s : jsstring) : option jsstring :=
  if startsWith s (str "filename=")
  then
    let rest := skipn 9 s in
    let rest := match rest with
                | c :: r => if Ascii.eqb c dquote then r else rest
                | [] => rest
                end in
    match take_while (fun c => negb (Ascii.eqb c dquote)) rest with
    | [] => None
    | run => Some run
    end
  else None.

Record Asset : Type := {
  buffer : list ascii;
  mimeType : option jsstring;
  fileName : jsstring
}.

Definition downloadImageFromUrl (imageUrl : jsstring) : M S (option Asset) :=
  try_catch
    (response <- call remote (Fetch imageUrl) ;;
     let contentType := content_type response in
     if match contentType with
        | Some ct => nonempty ct && includes ct (str "text/html")
        | None => false
        end
     then ret None
     else
       fileName <-
         (if truthy_str (content_disposition response)
          then
            match search filename_at
                    (match content_disposition response with
                     | Some cd => cd | None => [] end) with
            | Some name => ret name
            | None => ret (str "image.jpg")
            end
          else
            match url_basename platform imageUrl with
            | None => throw (plain_error (str "Invalid URL"))
            | Some base => ret (if nonempty base then base else str "image")
            end) ;;
       ret (Some {| buffer := fetched_data response;
                    mimeType := contentType;
                    fileName := fileName |}))
    (fun _ => ret None).

End WithSite.
End ReproduceIssue.

(** ** A reference site

    A small in-memory site that answers the requests the way the REST
    API does for a collection of posts listed most recent first.  It is
    used to run the program on concrete inputs. *)

Record Site : Type := {
  site_posts : list Post;
  site_categories : list Term;
  site_tags : list Term;
  site_next_id : Z;
  site_web : jsstring -> option Fetched;
  site_rejects : Request -> bool
}.

Definition rejection : Error :=
  {| message := str "Request failed with status code 500";
     response_data := Some (str "{}") |}.

Definition not_found : Error :=
  {| message := str "Request failed with status code 404";
     response_data := None |}.

Definition site_terms (taxonomy : Taxonomy) (s : Site) : list Term :=
  match taxonomy with
  | tax_categories => site_categories s
  | tax_tags => site_tags s
  end.

Definition add_term (taxonomy : Taxonomy) (t : Term) (s : Site) : Site :=
  {| site_posts := site_posts s;
     site_categories :=
       match taxonomy with
       | tax_categories => site_categories s ++ [t]
       | tax_tags => site_categories s
       end;
     site_tags :=
       match taxonomy with
       | tax_categories => site_tags s
       | tax_tags => site_tags s ++ [t]
       end;
     site_next_id := site_next_id s + 1;
     site_web := site_web s;
     site_rejects := site_rejects s |}.

Definition with_posts (posts : list Post) (next : Z) (s : Site) : Site :=
  {| site_posts := posts;
     site_categories := site_categories s;
     site_tags := site_tags s;
     site_next_id := next;
     site_web := site_web s;
     site_rejects := site_rejects s |}.

Definition post_of (id : Z) (data : PostData) : Post :=
  {| post_id := id;
     post_title := TitleObject (Some (pd_title data)) None;
     post_status := pd_status data;
     post_slug := match pd_slug data with Some s => s | None => [] end |}.

Definition reference_site : Remote Site :=
  fun r s =>
    if site_rejects s r then (inl rejection, s)
    else
      match r as r0 return (Error + Answer r0) * Site with
      | GetPosts per_page page =>
          (inr (firstn per_page (skipn (per_page * (page - 1)) (site_posts s))), s)
      | GetPostsBySlug slug =>
          (inr (firstn 1 (filter (fun p => jsstring_eqb (post_slug p) slug)
                                 (site_posts s))), s)
      | GetProbe => (inr (firstn 1 (site_posts s)), s)
      | GetTerms taxonomy search =>
          (inr (filter (fun t => includes (toLowerCase (term_name t))
                                          (toLowerCase search))
                       (site_terms taxonomy s)), s)
      | PostTerm taxonomy name =>
          let t := {| term_id := site_next_id s; term_name := name |} in
          (inr t, add_term taxonomy t s)
      | PostMedia _ _ _ =>
          (inr (site_next_id s), with_posts (site_posts s) (site_next_id s + 1) s)
      | PostCreate data =>
          (inr {| written_id := site_next_id s; written_status := pd_status data |},
           with_posts (post_of (site_next_id s) data :: site_posts s)
                      (site_next_id s + 1) s)
      | PostUpdate id data =>
          if existsb (fun p => Z.eqb (post_id p) id) (site_posts s)
          then
            (inr {| written_id := id; written_status := pd_status data |},
             with_posts (map (fun p => if Z.eqb (post_id p) id
                                       then post_of id data else p)
                             (site_posts s))
                        (site_next_id s) s)
          else (inl not_found, s)
      | Fetch url =>
          match site_web s url with
          | Some response => (inr response, s)
          | None => (inl not_found, s)
          end
      end.

(** A platform without files, whose JSON parser accepts every text. *)
Definition reference_platform : Platform :=
  {| JSON_parse := fun s => Some {| json_text := s |};
     mime_lookup := fun _ => None;
     url_basename := fun _ => Some (str "image.png");
     path_resolve := fun p => p;
     path_basename := fun p => p;
     fs_existsSync := fun _ => false;
     fs_readFileSync := fun _ => inl (plain_error (str "ENOENT"));
     loadCsv := fun _ => inl (plain_error (str "CSV file not found")) |}.

(** ** Vocabulary of the properties *)

(** The calls that create or update a post. *)
Definition is_write (c : Request * bool) : bool :=
  match fst c with
  | PostCreate _ | PostUpdate _ _ => true
  | _ => false
  end.

Definition writes (log : list (Request * bool)) : list (Request * bool) :=
  filter is_write log.

(** The calls of a duplicate scan: the listing of one page. *)
Definition is_listing (c : Request * bool) : bool :=
  match fst c with
  | GetPosts _ _ => true
  | _ => false
  end.

(** The page [page] (from 1) of a collection. *)
Definition page_of (coll : list Post) (page : nat) : list Post :=
  firstn BulkUpload.perPage (skipn (BulkUpload.perPage * (page - 1)) coll).

(** In state [s] the site lists the collection [coll] (most recent
    first) by pages of [perPage], and listing does not change it. *)
Definition lists {S} (remote : Remote S) (s : S) (coll : list Post) : Prop :=
  forall page, remote (GetPosts BulkUpload.perPage page) s = (inr (page_of coll page), s).


(** The normalised title of a listed post equals the normalised [title]. *)
Definition same_title (title : jsstring) (p : Post) : bool :=
  match BulkUpload.postTitleRaw p with
  | Some raw => jsstring_eqb (normalizeTitle raw) (normalizeTitle title)
  | None => false
  end.

(** A row is failed when its result carries an error text. *)
Definition is_failed (r : Result) : bool := truthy_str (error r).

(** A property of every non-empty suffix [c :: r] of a string. *)
Fixpoint all_suffixes (P : ascii -> jsstring -> Prop) (s : jsstring) : Prop :=
  match s with
  | [] => True
  | c :: r => P c r /\ all_suffixes P r
  end.

(** Shapes that the stages of [normalizeTitle] leave behind: no [<] is
    followed, anywhere later, by a [>]; *)
Definition tag_free : jsstring -> Prop :=
  all_suffixes (fun c r => c = "<" -> ~ In ">" r).

(** an [&] is directly followed by [;], or by no [;] at all; *)
Definition entity_free : jsstring -> Prop :=
  all_suffixes (fun c r => c = "&" ->
     match r with [] => True | d :: r' => d = ";" \/ ~ In ";" r' end).

(** whitespace is a single SP that is followed by another character. *)
Definition single_spaced : jsstring -> Prop :=
  all_suffixes (fun c r => is_space c = true -> c = " " /\ space_run r = 0).

(** [emits P c]: whatever [c] does, it only appends calls that satisfy
    [P] to the log. *)
Definition emits {S A} (P : Request * bool -> Prop) (c : M S A) : Prop :=
  forall w o w', c w = (o, w') ->
  exists new, calls w' = calls w ++ new /\ Forall P new.

(** [finishes c]: [c] does not run out of budget. *)
Definition finishes {S A} (c : M S A) : Prop :=
  forall w, fst (c w) <> Unfinished.

(** [returns c]: [c] returns a value, it neither throws nor runs out. *)
Definition returns {S A} (c : M S A) : Prop :=
  forall w, exists a w', c w = (Returned a, w').

(** A call that is neither the creation nor the update of a post. *)
Definition no_write (c : Request * bool) : Prop := is_write c = false.

(** A listed post whose title is a string. *)
Definition titled (p : Post) : Prop := BulkUpload.postTitleRaw p <> None.

(** The part of a collection that a duplicate scan started at [page] can
    reach: the pages [page] to 10. *)
Definition window (coll : list Post) (page : nat) : list Post :=
  firstn (BulkUpload.perPage * (11 - page))
         (skipn (BulkUpload.perPage * (page - 1)) coll).

(** A call of the duplicate scan. *)
Definition listing_only (c : Request * bool) : Prop := is_listing c = true.

(** A call that the remote side rejected. *)
Definition rejected (c : Request * bool) : Prop := snd c = false.

(** Result of a row that failed with the error text [msg]. *)
Definition failed_result (row : Row) (rowNumber : nat) (msg : jsstring) : Result :=
  {| rowNumber := rowNumber;
     result_title := or_else (title row) (str "Untitled");
     action := None; postId := None; result_status := None;
     error := Some msg |}.

(** The result object at the start of [createOrUpdatePost]. *)
Definition blank_result (row : Row) (rowNumber : nat) : Result :=
  {| rowNumber := rowNumber;
     result_title := or_else (title row) (str "Untitled");
     action := None; postId := None; result_status := None; error := None |}.

(** The labels of a raw label string, in order: the comma-separated
    pieces, trimmed, the empty ones dropped. *)
Definition labels (termString : jsstring) : list jsstring :=
  filter nonempty (map trim (split_on "," termString)).

(** What each label of a list resolves to when the labels are resolved
    one after the other, each on the site as the previous ones left it:
    an identifier, or nothing. *)
Fixpoint resolved_in_turn {S} (remote : Remote S) (names : list jsstring)
         (taxonomy : Taxonomy) (delayMs : Z) (w : World S)
  : list (option Z) * World S :=
  match names with
  | [] => ([], w)
  | name :: rest =>
      let '(o, w1) := BulkUpload.getOrCreateTerm remote name taxonomy delayMs w in
      let '(os, w2) := resolved_in_turn remote rest taxonomy delayMs w1 in
      (match o with Returned id => id | _ => None end :: os, w2)
  end.

(** The identifiers that are kept: the ones that are not falsy. *)
Definition kept (os : list (option Z)) : list Z :=
  flat_map (fun o => match o with
                     | Some z => if Z.eqb z 0 then [] else [z]
                     | None => []
                     end) os.

(** Case-insensitive equality of a term name and a label. *)
Definition same_name (label : jsstring) (term : Term) : bool :=
  jsstring_eqb (toLowerCase (term_name term)) (toLowerCase label).

(** ** Sample sites and rows *)

Definition sample_config : Config :=
  {| DEFAULT_STATUS := str "draft"; REQUEST_DELAY_MS := 300 |}.

Definition sample_post (id : Z) (title status slug : string) : Post :=
  {| post_id := id;
     post_title := TitleObject (Some (str title)) None;
     post_status := str status;
     post_slug := str slug |}.

Definition sample_row (title content : string) : Row :=
  {| title := Some (str title); content := Some (str content);
     status := None; slug := None; excerpt := None; acf_json := None;
     categories := None; tags := None;
     featured_image_path := None; featured_image_url := None |}.

Definition with_slug (s : string) (row : Row) : Row :=
  {| title := title row; content := content row; status := status row;
     slug := Some (str s); excerpt := excerpt row; acf_json := acf_json row;
     categories := categories row; tags := tags row;
     featured_image_path := featured_image_path row;
     featured_image_url := featured_image_url row |}.

Definition with_image_url (u : jsstring) (row : Row) : Row :=
  {| title := title row; content := content row; status := status row;
     slug := slug row; excerpt := excerpt row; acf_json := acf_json row;
     categories := categories row; tags := tags row;
     featured_image_path := featured_image_path row;
     featured_image_url := Some u |}.

Definition untitled_row : Row :=
  {| title := None; content := Some (str "body");
     status := None; slug := None; excerpt := None; acf_json := None;
     categories := None; tags := None;
     featured_image_path := None; featured_image_url := None |}.

(** A site with a draft and a published post and one category. *)
Definition sample_site : Site :=
  {| site_posts := [sample_post 7 "Hello <b>World</b>" "draft" "hello";
                    sample_post 5 "Other" "publish" "other"];
     site_categories := [{| term_id := 3; term_name := str "News" |}];
     site_tags := [];
     site_next_id := 10;
     site_web := fun _ => None;
     site_rejects := fun _ => false |}.

Definition rejecting (rejects : Request -> bool) (s : Site) : Site :=
  {| site_posts := site_posts s;
     site_categories := site_categories s;
     site_tags := site_tags s;
     site_next_id := site_next_id s;
     site_web := site_web s;
     site_rejects := rejects |}.

Definition serving (page : Fetched) (s : Site) : Site :=
  {| site_posts := site_posts s;
     site_categories := site_categories s;
     site_tags := site_tags s;
     site_next_id := site_next_id s;
     site_web := fun _ => Some page;
     site_rejects := site_rejects s |}.

Definition fresh {S} (s : S) : World S := {| site := s; calls := [] |}.

(** A site whose listing holds 1000 other posts ahead of a post titled
    [Hello World]. *)
Definition crowded_site : Site :=
  with_posts (repeat (sample_post 1 "Filler" "publish" "filler") 1000
              ++ [sample_post 7 "Hello World" "draft" "hello"])
             2000 sample_site.

(** The platform whose CSV loader yields the given rows. *)
Definition csv_platform (rows : list Row) : Platform :=
  {| JSON_parse := JSON_parse reference_platform;
     mime_lookup := mime_lookup reference_platform;
     url_basename := url_basename reference_platform;
     path_resolve := path_resolve reference_platform;
     path_basename := path_basename reference_platform;
     fs_existsSync := fs_existsSync reference_platform;
     fs_readFileSync := fs_readFileSync reference_platform;
     loadCsv := fun _ => inr rows |}.

(** A login page, as a drive link that is not shared answers. *)
Definition login_page : Fetched :=
  {| content_type := Some (str "text/html");
     content_disposition := None;
     fetched_data := str "<html>Sign in</html>" |}.

Definition share_url : jsstring :=
  str "https://drive.google.com/file/d/106UqbiAdo-z6ROElnyEqHI-8Klhb_g2Z/view?usp=sharing".

Definition direct_url : jsstring :=
  str "https://drive.google.com/uc?export=download&id=106UqbiAdo-z6ROElnyEqHI-8Klhb_g2Z".

Definition is_update (r : Request) : bool :=
  match r with PostUpdate _ _ => true | _ => false end.

Definition is_scan (r : Request) : bool :=
  match r with GetPosts _ _ => true | _ => false end.

(** The payload of a row made by [sample_row] on [sample_config]. *)
Definition sample_payload (title content : string) : PostData :=
  {| pd_title := str title; pd_content := str content;
     pd_status := str "draft";
     pd_slug := None; pd_excerpt := None; pd_acf := None;
     pd_categories := None; pd_tags := None; pd_featured_media := None |}.

Definition with_payload_slug (s : string) (data : PostData) : PostData :=
  {| pd_title := pd_title data; pd_content := pd_content data;
     pd_status := pd_status data;
     pd_slug := Some (str s); pd_excerpt := pd_excerpt data; pd_acf := pd_acf data;
     pd_categories := pd_categories data; pd_tags := pd_tags data;
     pd_featured_media := pd_featured_media data |}.

Definition with_payload_media (id : Z) (data : PostData) : PostData :=
  {| pd_title := pd_title data; pd_content := pd_content data;
     pd_status := pd_status data;
     pd_slug := pd_slug data; pd_excerpt := pd_excerpt data; pd_acf := pd_acf data;
     pd_categories := pd_categories data; pd_tags := pd_tags data;
     pd_featured_media := Some id |}.

(** Three rows: a duplicate of a listed post, a row without title, and
    a new post. *)
Definition sample_rows : list Row :=
  [sample_row "hello world" "body"; untitled_row; sample_row "New" "text"].


(** ** Command line and client configuration of [bulk-upload.js] *)

Module Cli.

(** One entry of the clients configuration; its members are strings. *)
Record ClientConfig : Type := {
  wp_site : option jsstring;
  wp_user : option jsstring;
  wp_app_password : option jsstring;
  default_status : option jsstring;
  request_delay_ms : option jsstring;
  name : option jsstring
}.

(** The clients configuration, an object that is read by its keys:
    [clients[key]] when that member is truthy, as an entry. *)
Definition Clients : Type := jsstring -> option ClientConfig.

(** [process.env]. *)
Record Env : Type := {
  CLIENT : option jsstring;
  WP_SITE : option jsstring;
  WP_USER : option jsstring;
  WP_APP_PASSWORD : option jsstring;
  ENV_DEFAULT_STATUS : option jsstring;
  ENV_REQUEST_DELAY_MS : option jsstring;
  CSV_PATH : option jsstring
}.

(** What the process finds around it. *)
Record System : Type := {
  env : Env;
  env_clients : option (option Clients);
    (* CLIENTS_CONFIG: not set; set but not JSON; the parsed object *)
  file_clients : option (option Clients);
    (* clients.json: no such file; not JSON; the parsed object *)
  parseInt : jsstring -> option Z;          (* parseInt(s, 10); [None]: NaN *)
  base64 : jsstring -> jsstring;            (* Buffer.from(s).toString('base64') *)
  argv : list jsstring;                     (* process.argv *)
  answer : option jsstring;
    (* the line typed at the prompt; [None]: the input ends before a line *)
  write_log : list Result -> option Error   (* fs.writeFileSync of the log throws *)
}.

(** A step of the start-up: a value, [process.exit(code)], or a throw. *)
Inductive Step (A : Type) : Type :=
| Done (a : A)
| Exit (code : nat)
| Throw (e : Error).

Arguments Done {A} a.
Arguments Exit {A} code.
Arguments Throw {A} e.

(** The [config] object and the settings of the axios instance. *)
Record Setup : Type := {
  SITE : jsstring;
  USER : jsstring;
  APP_PASSWORD : jsstring;
  STATUS : jsstring;
  DELAY_MS : option Z;
  CLIENT_NAME : jsstring;
  CLIENT_KEY : jsstring;
  baseURL : jsstring;
  authorization : jsstring
}.

Section WithSystem.

Context (sys : System).

Definition loadClientsConfig : Step Clients :=
  match env_clients sys with
  | Some (Some clientsConfig) => Done clientsConfig
  | _ =>
      match file_clients sys with
      | None => Exit 1
      | Some None => Exit 1
      | Some (Some config) => Done config
      end
  end.

Definition getClientConfig (clientKey : jsstring) : Step ClientConfig :=
  match loadClientsConfig with
  | Done clients =>
      match clients clientKey with
      | None => Exit 1
      | Some clientConfig => Done clientConfig
      end
  | Exit code => Exit code
  | Throw e => Throw e
  end.

(** [a || b || d] for strings that may be absent. *)
Definition first_of (a b : option jsstring) (d : jsstring) : jsstring :=
  or_else a (or_else b d).

(** [s.replace(/\/$/, '')]: one slash at the end is removed. *)
Fixpoint strip_slash (s : jsstring) : jsstring :=
  match s with
  | [] => []
  | [c] => if Ascii.eqb c "/" then [] else [c]
  | c :: r => c :: strip_slash r
  end.

Definition missing_configuration (selectedClient : jsstring) : Error :=
  plain_error
    (str "Missing required configuration for client " ++ [dquote] ++ selectedClient
     ++ [dquote] ++ str ": WP_SITE, WP_USER, WP_APP_PASSWORD").

(** [initializeClient(clientKey)], where [clientKey] may be [null]. *)
Definition initializeClient (clientKey : option jsstring) : Step Setup :=
  let selectedClient := first_of clientKey (CLIENT (env sys)) (str "default") in
  match getClientConfig selectedClient with
  | Exit code => Exit code
  | Throw e => Throw e
  | Done clientConfig =>
      let site := strip_slash (first_of (wp_site clientConfig) (WP_SITE (env sys)) []) in
      let user := first_of (wp_user clientConfig) (WP_USER (env sys)) [] in
      let password :=
        first_of (wp_app_password clientConfig) (WP_APP_PASSWORD (env sys)) [] in
      if negb (nonempty site) || negb (nonempty user) || negb (nonempty password)
      then Throw (missing_configuration selectedClient)
      else
        Done {| SITE := site;
                USER := user;
                APP_PASSWORD := password;
                STATUS := first_of (default_status clientConfig)
                                   (ENV_DEFAULT_STATUS (env sys)) (str "draft");
                DELAY_MS := parseInt sys
                              (first_of (request_delay_ms clientConfig)
                                        (ENV_REQUEST_DELAY_MS (env sys)) (str "300"));
                CLIENT_NAME := or_else (name clientConfig) selectedClient;
                CLIENT_KEY := selectedClient;
                baseURL := site ++ str "/wp-json/wp/v2";
                authorization := str "Basic " ++ base64 sys (user ++ str ":" ++ password) |}
  end.

(** The [config] that the rows are processed with; a delay that is not
    a number makes [setTimeout] fire at once. *)
Definition config_of (setup : Setup) : Config :=
  {| DEFAULT_STATUS := STATUS setup;
     REQUEST_DELAY_MS := match DELAY_MS setup with Some ms => ms | None => 0%Z end |}.

(** What [promptForCsvPath(defaultPath)] resolves to.  When the input
    ends before a line is read the callback of [rl.question] is never
    called and the promise never settles: [None] stands for that. *)
Definition promptForCsvPath (defaultPath : option jsstring) : option jsstring :=
  match answer sys with
  | None => None
  | Some line =>
      let userInput := trim line in
      Some (first_of (Some userInput) defaultPath (str "posts.csv"))
  end.

(** The loop of [main] over [process.argv] from index 2, with the
    variables [clientKey] and [csvPath]. *)
Fixpoint parse_args (args : list jsstring) (clientKey csvPath : option jsstring)
  : option jsstring * option jsstring :=
  match args with
  | [] => (clientKey, csvPath)
  | arg :: rest =>
      if startsWith arg (str "--client=")
      then parse_args rest (Some (nth 1 (split_on "=" arg) [])) csvPath
      else
        let otherwise :=
          if negb (truthy_str csvPath) && negb (startsWith arg (str "--"))
          then parse_args rest clientKey (Some arg)
          else parse_args rest clientKey csvPath in
        if jsstring_eqb arg (str "--client")
        then match rest with
             | next :: rest' => parse_args rest' (Some next) csvPath
             | [] => otherwise
             end
        else otherwise
  end.

(** The block [if (!csvPath) { ... }] of [main]: the argument found by
    the loop, else the argument of index 2 when it is not an option,
    else what the prompt resolves to, if it ever does. *)
Definition resolveCsvPath (csvPath : option jsstring) : option jsstring :=
  if truthy_str csvPath then Some (text_of csvPath)
  else if truthy_str (nth_error (argv sys) 2)
          && negb (startsWith (text_of (nth_error (argv sys) 2)) (str "--"))
  then Some (text_of (nth_error (argv sys) 2))
  else
    let suggestedPath := or_else (CSV_PATH (env sys)) (str "posts.csv") in
    promptForCsvPath (Some suggestedPath).

End WithSystem.

Section WithSite.

Context {S : Type} (remote : Remote S) (platform : Platform) (sys : System).

(** [main()] together with the [catch] of its call: the value is the
    exit code of the process.  While the promise of the prompt is
    pending nothing else is: when it never settles, [main] never
    resumes and the process ends, with code 0, before the probe. *)
Definition main (fuel : nat) : M S nat :=
  try_catch
    (let '(clientKey, csvPath) := parse_args (skipn 2 (argv sys)) None None in
     match initializeClient sys clientKey with
     | Exit code => ret code
     | Throw e => throw e
     | Done setup =>
         let config := config_of setup in
         match resolveCsvPath sys csvPath with
         | None => ret 0
         | Some csvPath =>
             isConnected <- BulkUpload.checkConnectivity remote ;;
             if negb isConnected then ret 1
             else
               match loadCsv platform csvPath with
               | inl _ => ret 1
               | inr rows =>
                   if Nat.eqb (List.length rows) 0 then ret 0
                   else
                     logResults <-
                       BulkUpload.process_rows remote platform fuel config rows 0 [] ;;
                     match write_log sys logResults with
                     | Some e => throw e
                     | None =>
                         let failedCount :=
                           List.length
                             (filter (fun r => truthy_str (error r)) logResults) in
                         ret (if Nat.ltb 0 failedCount then 1 else 0)
                     end
               end
         end
     end)
    (fun _ => ret 1).

(** The exported [processCsvFile(csvPath, progressCallback, clientKey)]:
    it sets the client up and then runs the batch.  [inl code] stands
    for the end of the process with that code, inside [initializeClient];
    [clientKey] is the argument after its default, [None] for [null]. *)
Definition processCsvFile (fuel : nat) (csvPath : jsstring)
           (clientKey : option jsstring) : M S (nat + Summary) :=
  match initializeClient sys clientKey with
  | Exit code => ret (inl code)
  | Throw e => throw e
  | Done setup =>
      summary <- BulkUpload.processCsvFile remote platform fuel csvPath
                   (config_of setup) ;;
      ret (inr summary)
  end.

End WithSite.

End Cli.

(** ** More vocabulary *)

(** The message of the error that [processCsvFile] throws for a file
    without rows. *)
Definition empty_csv : jsstring := str "CSV file is empty".

(** The address that [convertGoogleDriveUrl] puts before the file
    identifier. *)
Definition direct_prefix : jsstring :=
  str "https://drive.google.com/uc?export=download&id=".

(** A call that searches or creates a term of [taxonomy] for one of
    the labels. *)
Definition term_call (taxonomy : Taxonomy) (names : list jsstring)
           (c : Request * bool) : Prop :=
  exists label, In label names
    /\ (fst c = GetTerms taxonomy (trim label) \/ fst c = PostTerm taxonomy (trim label)).

(** A result without an [error] member. *)
Definition succeeded (r : Result) : bool :=
  match error r with None => true | Some _ => false end.

(** A write call that the site answered. *)
Definition answered (c : Request * bool) : bool := snd c.


(** The stages of [normalizeTitle] before the whitespace is collapsed. *)
Definition strip (s : jsstring) : jsstring :=
  let s := replace_all match_tag [] s in
  let s := replace_all (match_lit (str "&nbsp;")) (str " ") s in
  let s := replace_all (match_lit (str "&amp;")) (str "&") s in
  let s := replace_all (match_lit (str "&quot;")) [dquote] s in
  let s := replace_all (match_lit (str "&#8217;")) (str "'") s in
  let s := replace_all (match_lit (str "&#8216;")) (str "'") s in
  let s := replace_all (match_lit (str "&#39;")) (str "'") s in
  let s := replace_all (match_lit (str "&#038;")) (str "&") s in
  replace_all match_entity [] s.

(** The stage of [normalizeTitle] that collapses the whitespace. *)
Definition collapse (s : jsstring) : jsstring := replace_all match_spaces (str " ") s.

(** ** A sample command line *)

(** The value of a leading run of decimal digits, as [parseInt] reads
    an unsigned number; nothing when there is no digit. *)
Fixpoint read_digits (acc : option Z) (s : jsstring) : option Z :=
  match s with
  | c :: r =>
      let n := nat_of_ascii c in
      if ((48 <=? n) && (n <=? 57))%nat
      then read_digits
             (Some (10 * match acc with Some a => a | None => 0 end
                    + Z.of_nat (n - 48))%Z) r
      else acc
  | [] => acc
  end.

(** One client, [default], with a site address that ends in a slash. *)
Definition sample_clients : Cli.Clients :=
  fun key =>
    if jsstring_eqb key (str "default")
    then Some {| Cli.wp_site := Some (str "https://example.com/");
                 Cli.wp_user := Some (str "editor");
                 Cli.wp_app_password := Some (str "abcd efgh");
                 Cli.default_status := None;
                 Cli.request_delay_ms := None;
                 Cli.name := Some (str "Example") |}
    else None.

(** A process started as [node bulk-upload.js posts.csv] beside a
    [clients.json], with an empty environment; the sample leaves the
    credentials unencoded. *)
Definition sample_system : Cli.System :=
  {| Cli.env := {| Cli.CLIENT := None; Cli.WP_SITE := None; Cli.WP_USER := None;
                   Cli.WP_APP_PASSWORD := None; Cli.ENV_DEFAULT_STATUS := None;
                   Cli.ENV_REQUEST_DELAY_MS := None; Cli.CSV_PATH := None |};
     Cli.env_clients := None;
     Cli.file_clients := Some (Some sample_clients);
     Cli.parseInt := read_digits None;
     Cli.base64 := fun s => s;
     Cli.argv := [str "node"; str "bulk-upload.js"; str "posts.csv"];
     Cli.answer := Some [];
     Cli.write_log := fun _ => None |}.

(** The same process started without a path, with an input that ends
    before a line is typed. *)
Definition silent_system : Cli.System :=
  {| Cli.env := Cli.env sample_system;
     Cli.env_clients := Cli.env_clients sample_system;
     Cli.file_clients := Cli.file_clients sample_system;
     Cli.parseInt := Cli.parseInt sample_system;
     Cli.base64 := Cli.base64 sample_system;
     Cli.argv := [str "node"; str "bulk-upload.js"];
     Cli.answer := None;
     Cli.write_log := Cli.write_log sample_system |}.

Definition sample_setup : Cli.Setup :=
  {| Cli.SITE := str "https://example.com";
     Cli.USER := str "editor";
     Cli.APP_PASSWORD := str "abcd efgh";
     Cli.STATUS := str "draft";
     Cli.DELAY_MS := Some 300%Z;
     Cli.CLIENT_NAME := str "Example";
     Cli.CLIENT_KEY := str "default";
     Cli.baseURL := str "https://example.com/wp-json/wp/v2";
     Cli.authorization := str "Basic editor:abcd efgh" |}.

(** ** More samples *)

(** The sample site with a post ahead whose title is an object without
    text. *)
Definition untitled_post : Post :=
  {| post_id := 9; post_title := TitleObject None None;
     post_status := str "draft"; post_slug := str "untitled" |}.

Definition untitled_first_site : Site :=
  with_posts (untitled_post :: site_posts sample_site) 10 sample_site.

(** A platform on which every path is a file that cannot be read. *)
Definition unreadable_platform : Platform :=
  {| JSON_parse := JSON_parse reference_platform;
     mime_lookup := mime_lookup reference_platform;
     url_basename := url_basename reference_platform;
     path_resolve := path_resolve reference_platform;
     path_basename := path_basename reference_platform;
     fs_existsSync := fun _ => true;
     fs_readFileSync := fun _ => inl (plain_error (str "EACCES: permission denied"));
     loadCsv := loadCsv reference_platform |}.

Definition with_image_path (p : jsstring) (row : Row) : Row :=
  {| title := title row; content := content row; status := status row;
     slug := slug row; excerpt := excerpt row; acf_json := acf_json row;
     categories := categories row; tags := tags row;
     featured_image_path := Some p;
     featured_image_url := featured_image_url row |}.

(** ** Strings of UTF-16 code units

    The strings of the program are sequences of 16-bit code units.  The
    pipeline above is run on strings of the code units below 256; the
    normalisation of titles is given here once more on all code units,
    with the whitespace of ECMAScript in full and with
    [String.prototype.toLowerCase], which is not a map on code units,
    as a function of the platform. *)

Module Utf16.

Definition ustring : Type := list N.

(** The code unit of a character below 256, and the string of a
    literal. *)
Definition unit_of (c : ascii) : N := N_of_ascii c.

Definition ustr (s : string) : ustring := map N_of_ascii (list_ascii_of_string s).

Definition lt_sign : N := 60.   (* < *)
Definition gt_sign : N := 62.   (* > *)
Definition amp : N := 38.       (* & *)
Definition semi : N := 59.      (* ; *)
Definition sp : N := 32.        (* the space character *)

(** WhiteSpace and LineTerminator of ECMAScript, the characters of [\s]
    and the ones that [trim] removes: TAB, LF, VT, FF, CR, SP, NBSP,
    U+1680, U+2000 to U+200A, U+2028, U+2029, U+202F, U+205F, U+3000
    and U+FEFF. *)
Definition whitespace : list N :=
  [9; 10; 11; 12; 13; 32; 160; 5760;
   8192; 8193; 8194; 8195; 8196; 8197; 8198; 8199; 8200; 8201; 8202;
   8232; 8233; 8239; 8287; 12288; 65279]%N.

Definition is_space (c : N) : bool := existsb (N.eqb c) whitespace.

Definition nonempty (s : ustring) : bool :=
  match s with [] => false | _ :: _ => true end.

Fixpoint trim_start (s : ustring) : ustring :=
  match s with
  | [] => []
  | c :: r => if is_space c then trim_start r else s
  end.

Fixpoint trim_end (s : ustring) : ustring :=
  match s with
  | [] => []
  | c :: r =>
      match trim_end r with
      | [] => if is_space c then [] else [c]
      | r' => c :: r'
      end
  end.

Definition trim (s : ustring) : ustring := trim_end (trim_start s).

Fixpoint startsWith (s p : ustring) : bool :=
  match p, s with
  | [], _ => true
  | x :: p', y :: s' => N.eqb x y && startsWith s' p'
  | _ :: _, [] => false
  end.

(** [s.replace(/re/g, rep)], as for the strings of the pipeline: [m]
    gives the length of the match at the head of its argument. *)
Fixpoint replace_from (m : ustring -> option nat) (rep : ustring)
         (skip : nat) (s : ustring) : ustring :=
  match s with
  | [] => []
  | c :: r =>
      match skip with
      | S k => replace_from m rep k r
      | O =>
          match m s with
          | Some (S n) => rep ++ replace_from m rep n r
          | _ => c :: replace_from m rep 0 r
          end
      end
  end.

Definition replace_all (m : ustring -> option nat) (rep s : ustring) : ustring :=
  replace_from m rep 0 s.

Fixpoint index_of (c : N) (s : ustring) : option nat :=
  match s with
  | [] => None
  | x :: r => if N.eqb x c then Some 0 else option_map S (index_of c r)
  end.

(** [/<[^>]*>/] *)
Definition match_tag (s : ustring) : option nat :=
  match s with
  | c :: r =>
      if N.eqb c lt_sign then option_map (fun i => i + 2) (index_of gt_sign r)
      else None
  | [] => None
  end.

(** A literal pattern such as [/&amp;/]. *)
Definition match_lit (p : ustring) (s : ustring) : option nat :=
  if startsWith s p then Some (List.length p) else None.

(** [/&[^;]+;/] *)
Definition match_entity (s : ustring) : option nat :=
  match s with
  | a :: c :: r =>
      if N.eqb a amp && negb (N.eqb c semi)
      then option_map (fun i => i + 3) (index_of semi r)
      else None
  | _ => None
  end.

(** [/\s+/] *)
Fixpoint space_run (s : ustring) : nat :=
  match s with
  | c :: r => if is_space c then S (space_run r) else 0
  | [] => 0
  end.

Definition match_spaces (s : ustring) : option nat :=
  match space_run s with
  | 0 => None
  | n => Some n
  end.

(** The stages of [normalizeTitle] before the whitespace is collapsed,
    and the collapse. *)
Definition strip (s : ustring) : ustring :=
  let s := replace_all match_tag [] s in
  let s := replace_all (match_lit (ustr "&nbsp;")) (ustr " ") s in
  let s := replace_all (match_lit (ustr "&amp;")) (ustr "&") s in
  let s := replace_all (match_lit (ustr "&quot;")) [34%N] s in
  let s := replace_all (match_lit (ustr "&#8217;")) (ustr "'") s in
  let s := replace_all (match_lit (ustr "&#8216;")) (ustr "'") s in
  let s := replace_all (match_lit (ustr "&#39;")) (ustr "'") s in
  let s := replace_all (match_lit (ustr "&#038;")) (ustr "&") s in
  replace_all match_entity [] s.

Definition collapse (s : ustring) : ustring :=
  replace_all match_spaces (ustr " ") s.

Section Normalizer.

(** [String.prototype.toLowerCase] of the platform. *)
Variable toLowerCase : ustring -> ustring.

(** [normalizeTitle] (local to [findPostByTitle]). *)
Definition normalizeTitle (s : ustring) : ustring :=
  if negb (nonempty s) then []
  else
    let s := replace_all match_tag [] s in
    let s := replace_all (match_lit (ustr "&nbsp;")) (ustr " ") s in
    let s := replace_all (match_lit (ustr "&amp;")) (ustr "&") s in
    let s := replace_all (match_lit (ustr "&quot;")) [34%N] s in
    let s := replace_all (match_lit (ustr "&#8217;")) (ustr "'") s in
    let s := replace_all (match_lit (ustr "&#8216;")) (ustr "'") s in
    let s := replace_all (match_lit (ustr "&#39;")) (ustr "'") s in
    let s := replace_all (match_lit (ustr "&#038;")) (ustr "&") s in
    let s := replace_all match_entity [] s in
    let s := replace_all match_spaces (ustr " ") s in
    trim (toLowerCase s).

End Normalizer.

(** The characters at which the expressions of [normalizeTitle] look
    once the whitespace is collapsed, and the others. *)
Definition delimiter (c : N) : bool :=
  N.eqb c sp || N.eqb c lt_sign || N.eqb c gt_sign || N.eqb c amp || N.eqb c semi.

Definition plain (c : N) : bool := negb (delimiter c) && negb (is_space c).

(** Lower case of a code unit of ASCII. *)
Definition ascii_lower (c : N) : N :=
  if (N.leb 65 c && N.leb c 90)%N then (c + 32)%N else c.

(** What the normalisation uses of [toLowerCase].  Its case mapping is
    stable; it maps nothing but the empty string to the empty string;
    it works on each side of a space, [<], [>], [&] or [;] on its own
    (none of them is cased or case-ignorable, so none is part of the
    context of a letter) and leaves these five in place; from a string
    without whitespace and without these five it makes no such
    character; and on ASCII it maps [A] to [Z] onto [a] to [z] and
    nothing else. *)
Record Lowering (toLowerCase : ustring -> ustring) : Prop := {
  lower_idem : forall s, toLowerCase (toLowerCase s) = toLowerCase s;
  lower_nonempty : forall s, s <> [] -> toLowerCase s <> [];
  lower_split : forall a c b,
      delimiter c = true ->
      toLowerCase (a ++ c :: b) = toLowerCase a ++ c :: toLowerCase b;
  lower_plain : forall s,
      Forall (fun c => plain c = true) s ->
      Forall (fun c => plain c = true) (toLowerCase s);
  lower_ascii : forall s,
      Forall (fun c => (c < 128)%N) s -> toLowerCase s = map ascii_lower s
}.

(** A property of every non-empty suffix [c :: r] of a string. *)
Fixpoint all_suffixes (P : N -> ustring -> Prop) (s : ustring) : Prop :=
  match s with
  | [] => True
  | c :: r => P c r /\ all_suffixes P r
  end.

Definition tag_free : ustring -> Prop :=
  all_suffixes (fun c r => c = lt_sign -> ~ In gt_sign r).

Definition entity_free : ustring -> Prop :=
  all_suffixes (fun c r => c = amp ->
     match r with [] => True | d :: r' => d = semi \/ ~ In semi r' end).

Definition single_spaced : ustring -> Prop :=
  all_suffixes (fun c r => is_space c = true -> c = sp /\ space_run r = 0).

(** A string whose only whitespace is the space character. *)
Definition clean (s : ustring) : Prop :=
  Forall (fun c => is_space c = true -> c = sp) s.

(** A [toLowerCase] that is right on the code units below 256 and
    leaves the others as they are; it is used to run the normalisation
    on samples. *)
Definition latin_lower_unit (c : N) : N :=
  if ((N.leb 65 c && N.leb c 90)
      || (N.leb 192 c && N.leb c 222 && negb (N.eqb c 215)))%N
  then (c + 32)%N else c.

Definition latin_lower (s : ustring) : ustring := map latin_lower_unit s.

End Utf16.

(** A string of the pipeline as a string of UTF-16 code units. *)
Definition of_latin1 (s : jsstring) : Utf16.ustring := map N_of_ascii s.

(** * Properties *)

Local Open Scope js_scope.

Example normalize_entities :
  normalizeTitle (str "  A &lt;b&gt; <<i>> &amp;amp; x &;y; ") = str "a b > x &;y;".
Proof. vm_compute. reflexivity. Qed.

(** ** Replacement: unfolding and induction *)

Lemma replace_from_skipn m rep k s :
  replace_from m rep k s = replace_all m rep (skipn k s).
Proof.
  revert k; induction s as [|c r IH]; intros [|k]; try reflexivity.
  cbn [replace_from skipn]. apply IH.
Qed.

Lemma replace_all_nil m rep : replace_all m rep [] = [].
Proof. reflexivity. Qed.

Lemma replace_all_hit m rep c r n :
  m (c :: r) = Some (S n) ->
  replace_all m rep (c :: r) = rep ++ replace_all m rep (skipn n r).
Proof.
  intros H. unfold replace_all at 1. cbn [replace_from]. rewrite H.
  now rewrite replace_from_skipn.
Qed.

Lemma replace_all_miss m rep c r :
  (forall n, m (c :: r) <> Some (S n)) ->
  replace_all m rep (c :: r) = c :: replace_all m rep r.
Proof.
  intros H. unfold replace_all. cbn [replace_from].
  destruct (m (c :: r)) as [[|n]|]; try reflexivity. now destruct (H n).
Qed.

Lemma replace_all_ind m rep (P : jsstring -> jsstring -> Prop) :
  P [] [] ->
  (forall c r, (forall n, m (c :: r) <> Some (S n)) ->
     P r (replace_all m rep r) -> P (c :: r) (c :: replace_all m rep r)) ->
  (forall c r n, m (c :: r) = Some (S n) ->
     P (skipn n r) (replace_all m rep (skipn n r)) ->
     P (c :: r) (rep ++ replace_all m rep (skipn n r))) ->
  forall s, P s (replace_all m rep s).
Proof.
  intros Hnil Hmiss Hhit s.
  remember (List.length s) as len eqn:E.
  revert s E. induction len as [len IH] using lt_wf_ind. intros [|c r] E.
  - exact Hnil.
  - destruct (m (c :: r)) as [[|n]|] eqn:Hm.
    + rewrite replace_all_miss by congruence.
      apply Hmiss; [congruence|]. apply (IH (List.length r)); cbn in E; [lia|reflexivity].
    + rewrite (replace_all_hit _ _ _ _ _ Hm). apply Hhit; [exact Hm|].
      apply (IH (List.length (skipn n r))); [|reflexivity].
      cbn in E. rewrite length_skipn. lia.
    + rewrite replace_all_miss by congruence.
      apply Hmiss; [congruence|]. apply (IH (List.length r)); cbn in E; [lia|reflexivity].
Qed.

Lemma replace_all_In m rep c s :
  In c (replace_all m rep s) -> In c s \/ In c rep.
Proof.
  revert s. apply (replace_all_ind m rep (fun s out => In c out -> In c s \/ In c rep)).
  - intros [].
  - intros d r _ IH [->|H]; [left; now left|].
    destruct (IH H); [left; now right|now right].
  - intros d r n _ IH H. apply in_app_or in H as [H|H]; [now right|].
    destruct (IH H) as [H'|H']; [|now right].
    left; right. revert H'. clear. revert r. induction n; intros [|x r]; cbn; auto.
Qed.


(** ** Properties of every suffix *)

Lemma all_suffixes_skipn P n s : all_suffixes P s -> all_suffixes P (skipn n s).
Proof.
  revert s; induction n; intros [|c r]; cbn; auto. intros [_ H]. now apply IHn.
Qed.

Lemma replace_all_fixed m rep s :
  all_suffixes (fun c r => forall n, m (c :: r) = Some (S n) -> n = 0 /\ rep = [c]) s ->
  replace_all m rep s = s.
Proof.
  induction s as [|c r IH]; [reflexivity|]. intros [H Hr].
  destruct (m (c :: r)) as [[|n]|] eqn:Hm.
  - rewrite replace_all_miss by congruence. now rewrite IH.
  - destruct (H n eq_refl) as [-> Hrep]. rewrite (replace_all_hit _ _ _ _ _ Hm).
    cbn [skipn]. rewrite IH by assumption. now rewrite Hrep.
  - rewrite replace_all_miss by congruence. now rewrite IH.
Qed.

Lemma all_suffixes_impl (P Q : ascii -> jsstring -> Prop) s :
  (forall c r, P c r -> Q c r) -> all_suffixes P s -> all_suffixes Q s.
Proof. intros H; induction s; cbn; intuition. Qed.

Lemma all_suffixes_trim_start P s : all_suffixes P s -> all_suffixes P (trim_start s).
Proof.
  induction s as [|c r IH]; cbn; auto. intros [H Hr].
  destruct (is_space c); cbn; auto.
Qed.

Lemma trim_end_In c s : In c (trim_end s) -> In c s.
Proof.
  induction s as [|x r IH]; cbn; auto.
  destruct (trim_end r) as [|y r'].
  - destruct (is_space x); cbn; intuition.
  - intros [->|H]; auto.
Qed.

Lemma all_suffixes_trim_end (P : ascii -> jsstring -> Prop) s :
  (forall c r, P c r -> P c (trim_end r)) ->
  all_suffixes P s -> all_suffixes P (trim_end s).
Proof.
  intros HP. induction s as [|c r IH]; cbn; auto. intros [H Hr].
  specialize (IH Hr). apply HP in H.
  destruct (trim_end r) as [|y r'].
  - destruct (is_space c); cbn; auto.
  - cbn. split; [exact H|exact IH].
Qed.

Lemma all_suffixes_lower (P : ascii -> jsstring -> Prop) s :
  (forall c r, P c r -> P (lower_char c) (toLowerCase r)) ->
  all_suffixes P s -> all_suffixes P (toLowerCase s).
Proof.
  intros HP. induction s as [|c r IH]; cbn; auto. intros [H Hr]. split; auto.
Qed.

(** ** Facts about single characters, by enumeration *)

Lemma lower_char_idem c : lower_char (lower_char c) = lower_char c.
Proof. destruct c as [[] [] [] [] [] [] [] []]; reflexivity. Qed.

Lemma is_space_lower c : is_space (lower_char c) = is_space c.
Proof. destruct c as [[] [] [] [] [] [] [] []]; reflexivity. Qed.

Lemma lower_char_lt c : lower_char c = "<" -> c = "<".
Proof. destruct c as [[] [] [] [] [] [] [] []]; vm_compute; congruence. Qed.

Lemma lower_char_gt c : lower_char c = ">" -> c = ">".
Proof. destruct c as [[] [] [] [] [] [] [] []]; vm_compute; congruence. Qed.

Lemma lower_char_amp c : lower_char c = "&" -> c = "&".
Proof. destruct c as [[] [] [] [] [] [] [] []]; vm_compute; congruence. Qed.

Lemma lower_char_semi c : lower_char c = ";" -> c = ";".
Proof. destruct c as [[] [] [] [] [] [] [] []]; vm_compute; congruence. Qed.

Lemma lower_char_space c : is_space c = true -> lower_char c = c.
Proof. destruct c as [[] [] [] [] [] [] [] []]; vm_compute; congruence. Qed.

Lemma toLowerCase_In x s :
  (forall c, lower_char c = x -> c = x) -> In x (toLowerCase s) -> In x s.
Proof.
  intros H Hin. apply in_map_iff in Hin as (c & Hc & Hin). now rewrite <- (H c Hc).
Qed.

Lemma index_of_None c s : index_of c s = None -> ~ In c s.
Proof.
  induction s as [|x r IH]; cbn; [tauto|].
  destruct (Ascii.eqb_spec x c); [discriminate|].
  destruct (index_of c r); [discriminate|]. intros _ [H|H]; [congruence|now apply IH].
Qed.

Lemma index_of_Some c s i : index_of c s = Some i -> In c s.
Proof.
  revert i; induction s as [|x r IH]; cbn; [discriminate|]. intros i.
  destruct (Ascii.eqb_spec x c); [now left|].
  destruct (index_of c r) as [j|]; [|discriminate]. right. now apply (IH j).
Qed.

(** ** Shapes that the stages of [normalizeTitle] leave behind *)


(** *** Tags *)

Lemma match_tag_miss c r :
  (forall n, match_tag (c :: r) <> Some (S n)) -> c = "<" -> ~ In ">" r.
Proof.
  intros H ->. cbn in H. apply index_of_None.
  destruct (index_of ">" r) as [i|]; [|reflexivity].
  exfalso. apply (H (i + 1)). cbn. f_equal. lia.
Qed.

Lemma match_tag_hit c r n : match_tag (c :: r) = Some n -> c = "<" /\ In ">" r.
Proof.
  cbn. destruct (Ascii.eqb_spec c "<"); [|discriminate].
  destruct (index_of ">" r) as [i|] eqn:E; [|discriminate].
  intros _. split; [assumption|]. now apply (index_of_Some _ _ i).
Qed.

Lemma tag_free_strip s : tag_free (replace_all match_tag [] s).
Proof.
  pattern s. revert s.
  apply (replace_all_ind match_tag [] (fun _ out => tag_free out)).
  - exact I.
  - intros c r Hm IH. split; [|exact IH]. intros Hc Hin.
    apply replace_all_In in Hin as [Hin|[]]. now apply (match_tag_miss c r).
  - intros c r n _ IH. exact IH.
Qed.

Lemma tag_free_app rep s : ~ In "<" rep -> tag_free s -> tag_free (rep ++ s).
Proof.
  induction rep as [|x rep IH]; cbn; auto. intros Hx Hs. split.
  - intros ->. tauto.
  - apply IH; tauto.
Qed.

Lemma tag_free_replace m rep s :
  ~ In "<" rep -> ~ In ">" rep -> tag_free s -> tag_free (replace_all m rep s).
Proof.
  intros Hlt Hgt. revert s.
  apply (replace_all_ind m rep (fun s out => tag_free s -> tag_free out)).
  - auto.
  - intros c r _ IH [Hc Hr]. split; [|now apply IH].
    intros E Hin. apply replace_all_In in Hin as [Hin|Hin]; [now apply Hc|tauto].
  - intros c r n _ IH [_ Hr]. apply tag_free_app; [exact Hlt|].
    apply IH. now apply all_suffixes_skipn.
Qed.

Lemma tag_free_lower s : tag_free s -> tag_free (toLowerCase s).
Proof.
  apply all_suffixes_lower. intros c r H Hc Hin.
  apply lower_char_lt in Hc. apply (toLowerCase_In _ _ lower_char_gt) in Hin. tauto.
Qed.

Lemma tag_free_trim s : tag_free s -> tag_free (trim s).
Proof.
  intros H. apply all_suffixes_trim_end.
  - intros c r Hc E Hin. apply trim_end_In in Hin. tauto.
  - now apply all_suffixes_trim_start.
Qed.

Lemma tag_free_fixed s : tag_free s -> replace_all match_tag [] s = s.
Proof.
  intros H. apply replace_all_fixed. revert H. apply all_suffixes_impl.
  intros c r Hc n Hm. apply match_tag_hit in Hm as [E Hin]. tauto.
Qed.

(** *** Entities *)

Lemma match_entity_hit c r n :
  match_entity (c :: r) = Some n ->
  c = "&" /\ exists d r', r = d :: r' /\ d <> ";" /\ In ";" r'.
Proof.
  destruct r as [|d r']; cbn; [discriminate|].
  destruct (Ascii.eqb_spec c "&"); [|discriminate].
  destruct (Ascii.eqb_spec d ";"); [discriminate|]. cbn.
  destruct (index_of ";" r') as [i|] eqn:E; [|discriminate].
  intros _. split; [assumption|]. exists d, r'. repeat split; auto.
  now apply (index_of_Some _ _ i).
Qed.

Lemma match_entity_miss d r' :
  (forall n, match_entity ("&" :: d :: r') <> Some (S n)) -> d = ";" \/ ~ In ";" r'.
Proof.
  intros H. cbn in H. destruct (Ascii.eqb_spec d ";"); [now left|right]. cbn in H.
  apply index_of_None. destruct (index_of ";" r') as [i|]; [|reflexivity].
  exfalso. apply (H (i + 2)). cbn. f_equal. lia.
Qed.

Lemma entity_free_strip s : entity_free (replace_all match_entity [] s).
Proof.
  pattern s. revert s.
  apply (replace_all_ind match_entity [] (fun _ out => entity_free out)).
  - exact I.
  - intros c r Hm IH. split; [|exact IH]. intros ->.
    destruct r as [|d r']; [exact I|].
    destruct (match_entity_miss _ _ Hm) as [->|Hno].
    + rewrite replace_all_miss; [now left|].
      intros n Hn. apply match_entity_hit in Hn as [Hn _]. discriminate.
    + destruct (replace_all match_entity [] (d :: r')) as [|e out] eqn:E; [exact I|].
      destruct (Ascii.eqb_spec e ";") as [->|He]; [now left|right].
      intros Hin.
      assert (In ";" (replace_all match_entity [] (d :: r'))) as Hin'
        by (rewrite E; now right).
      apply replace_all_In in Hin' as [[->|Hin']|[]]; [|tauto].
      (* the head [d] is a semicolon: it is copied, so [e] is one too *)
      rewrite replace_all_miss in E.
      * injection E as <- _. congruence.
      * intros n Hn. apply match_entity_hit in Hn as [Hn _]. discriminate.
  - intros c r n _ IH. exact IH.
Qed.

Lemma startsWith_app s p : startsWith s p = true -> exists t, s = p ++ t.
Proof.
  revert s; induction p as [|x p IH]; intros [|y s]; cbn [startsWith];
    try discriminate.
  - intros _. now exists [].
  - intros _. now exists (y :: s).
  - destruct (Ascii.eqb_spec x y) as [->|]; cbn [andb]; [|discriminate].
    intros H. destruct (IH _ H) as [t ->]. now exists t.
Qed.

Lemma entity_free_no_lit d p s :
  d <> ";" -> In ";" p -> entity_free s ->
  forall rep, replace_all (match_lit ("&" :: d :: p)) rep s = s.
Proof.
  intros Hd Hp H rep. apply replace_all_fixed. revert H. apply all_suffixes_impl.
  intros c r Hc n Hm. exfalso. unfold match_lit in Hm.
  destruct (startsWith (c :: r) ("&" :: d :: p)) eqn:E; [|discriminate].
  apply startsWith_app in E as [t E]. cbn [app] in E. inversion E; subst.
  destruct (Hc eq_refl) as [?|Hno]; [contradiction|].
  apply Hno. apply in_or_app. now left.
Qed.

Lemma entity_free_fixed s : entity_free s -> replace_all match_entity [] s = s.
Proof.
  intros H. apply replace_all_fixed. revert H. apply all_suffixes_impl.
  intros c r Hc n Hm. exfalso.
  apply match_entity_hit in Hm as (-> & d & r' & -> & Hd & Hin).
  destruct (Hc eq_refl); tauto.
Qed.

Lemma semi_head_or_absent (s : jsstring) :
  ~ In ";" s -> match s with [] => True | d :: r' => d = ";" \/ ~ In ";" r' end.
Proof. destruct s; cbn; tauto. Qed.

Lemma match_spaces_hit c r n :
  match_spaces (c :: r) = Some (S n) -> is_space c = true /\ space_run r = n.
Proof.
  unfold match_spaces. cbn. destruct (is_space c); [|discriminate].
  intros H. injection H as H. auto.
Qed.

Lemma match_spaces_miss c r :
  (forall n, match_spaces (c :: r) <> Some (S n)) -> is_space c = false.
Proof.
  unfold match_spaces. cbn. destruct (is_space c); [|reflexivity].
  intros H. now destruct (H (space_run r)).
Qed.

Lemma replace_spaces_head rep c r :
  is_space c = false ->
  replace_all match_spaces rep (c :: r) = c :: replace_all match_spaces rep r.
Proof.
  intros H. apply replace_all_miss. intros n Hn.
  apply match_spaces_hit in Hn as [Hn _]. congruence.
Qed.

Lemma entity_free_collapse s :
  entity_free s -> entity_free (replace_all match_spaces (str " ") s).
Proof.
  revert s.
  apply (replace_all_ind match_spaces (str " ")
           (fun s out => entity_free s -> entity_free out)).
  - auto.
  - intros c r _ IH [Hc Hr]. split; [|now apply IH]. intros E. specialize (Hc E).
    destruct r as [|d r']; [exact I|].
    destruct (Ascii.eqb_spec d ";") as [->|Hd].
    + rewrite replace_spaces_head by reflexivity. now left.
    + apply semi_head_or_absent. intros Hin.
      apply replace_all_In in Hin as [[?|Hin]|[Hin|[]]]; try tauto; discriminate.
  - intros c r n Hm IH [_ Hr]. split.
    + discriminate.
    + apply IH. now apply all_suffixes_skipn.
Qed.

Lemma entity_free_lower s : entity_free s -> entity_free (toLowerCase s).
Proof.
  apply all_suffixes_lower. intros c r H Hc. apply lower_char_amp in Hc.
  specialize (H Hc). destruct r as [|d r']; [exact I|]. cbn.
  destruct H as [->|H]; [now left|right].
  intros Hin. now apply (toLowerCase_In _ _ lower_char_semi) in Hin.
Qed.

Lemma entity_free_trim s : entity_free s -> entity_free (trim s).
Proof.
  intros H. apply all_suffixes_trim_end; [|now apply all_suffixes_trim_start].
  intros c r Hc E. specialize (Hc E). destruct r as [|d r']; [exact I|].
  cbn. destruct (trim_end r') as [|y t] eqn:Et.
  - destruct (is_space d); [exact I|]. right. tauto.
  - destruct Hc as [->|Hc]; [now left|right].
    intros Hin. apply Hc. apply trim_end_In. now rewrite Et.
Qed.

(** *** Whitespace *)

Lemma space_run_skipn s : space_run (skipn (space_run s) s) = 0.
Proof.
  induction s as [|c r IH]; [reflexivity|]. cbn [space_run].
  destruct (is_space c) eqn:E; cbn [skipn space_run]; [exact IH|now rewrite E].
Qed.

Lemma space_run_replace rep s :
  space_run s = 0 -> space_run (replace_all match_spaces rep s) = 0.
Proof.
  destruct s as [|c r]; [reflexivity|]. cbn [space_run].
  destruct (is_space c) eqn:E; [discriminate|]. intros _.
  rewrite replace_spaces_head by exact E. cbn. now rewrite E.
Qed.

Lemma single_spaced_collapse s : single_spaced (replace_all match_spaces (str " ") s).
Proof.
  pattern s. revert s.
  apply (replace_all_ind match_spaces (str " ") (fun _ out => single_spaced out)).
  - exact I.
  - intros c r Hm IH. split; [|exact IH]. intros E.
    apply match_spaces_miss in Hm. congruence.
  - intros c r n Hm IH. apply match_spaces_hit in Hm as [_ <-]. split; [|exact IH].
    intros _. split; [reflexivity|]. apply space_run_replace, space_run_skipn.
Qed.

Lemma space_run_lower s : space_run (toLowerCase s) = space_run s.
Proof.
  induction s as [|c r IH]; [reflexivity|]. cbn. rewrite is_space_lower.
  destruct (is_space c); [f_equal; exact IH|reflexivity].
Qed.

Lemma single_spaced_lower s : single_spaced s -> single_spaced (toLowerCase s).
Proof.
  apply all_suffixes_lower. intros c r H E. rewrite is_space_lower in E.
  destruct (H E) as [-> Hr]. split; [reflexivity|]. now rewrite space_run_lower.
Qed.

Lemma space_run_trim_end s : space_run s = 0 -> space_run (trim_end s) = 0.
Proof.
  destruct s as [|c r]; [reflexivity|]. cbn.
  destruct (is_space c) eqn:E; [discriminate|]. intros _.
  destruct (trim_end r); cbn; now rewrite E.
Qed.

Lemma space_run_trim_start s : space_run (trim_start s) = 0.
Proof.
  induction s as [|c r IH]; [reflexivity|]. cbn.
  destruct (is_space c) eqn:E; [exact IH|]. cbn. now rewrite E.
Qed.

Lemma single_spaced_trim s : single_spaced s -> single_spaced (trim s).
Proof.
  intros H. apply all_suffixes_trim_end; [|now apply all_suffixes_trim_start].
  intros c r Hc E. destruct (Hc E) as [-> Hr]. split; [reflexivity|].
  now apply space_run_trim_end.
Qed.

Lemma single_spaced_fixed s :
  single_spaced s -> replace_all match_spaces (str " ") s = s.
Proof.
  intros H. apply replace_all_fixed. revert H. apply all_suffixes_impl.
  intros c r Hc n Hm. apply match_spaces_hit in Hm as [E <-].
  destruct (Hc E) as [-> ->]. split; reflexivity.
Qed.

(** *** Case and trimming *)

Lemma toLowerCase_idem s : toLowerCase (toLowerCase s) = toLowerCase s.
Proof.
  unfold toLowerCase. rewrite map_map. apply map_ext. exact lower_char_idem.
Qed.

Lemma trim_start_lower s : trim_start (toLowerCase s) = toLowerCase (trim_start s).
Proof.
  induction s as [|c r IH]; [reflexivity|]. cbn. rewrite is_space_lower.
  destruct (is_space c); [exact IH|reflexivity].
Qed.

Lemma trim_end_lower s : trim_end (toLowerCase s) = toLowerCase (trim_end s).
Proof.
  induction s as [|c r IH]; [reflexivity|]. cbn. fold (toLowerCase r). rewrite IH.
  destruct (trim_end r); cbn; [rewrite is_space_lower; now destruct (is_space c)|reflexivity].
Qed.

Lemma trim_lower s : trim (toLowerCase s) = toLowerCase (trim s).
Proof. unfold trim. now rewrite trim_start_lower, trim_end_lower. Qed.

Lemma trim_end_idem s : trim_end (trim_end s) = trim_end s.
Proof.
  induction s as [|c r IH]; [reflexivity|]. cbn.
  destruct (trim_end r) as [|y t] eqn:E.
  - destruct (is_space c) eqn:Ec; cbn; [reflexivity|now rewrite Ec].
  - cbn [trim_end] in *. now rewrite IH.
Qed.

Lemma trim_start_fixed s : space_run s = 0 -> trim_start s = s.
Proof.
  destruct s as [|c r]; [reflexivity|]. cbn. now destruct (is_space c).
Qed.

Lemma trim_idem s : trim (trim s) = trim s.
Proof.
  unfold trim. rewrite (trim_start_fixed (trim_end (trim_start s))).
  - apply trim_end_idem.
  - apply space_run_trim_end, space_run_trim_start.
Qed.

(** ** A normalised title is a fixed point *)

Lemma normalizeTitle_fixed t :
  tag_free t -> entity_free t -> single_spaced t ->
  toLowerCase t = t -> trim t = t -> normalizeTitle t = t.
Proof.
  intros Htag Hent Hsp Hlow Htrim. unfold normalizeTitle.
  destruct t as [|c r]; [reflexivity|]. cbn [nonempty negb].
  rewrite (tag_free_fixed _ Htag).
  rewrite (entity_free_no_lit "n" (str "bsp;")); [|discriminate|vm_compute; tauto|exact Hent].
  rewrite (entity_free_no_lit "a" (str "mp;")); [|discriminate|vm_compute; tauto|exact Hent].
  rewrite (entity_free_no_lit "q" (str "uot;")); [|discriminate|vm_compute; tauto|exact Hent].
  rewrite (entity_free_no_lit "#" (str "8217;")); [|discriminate|vm_compute; tauto|exact Hent].
  rewrite (entity_free_no_lit "#" (str "8216;")); [|discriminate|vm_compute; tauto|exact Hent].
  rewrite (entity_free_no_lit "#" (str "39;")); [|discriminate|vm_compute; tauto|exact Hent].
  rewrite (entity_free_no_lit "#" (str "038;")); [|discriminate|vm_compute; tauto|exact Hent].
  rewrite (entity_free_fixed _ Hent), (single_spaced_fixed _ Hsp), Hlow.
  exact Htrim.
Qed.

Lemma normalizeTitle_shape s :
  let t := normalizeTitle s in
  tag_free t /\ entity_free t /\ single_spaced t /\ toLowerCase t = t /\ trim t = t.
Proof.
  unfold normalizeTitle. destruct s as [|c r]; cbn [nonempty negb].
  - repeat split.
  - set (u := c :: r). clearbody u. cbv zeta. repeat split.
    + apply tag_free_trim, tag_free_lower.
      do 9 (apply tag_free_replace; [vm_compute; intuition discriminate
                                      |vm_compute; intuition discriminate|]).
      apply tag_free_strip.
    + apply entity_free_trim, entity_free_lower, entity_free_collapse, entity_free_strip.
    + apply single_spaced_trim, single_spaced_lower, single_spaced_collapse.
    + rewrite trim_lower. apply toLowerCase_idem.
    + apply trim_idem.
Qed.

(** The normaliser of the pipeline, on the strings of code units below
    256, is idempotent. *)
Lemma latin1_normalizeTitle_idempotent s :
  normalizeTitle (normalizeTitle s) = normalizeTitle s
  /\ normalizeTitle (str "<b>Weekend Brunch</b> &amp; More") = str "weekend brunch & more".
Proof.
  split.
  - destruct (normalizeTitle_shape s) as (H1 & H2 & H3 & H4 & H5).
    now apply normalizeTitle_fixed.
  - vm_compute. reflexivity.
Qed.

(** ** Trimming before normalising changes nothing *)





Lemma trim_end_spaces ws : Forall (fun c => is_space c = true) ws -> trim_end ws = [].
Proof.
  induction 1 as [|c ws Hc _ IH]; [reflexivity|]. cbn [trim_end]. now rewrite IH, Hc.
Qed.

Lemma trim_end_app t ws :
  Forall (fun c => is_space c = true) ws -> trim_end (t ++ ws) = trim_end t.
Proof.
  intros Hws. induction t as [|c r IH]; cbn [app trim_end].
  - now apply trim_end_spaces.
  - now rewrite IH.
Qed.

























(** ** The monad: steps and call logs *)

Section Steps.

Context {S : Type} (remote : Remote S).

Lemma bind_returned {A B} (c : M S A) (k : A -> M S B) w a w' :
  c w = (Returned a, w') -> bind c k w = k a w'.
Proof. unfold bind. now intros ->. Qed.

Lemma bind_thrown {A B} (c : M S A) (k : A -> M S B) w e w' :
  c w = (Thrown e, w') -> bind c k w = (Thrown e, w').
Proof. unfold bind. now intros ->. Qed.

Lemma bind_ret {A B} (a : A) (k : A -> M S B) w : bind (ret a) k w = k a w.
Proof. reflexivity. Qed.

Lemma bind_sleep {B} ms (k : unit -> M S B) w : bind (sleep ms) k w = k tt w.
Proof. reflexivity. Qed.

Lemma bind_inv {A B} (c : M S A) (k : A -> M S B) w b w2 :
  bind c k w = (Returned b, w2) ->
  exists a w1, c w = (Returned a, w1) /\ k a w1 = (Returned b, w2).
Proof.
  unfold bind. destruct (c w) as [[a|e|] w1]; try discriminate.
  intros H. now exists a, w1.
Qed.

Lemma call_answered r w a s' :
  remote r (site w) = (inr a, s') ->
  call remote r w = (Returned a, {| site := s'; calls := calls w ++ [(r, true)] |}).
Proof. unfold call. now intros ->. Qed.

Lemma call_rejected r w e s' :
  remote r (site w) = (inl e, s') ->
  call remote r w = (Thrown e, {| site := s'; calls := calls w ++ [(r, false)] |}).
Proof. unfold call. now intros ->. Qed.


Lemma emits_ret {A} P (a : A) : emits P (@ret S A a).
Proof.
  intros w o w' H. injection H as _ <-. exists []. now rewrite app_nil_r.
Qed.

Lemma emits_throw {A} P e : emits P (@throw S A e).
Proof.
  intros w o w' H. injection H as _ <-. exists []. now rewrite app_nil_r.
Qed.

Lemma emits_unfinished {A} P : emits P (@unfinished S A).
Proof.
  intros w o w' H. injection H as _ <-. exists []. now rewrite app_nil_r.
Qed.

Lemma emits_sleep P ms : emits P (@sleep S ms).
Proof. apply emits_ret. Qed.

Lemma emits_call (P : Request * bool -> Prop) r :
  P (r, true) -> P (r, false) -> emits P (call remote r).
Proof.
  intros Ht Hf w o w'. unfold call.
  destruct (remote r (site w)) as [[e|a] s']; intros H; injection H as _ <-;
    cbn; eexists; split; try reflexivity; now constructor.
Qed.

Lemma emits_bind {A B} P (c : M S A) (k : A -> M S B) :
  emits P c -> (forall a, emits P (k a)) -> emits P (bind c k).
Proof.
  intros Hc Hk w o w'. unfold bind.
  destruct (c w) as [[a|e|] w1] eqn:E; destruct (Hc _ _ _ E) as (n1 & E1 & F1).
  - intros H. destruct (Hk a _ _ _ H) as (n2 & E2 & F2).
    exists (n1 ++ n2). split; [now rewrite E2, E1, app_assoc|now apply Forall_app].
  - intros H. injection H as _ <-. now exists n1.
  - intros H. injection H as _ <-. now exists n1.
Qed.

Lemma emits_try_catch {A} P (c : M S A) h :
  emits P c -> (forall e, emits P (h e)) -> emits P (try_catch c h).
Proof.
  intros Hc Hh w o w'. unfold try_catch.
  destruct (c w) as [[a|e|] w1] eqn:E; destruct (Hc _ _ _ E) as (n1 & E1 & F1).
  - intros H. injection H as _ <-. now exists n1.
  - intros H. destruct (Hh e _ _ _ H) as (n2 & E2 & F2).
    exists (n1 ++ n2). split; [now rewrite E2, E1, app_assoc|now apply Forall_app].
  - intros H. injection H as _ <-. now exists n1.
Qed.

Lemma finishes_ret {A} (a : A) : finishes (@ret S A a).
Proof. intros w; discriminate. Qed.

Lemma finishes_throw {A} e : finishes (@throw S A e).
Proof. intros w; discriminate. Qed.

Lemma finishes_call r : finishes (call remote r).
Proof.
  intros w. unfold call. destruct (remote r (site w)) as [[e|a] s']; discriminate.
Qed.

Lemma finishes_bind {A B} (c : M S A) (k : A -> M S B) :
  finishes c -> (forall a, finishes (k a)) -> finishes (bind c k).
Proof.
  intros Hc Hk w. unfold bind. specialize (Hc w).
  destruct (c w) as [[a|e|] w1]; cbn in *; try discriminate; [apply Hk|tauto].
Qed.

Lemma returns_ret {A} (a : A) : returns (@ret S A a).
Proof. intros w. now exists a, w. Qed.

Lemma returns_bind {A B} (c : M S A) (k : A -> M S B) :
  returns c -> (forall a, returns (k a)) -> returns (bind c k).
Proof.
  intros Hc Hk w. destruct (Hc w) as (a & w1 & E).
  rewrite (bind_returned _ _ _ _ _ E). apply Hk.
Qed.

Lemma returns_try_catch {A} (c : M S A) h :
  finishes c -> (forall e, returns (h e)) -> returns (try_catch c h).
Proof.
  intros Hc Hh w. unfold try_catch. specialize (Hc w).
  destruct (c w) as [[a|e|] w1]; cbn in *; [now exists a, w1|apply Hh|tauto].
Qed.

Lemma returns_finishes {A} (c : M S A) : returns c -> finishes c.
Proof. intros H w. destruct (H w) as (a & w' & ->). discriminate. Qed.

End Steps.

(** ** Calls made by the parts of the reconciler *)

Ltac emits_step :=
  first
    [ apply emits_ret | apply emits_throw | apply emits_sleep | apply emits_unfinished
    | apply emits_call; reflexivity
    | apply emits_bind; [|intros]
    | apply emits_try_catch; [|intros]
    | match goal with
      | |- emits _ (if ?b then _ else _) => destruct b
      | |- emits _ (match ?x with _ => _ end) => destruct x
      end ].

Ltac returns_step :=
  first
    [ apply returns_ret
    | apply returns_bind; [|intros]
    | match goal with
      | |- returns (if ?b then _ else _) => destruct b
      | |- returns (match ?x with _ => _ end) => destruct x
      end ].

Ltac finishes_step :=
  first
    [ apply finishes_ret | apply finishes_throw | apply finishes_call
    | apply finishes_bind; [|intros]
    | match goal with
      | |- finishes (if ?b then _ else _) => destruct b
      | |- finishes (match ?x with _ => _ end) => destruct x
      end ].

Section Reconciler.

Context {S : Type} (remote : Remote S) (platform : Platform).

Lemma getOrCreateTerm_returns name taxonomy delayMs :
  returns (BulkUpload.getOrCreateTerm remote name taxonomy delayMs).
Proof.
  unfold BulkUpload.getOrCreateTerm. destruct (blank name); [apply returns_ret|].
  apply returns_try_catch; [|intros; apply returns_ret].
  repeat finishes_step.
Qed.

Lemma getOrCreateTerm_emits name taxonomy delayMs :
  emits no_write (BulkUpload.getOrCreateTerm remote name taxonomy delayMs).
Proof. unfold BulkUpload.getOrCreateTerm. repeat emits_step. Qed.

Lemma resolveTerms_loop_returns names taxonomy delayMs termIds :
  returns (BulkUpload.resolveTerms_loop remote names taxonomy delayMs termIds).
Proof.
  revert termIds. induction names as [|name rest IH]; intros termIds; cbn.
  - apply returns_ret.
  - apply returns_bind; [apply getOrCreateTerm_returns|intros id].
    apply returns_bind; [apply returns_ret|intros _]. apply IH.
Qed.

Lemma resolveTerms_loop_emits names taxonomy delayMs termIds :
  emits no_write (BulkUpload.resolveTerms_loop remote names taxonomy delayMs termIds).
Proof.
  revert termIds. induction names as [|name rest IH]; intros termIds; cbn.
  - apply emits_ret.
  - apply emits_bind; [apply getOrCreateTerm_emits|intros id].
    apply emits_bind; [apply emits_sleep|intros _]. apply IH.
Qed.

Lemma resolveTerms_returns termString taxonomy delayMs :
  returns (BulkUpload.resolveTerms remote termString taxonomy delayMs).
Proof.
  unfold BulkUpload.resolveTerms. destruct (blank termString); [apply returns_ret|].
  apply resolveTerms_loop_returns.
Qed.

Lemma resolveTerms_emits termString taxonomy delayMs :
  emits no_write (BulkUpload.resolveTerms remote termString taxonomy delayMs).
Proof.
  unfold BulkUpload.resolveTerms. destruct (blank termString); [apply emits_ret|].
  apply resolveTerms_loop_emits.
Qed.

Lemma downloadImageFromUrl_emits imageUrl :
  emits no_write (BulkUpload.downloadImageFromUrl remote platform imageUrl).
Proof. unfold BulkUpload.downloadImageFromUrl. repeat emits_step. Qed.

Lemma uploadMedia_emits filePathOrUrl delayMs :
  emits no_write (BulkUpload.uploadMedia remote platform filePathOrUrl delayMs).
Proof.
  unfold BulkUpload.uploadMedia. destruct (blank filePathOrUrl); [apply emits_ret|].
  apply emits_bind.
  - destruct (_ || _); [apply downloadImageFromUrl_emits|]. repeat emits_step.
  - intros [file|]; repeat emits_step.
Qed.

Lemma buildPostData_emits row config :
  emits no_write (BulkUpload.buildPostData remote platform row config).
Proof.
  unfold BulkUpload.buildPostData.
  destruct (absent_or_blank (title row)); [apply emits_throw|].
  destruct (absent_or_blank (content row)); [apply emits_throw|].
  apply emits_bind.
  { destruct (categories row) as [raw|]; [|apply emits_ret].
    destruct (nonempty (trim raw)); [apply resolveTerms_emits|apply emits_ret]. }
  intros categoryIds. apply emits_bind.
  { destruct (tags row) as [raw|]; [|apply emits_ret].
    destruct (nonempty (trim raw)); [apply resolveTerms_emits|apply emits_ret]. }
  intros tagIds. apply emits_bind.
  { destruct (match trimmed (featured_image_path row) with
              | Some p => Some p | None => trimmed (featured_image_url row) end);
      [apply uploadMedia_emits|apply emits_ret]. }
  intros mediaId. apply emits_ret.
Qed.

Lemma findPostBySlug_returns slug : returns (BulkUpload.findPostBySlug remote slug).
Proof.
  unfold BulkUpload.findPostBySlug. destruct (blank slug); [apply returns_ret|].
  apply returns_try_catch; [|intros; apply returns_ret]. repeat finishes_step.
Qed.

Lemma findPostBySlug_emits slug : emits no_write (BulkUpload.findPostBySlug remote slug).
Proof. unfold BulkUpload.findPostBySlug. repeat emits_step. Qed.

Lemma checkConnectivity_returns : returns (BulkUpload.checkConnectivity remote).
Proof.
  unfold BulkUpload.checkConnectivity.
  apply returns_try_catch; [|intros; apply returns_ret]. repeat finishes_step.
Qed.

End Reconciler.

(** ** The duplicate scan *)

Lemma jsstring_eqb_eq a b : jsstring_eqb a b = true <-> a = b.
Proof.
  revert b; induction a as [|x a IH]; intros [|y b]; cbn; try (split; congruence).
  rewrite andb_true_iff, IH. destruct (Ascii.eqb_spec x y); split.
  - intros [_ ->]. congruence.
  - intros H; injection H as _ ->. auto.
  - intros [H _]; discriminate.
  - intros H; injection H as -> _. contradiction.
Qed.

Lemma firstn_plus {A} a b (l : list A) :
  firstn (a + b) l = firstn a l ++ firstn b (skipn a l).
Proof.
  revert l; induction a as [|a IH]; intros [|x l]; cbn; auto.
  - now rewrite firstn_nil.
  - now rewrite IH.
Qed.

Lemma window_step coll page :
  1 <= page -> page <= 10 ->
  window coll page = page_of coll page ++ window coll (page + 1).
Proof.
  intros H1 H10. unfold window, page_of.
  replace (11 - page) with (Datatypes.S (11 - (page + 1))) by lia.
  rewrite Nat.mul_succ_r, Nat.add_comm, firstn_plus. f_equal.
  rewrite skipn_skipn. do 2 f_equal.
  replace (page + 1 - 1) with (Datatypes.S (page - 1)) by lia.
  rewrite Nat.mul_succ_r. lia.
Qed.

Lemma window_first coll : window coll 1 = firstn 1000 coll.
Proof. unfold window. cbn [Nat.sub]. now rewrite Nat.mul_0_r. Qed.

Lemma window_end coll : window coll 11 = [].
Proof. unfold window. cbn [Nat.sub]. now rewrite Nat.mul_0_r. Qed.

Lemma window_after_short_page coll page :
  1 <= page -> List.length (page_of coll page) < BulkUpload.perPage ->
  window coll (page + 1) = [].
Proof.
  intros H1 Hlen. unfold window, page_of in *.
  replace (page + 1 - 1) with (Datatypes.S (page - 1)) by lia.
  rewrite Nat.mul_succ_r, (Nat.add_comm (_ * _) BulkUpload.perPage), <- skipn_skipn.
  rewrite length_firstn in Hlen.
  rewrite (skipn_all2 (n := BulkUpload.perPage)); [apply firstn_nil|lia].
Qed.

Lemma find_app {A} (f : A -> bool) l1 l2 :
  find f (l1 ++ l2) = match find f l1 with Some x => Some x | None => find f l2 end.
Proof. induction l1 as [|x l1 IH]; cbn; [reflexivity|]. now destruct (f x). Qed.

Lemma check_page_find title data :
  Forall titled data ->
  BulkUpload.check_page (normalizeTitle title) data
  = inr (option_map post_id (find (same_title title) data)).
Proof.
  induction 1 as [|p data Hp _ IH]; [reflexivity|]. cbn. unfold same_title.
  unfold titled in Hp.
  destruct (BulkUpload.postTitleRaw p) as [raw|]; [|contradiction].
  destruct (jsstring_eqb (normalizeTitle raw) (normalizeTitle title)); [reflexivity|exact IH].
Qed.

Section Scan.

Context {S : Type} (remote : Remote S).

Lemma scan_pages_emits fuel norm page :
  emits listing_only (BulkUpload.scan_pages remote fuel norm page).
Proof.
  revert page; induction fuel as [|fuel IH]; intros page; cbn [BulkUpload.scan_pages].
  - apply emits_unfinished.
  - apply emits_bind; [apply emits_call; reflexivity|intros data].
    destruct (Nat.eqb _ 0); [apply emits_ret|].
    destruct (BulkUpload.check_page norm data) as [e|[id|]];
      [apply emits_throw|apply emits_ret|].
    destruct (Nat.ltb _ _); [apply emits_ret|].
    destruct (Nat.ltb 10 _); [apply emits_ret|apply IH].
Qed.

Lemma scan_pages_finishes fuel norm page :
  page <= 10 -> 11 <= fuel + page ->
  finishes (BulkUpload.scan_pages remote fuel norm page).
Proof.
  revert page; induction fuel as [|fuel IH]; intros page H10 Hf; [lia|].
  cbn [BulkUpload.scan_pages].
  apply finishes_bind; [apply finishes_call|intros data].
  destruct (Nat.eqb _ 0); [apply finishes_ret|].
  destruct (BulkUpload.check_page norm data) as [e|[id|]];
    [apply finishes_throw|apply finishes_ret|].
  destruct (Nat.ltb _ _); [apply finishes_ret|].
  destruct (Nat.ltb_spec 10 (page + 1)); [apply finishes_ret|apply IH; lia].
Qed.

(** A larger budget does not change the scan. *)
Lemma scan_pages_budget norm : forall fuel1 fuel2 page w,
  page <= 10 -> 11 <= fuel1 + page -> 11 <= fuel2 + page ->
  BulkUpload.scan_pages remote fuel1 norm page w
  = BulkUpload.scan_pages remote fuel2 norm page w.
Proof.
  induction fuel1 as [|fuel1 IH]; intros [|fuel2] page w H10 H1 H2; try lia.
  cbn [BulkUpload.scan_pages]. unfold bind.
  destruct (call remote (GetPosts BulkUpload.perPage page) w) as [[data|e|] w1];
    try reflexivity.
  destruct (Nat.eqb _ 0); [reflexivity|].
  destruct (BulkUpload.check_page norm data) as [e|[id|]]; try reflexivity.
  destruct (Nat.ltb _ _); [reflexivity|].
  destruct (Nat.ltb_spec 10 (page + 1)); [reflexivity|]. apply IH; lia.
Qed.

(** The scan asks for consecutive pages, and never for a page after the
    tenth. *)
Lemma scan_pages_calls fuel norm : forall page w o w',
  page <= 10 ->
  BulkUpload.scan_pages remote fuel norm page w = (o, w') ->
  exists oks,
    List.length oks <= 11 - page /\
    calls w' = calls w ++ combine (map (GetPosts BulkUpload.perPage)
                                        (seq page (List.length oks))) oks.
Proof.
  induction fuel as [|fuel IH]; intros page w o w' H10; cbn [BulkUpload.scan_pages].
  - intros H. injection H as _ <-. exists []. cbn [List.length seq map combine].
    split; [lia|now rewrite app_nil_r].
  - unfold bind at 1, call.
    destruct (remote (GetPosts BulkUpload.perPage page) (site w)) as [[e|data] s1].
    + intros H. injection H as _ <-. exists [false]. cbn [List.length seq map combine].
      split; [lia|reflexivity].
    + assert (forall o0,
        (o0, {| site := s1; calls := calls w ++ [(GetPosts BulkUpload.perPage page, true)] |})
        = (o, w') ->
        exists oks, List.length oks <= 11 - page /\
          calls w' = calls w ++ combine (map (GetPosts BulkUpload.perPage)
                                              (seq page (List.length oks))) oks) as Hone.
      { intros o0 H. injection H as _ <-. exists [true]. cbn [List.length seq map combine].
        split; [lia|reflexivity]. }
      destruct (Nat.eqb _ 0); [apply Hone|].
      destruct (BulkUpload.check_page norm data) as [e|[id|]]; [apply Hone|apply Hone|].
      destruct (Nat.ltb _ _); [apply Hone|].
      destruct (Nat.ltb_spec 10 (page + 1)) as [Hc|Hc]; [apply Hone|].
      intros H. apply IH in H as (oks & Hlen & Hlog); [|lia].
      exists (true :: oks). cbn [List.length seq map combine]. split; [lia|].
      rewrite Hlog. cbn [calls]. rewrite <- app_assoc. cbn [app].
      now rewrite Nat.add_1_r.
Qed.

(** On a site that lists a collection of titled posts, the scan returns
    the first post of its window whose normalised title is the searched
    one. *)
Lemma scan_pages_lists fuel title coll : forall page w,
  lists remote (site w) coll ->
  1 <= page -> page <= 10 -> 11 <= fuel + page ->
  Forall titled (window coll page) ->
  exists w',
    BulkUpload.scan_pages remote fuel (normalizeTitle title) page w
    = (Returned (option_map post_id (find (same_title title) (window coll page))), w')
    /\ site w' = site w.
Proof.
  induction fuel as [|fuel IH]; intros page w Hl H1 H10 Hf Ht; [lia|].
  cbn [BulkUpload.scan_pages].
  rewrite (bind_returned _ _ _ _ _ (call_answered remote _ _ _ _ (Hl page))).
  rewrite window_step in Ht |- * by assumption.
  apply Forall_app in Ht as [Htp Htw]. rewrite find_app.
  destruct (Nat.eqb_spec (List.length (page_of coll page)) 0) as [E0|E0].
  { rewrite (window_after_short_page coll page) by (unfold BulkUpload.perPage; lia).
    apply length_zero_iff_nil in E0. rewrite E0. cbn [find option_map].
    eexists; split; reflexivity. }
  rewrite (check_page_find _ _ Htp).
  destruct (find (same_title title) (page_of coll page)) as [p|]; cbn [option_map].
  { eexists; split; [reflexivity|reflexivity]. }
  destruct (Nat.ltb_spec (List.length (page_of coll page)) BulkUpload.perPage) as [Hs|Hs].
  { rewrite (window_after_short_page coll page) by assumption.
    eexists; split; reflexivity. }
  destruct (Nat.ltb_spec 10 (page + 1)) as [Hc|Hc].
  { replace (page + 1) with 11 by lia. rewrite window_end.
    eexists; split; reflexivity. }
  destruct (IH (page + 1)
              {| site := site w;
                 calls := calls w ++ [(GetPosts BulkUpload.perPage page, true)] |})
    as (w' & E & Es); try assumption; try lia.
  exists w'. split; [exact E|exact Es].
Qed.

End Scan.

(** ** The reconciler *)

Lemma writes_app l1 l2 : writes (l1 ++ l2) = writes l1 ++ writes l2.
Proof. apply filter_app. Qed.

Lemma writes_none new :
  Forall (fun c => is_write c = false) new -> writes new = [].
Proof.
  induction 1 as [|c new Hc _ IH]; [reflexivity|]. cbn. now rewrite Hc.
Qed.

Lemma blank_trim s : nonempty (trim s) = true -> blank (trim s) = false.
Proof. intros H. unfold blank. now rewrite trim_idem, H. Qed.

Lemma absent_or_blank_false o :
  absent_or_blank o = false ->
  exists s, o = Some s /\ nonempty (trim s) = true.
Proof.
  destruct o as [s|]; [|discriminate]. cbn. unfold blank.
  destruct (nonempty s); [|discriminate].
  destruct (nonempty (trim s)) eqn:E; [|discriminate].
  intros _. now exists s.
Qed.

Section ReconcilerFacts.

Context {S : Type} (remote : Remote S) (platform : Platform).

Lemma emits_writes {A} (P : Request * bool -> Prop) (c : M S A) w o w' :
  (forall x, P x -> is_write x = false) ->
  emits P c -> c w = (o, w') -> writes (calls w') = writes (calls w).
Proof.
  intros HP Hc E. destruct (Hc _ _ _ E) as (new & -> & F).
  rewrite writes_app, (writes_none new), app_nil_r; [reflexivity|].
  revert F. apply Forall_impl. exact HP.
Qed.

Lemma listing_is_no_write x : listing_only x -> is_write x = false.
Proof.
  unfold listing_only, is_listing, is_write. destruct x as [[] ok]; cbn; congruence.
Qed.

Lemma buildPostData_inv row config w postData w1 :
  BulkUpload.buildPostData remote platform row config w = (Returned postData, w1) ->
  absent_or_blank (title row) = false /\
  absent_or_blank (content row) = false /\
  pd_title postData = trim (text_of (title row)) /\
  pd_slug postData = trimmed (slug row) /\
  writes (calls w1) = writes (calls w).
Proof.
  intros E. assert (writes (calls w1) = writes (calls w)) as Hw.
  { apply (emits_writes no_write _ _ _ _ (fun x H => H)
             (buildPostData_emits remote platform row config) E). }
  revert E. unfold BulkUpload.buildPostData.
  destruct (absent_or_blank (title row)); [discriminate|].
  destruct (absent_or_blank (content row)); [discriminate|].
  intros E.
  apply bind_inv in E as (categoryIds & wa & _ & E).
  apply bind_inv in E as (tagIds & wb & _ & E).
  apply bind_inv in E as (mediaId & wc & _ & E).
  injection E as <- _. cbn. auto.
Qed.

Lemma findPostByTitle_emits fuel title :
  emits listing_only (BulkUpload.findPostByTitle remote fuel title).
Proof.
  unfold BulkUpload.findPostByTitle. destruct (blank title); [apply emits_ret|].
  apply emits_try_catch; [apply scan_pages_emits|intros; apply emits_ret].
Qed.

(** C4. A row whose [title] or [content] is absent or blank fails with
    the missing-field error of that field, and the world is left as it
    was: the log of remote calls does not grow, so no search, taxonomy,
    media or write call is made for the row. *)
Theorem missing_field_fails fuel row rowNumber config w :
  absent_or_blank (title row) = true \/ absent_or_blank (content row) = true ->
  exists msg,
    BulkUpload.createOrUpdatePost remote platform fuel row rowNumber config w
    = (Returned (failed_result row rowNumber msg), w)
    /\ is_failed (failed_result row rowNumber msg) = true
    /\ (msg = str "Missing required field: title"
        \/ msg = str "Missing required field: content").
Proof.
  intros H. unfold BulkUpload.createOrUpdatePost, try_catch, bind at 1,
    BulkUpload.buildPostData.
  destruct (absent_or_blank (title row)) eqn:Et.
  - exists (str "Missing required field: title"). repeat split. now left.
  - destruct H as [H|H]; [discriminate|]. rewrite H.
    exists (str "Missing required field: content"). repeat split. now right.
Qed.

End ReconcilerFacts.

Section ScanFacts.

Context {S : Type} (remote : Remote S) (platform : Platform).

Lemma findPostByTitle_lists fuel title coll w :
  10 <= fuel -> blank title = false ->
  lists remote (site w) coll ->
  Forall titled (firstn 1000 coll) ->
  exists w',
    BulkUpload.findPostByTitle remote fuel title w
    = (Returned (option_map post_id (find (same_title title) (firstn 1000 coll))), w')
    /\ site w' = site w.
Proof.
  intros Hf Hb Hl Ht. unfold BulkUpload.findPostByTitle. rewrite Hb.
  rewrite <- window_first in *.
  destruct (scan_pages_lists remote fuel title coll 1 w) as (w' & E & Es);
    try assumption; try lia.
  exists w'. unfold try_catch. rewrite E. auto.
Qed.

Lemma findPostByTitle_total fuel title w :
  10 <= fuel ->
  exists found w' oks,
    BulkUpload.findPostByTitle remote fuel title w = (Returned found, w')
    /\ List.length oks <= 10
    /\ calls w' = calls w ++ combine (map (GetPosts BulkUpload.perPage)
                                          (seq 1 (List.length oks))) oks.
Proof.
  intros Hf. unfold BulkUpload.findPostByTitle.
  destruct (blank title).
  - exists None, w, []. cbn. rewrite app_nil_r. repeat split. lia.
  - unfold try_catch.
    pose proof (scan_pages_finishes remote fuel (normalizeTitle title) 1
                  ltac:(lia) ltac:(lia) w) as Hfin.
    destruct (BulkUpload.scan_pages remote fuel (normalizeTitle title) 1 w)
      as [[found|e|] w'] eqn:E; cbn in Hfin; [| |congruence];
      destruct (scan_pages_calls remote fuel (normalizeTitle title) 1 w _ _
                  ltac:(lia) E) as (oks & Hlen & Hc).
    + exists found, w', oks. split; [reflexivity|]. split; [lia|exact Hc].
    + exists None, w', oks. split; [reflexivity|]. split; [lia|exact Hc].
Qed.

(** C5. The duplicate scan terminates on every site: with a budget of
    ten iterations it returns, after asking for the pages 1, 2, ... in
    turn and for ten pages at most, and a larger budget changes
    nothing.  One iteration ends the scan when
    the page holds a match (the identifier is returned), when the page
    holds fewer than 100 posts, and when it is the tenth page; in the
    last two cases, and so at the ceiling, the scan reports that there
    is no duplicate.  On a site that lists a collection, a match beyond
    the first 1000 posts is therefore never reported. *)
Theorem scan_terminates fuel title w :
  10 <= fuel ->
  (exists found w' oks,
      BulkUpload.findPostByTitle remote fuel title w = (Returned found, w')
      /\ List.length oks <= 10
      /\ calls w' = calls w ++ combine (map (GetPosts BulkUpload.perPage)
                                            (seq 1 (List.length oks))) oks)
  /\ BulkUpload.findPostByTitle remote fuel title w
     = BulkUpload.findPostByTitle remote 10 title w
  /\ (forall budget norm page w0 data s',
         remote (GetPosts BulkUpload.perPage page) (site w0) = (inr data, s') ->
         let w1 := {| site := s';
                      calls := calls w0 ++ [(GetPosts BulkUpload.perPage page, true)] |} in
         (forall id, BulkUpload.check_page norm data = inr (Some id) ->
            BulkUpload.scan_pages remote (Datatypes.S budget) norm page w0
            = (Returned (Some id), w1))
         /\ (BulkUpload.check_page norm data = inr None ->
             List.length data < 100 ->
             BulkUpload.scan_pages remote (Datatypes.S budget) norm page w0
             = (Returned None, w1))
         /\ (BulkUpload.check_page norm data = inr None ->
             page = 10 ->
             BulkUpload.scan_pages remote (Datatypes.S budget) norm page w0
             = (Returned None, w1)))
  /\ (forall coll,
         blank title = false ->
         lists remote (site w) coll ->
         Forall titled (firstn 1000 coll) ->
         (forall p, In p (firstn 1000 coll) -> same_title title p = false) ->
         fst (BulkUpload.findPostByTitle remote fuel title w) = Returned None).
Proof.
  intros Hf. split; [now apply findPostByTitle_total|split; [|split]].
  - unfold BulkUpload.findPostByTitle, try_catch.
    destruct (blank title); [reflexivity|].
    now rewrite (scan_pages_budget remote (normalizeTitle title) fuel 10 1 w)
      by lia.
  - intros budget norm page w0 data s' E w1. cbn [BulkUpload.scan_pages].
    rewrite (bind_returned _ _ _ _ _ (call_answered remote _ _ _ _ E)). fold w1.
    repeat split.
    + intros id Hm. destruct data as [|p data]; [discriminate|].
      cbn [List.length Nat.eqb]. now rewrite Hm.
    + intros Hm Hlen. destruct (Nat.eqb _ 0); [reflexivity|]. rewrite Hm.
      destruct (Nat.ltb_spec (List.length data) BulkUpload.perPage) as [_|Hge];
        [reflexivity|]. unfold BulkUpload.perPage in Hge. lia.
    + intros Hm ->. destruct (Nat.eqb _ 0); [reflexivity|]. rewrite Hm.
      destruct (Nat.ltb _ _); reflexivity.
  - intros coll Hb Hl Ht Hno.
    destruct (findPostByTitle_lists fuel title coll w Hf Hb Hl Ht) as (w' & -> & _).
    cbn [fst]. destruct (find _ _) as [p|] eqn:E; [|reflexivity].
    apply find_some in E as [Hin Hp]. rewrite (Hno p Hin) in Hp. discriminate.
Qed.

End ScanFacts.

Section Reconciliation.

Context {S : Type} (remote : Remote S) (platform : Platform).

Lemma truthy_id_nonzero id : id <> 0%Z -> truthy_id (Some id) = true.
Proof. intros H. cbn. now apply Z.eqb_neq in H as ->. Qed.


(** Once the payload is built and the scan has reported nothing, the row
    is decided by its writing part. *)
Lemma createOrUpdatePost_after_scan fuel row rowNumber config w postData w1 found w2 :
  BulkUpload.buildPostData remote platform row config w = (Returned postData, w1) ->
  BulkUpload.findPostByTitle remote fuel (pd_title postData) w1 = (Returned found, w2) ->
  truthy_id found = false ->
  BulkUpload.createOrUpdatePost remote platform fuel row rowNumber config w
  = try_catch
      (BulkUpload.writePost remote postData (blank_result row rowNumber) config)
      (fun e => ret (failed_result row rowNumber (BulkUpload.error_text e))) w2.
Proof.
  intros Hb Hscan Hfound. unfold BulkUpload.createOrUpdatePost, try_catch.
  rewrite (bind_returned _ _ _ _ _ Hb), (bind_returned _ _ _ _ _ Hscan).
  destruct found as [id|]; [rewrite Hfound|]; reflexivity.
Qed.

Lemma findPostBySlug_answered slug w first others s' :
  blank slug = false ->
  remote (GetPostsBySlug (trim slug)) (site w) = (inr (first :: others), s') ->
  BulkUpload.findPostBySlug remote slug w
  = (Returned (Some (post_id first)),
     {| site := s'; calls := calls w ++ [(GetPostsBySlug (trim slug), true)] |}).
Proof.
  intros Hb E. unfold BulkUpload.findPostBySlug, try_catch. rewrite Hb.
  now rewrite (bind_returned _ _ _ _ _ (call_answered remote _ _ _ _ E)).
Qed.

(** C2, as amended. For a row whose payload was built and for which the
    duplicate scan reports nothing.  The slug lookup of the row always
    returns: the identifier of the first post of the answer when the
    row has a slug and the lookup is answered with posts, and nothing
    when the row has no slug, when the answer is empty, or when the
    lookup is rejected.  When it gives an identifier that is not zero,
    the one further call is the update of that post; otherwise it is a
    create.  When the site accepts the write the row is [updated], or
    [created]; when the site rejects it the row is failed, with the
    text of that error, and has no action. *)
Theorem slug_decides_update_or_create fuel row rowNumber config w postData w1 found w2 :
  BulkUpload.buildPostData remote platform row config w = (Returned postData, w1) ->
  BulkUpload.findPostByTitle remote fuel (pd_title postData) w1 = (Returned found, w2) ->
  truthy_id found = false ->
  exists existing w3,
    match pd_slug postData with
    | Some slug => BulkUpload.findPostBySlug remote slug
    | None => ret None
    end w2 = (Returned existing, w3)
    /\ pd_slug postData = trimmed (slug row)
    /\ (forall raw first others s3,
           slug row = Some raw -> nonempty (trim raw) = true ->
           remote (GetPostsBySlug (trim raw)) (site w2) = (inr (first :: others), s3) ->
           existing = Some (post_id first)
           /\ w3 = {| site := s3;
                      calls := calls w2 ++ [(GetPostsBySlug (trim raw), true)] |})
    /\ (forall raw s3,
           slug row = Some raw -> nonempty (trim raw) = true ->
           remote (GetPostsBySlug (trim raw)) (site w2) = (inr [], s3) ->
           existing = None
           /\ w3 = {| site := s3;
                      calls := calls w2 ++ [(GetPostsBySlug (trim raw), true)] |})
    /\ (forall raw e s3,
           slug row = Some raw -> nonempty (trim raw) = true ->
           remote (GetPostsBySlug (trim raw)) (site w2) = (inl e, s3) ->
           existing = None
           /\ w3 = {| site := s3;
                      calls := calls w2 ++ [(GetPostsBySlug (trim raw), false)] |})
    /\ (trimmed (slug row) = None -> existing = None /\ w3 = w2)
    /\ (forall id,
           existing = Some id -> id <> 0%Z ->
           (forall response s4,
               remote (PostUpdate id postData) (site w3) = (inr response, s4) ->
               BulkUpload.createOrUpdatePost remote platform fuel row rowNumber config w
               = (Returned {| rowNumber := rowNumber;
                              result_title := or_else (title row) (str "Untitled");
                              action := Some updated;
                              postId := Some (written_id response);
                              result_status := Some (written_status response);
                              error := None |},
                  {| site := s4;
                     calls := calls w3 ++ [(PostUpdate id postData, true)] |}))
           /\ (forall e s4,
                  remote (PostUpdate id postData) (site w3) = (inl e, s4) ->
                  BulkUpload.createOrUpdatePost remote platform fuel row rowNumber config w
                  = (Returned (failed_result row rowNumber (BulkUpload.error_text e)),
                     {| site := s4;
                        calls := calls w3 ++ [(PostUpdate id postData, false)] |})))
    /\ (truthy_id existing = false ->
        (forall response s4,
            remote (PostCreate postData) (site w3) = (inr response, s4) ->
            BulkUpload.createOrUpdatePost remote platform fuel row rowNumber config w
            = (Returned {| rowNumber := rowNumber;
                           result_title := or_else (title row) (str "Untitled");
                           action := Some created;
                           postId := Some (written_id response);
                           result_status := Some (written_status response);
                           error := None |},
               {| site := s4; calls := calls w3 ++ [(PostCreate postData, true)] |}))
        /\ (forall e s4,
               remote (PostCreate postData) (site w3) = (inl e, s4) ->
               BulkUpload.createOrUpdatePost remote platform fuel row rowNumber config w
               = (Returned (failed_result row rowNumber (BulkUpload.error_text e)),
                  {| site := s4; calls := calls w3 ++ [(PostCreate postData, false)] |}))).
Proof.
  intros Hb Hscan Hfound.
  rewrite (createOrUpdatePost_after_scan _ _ _ _ _ _ _ _ _ Hb Hscan Hfound).
  pose proof Hb as Hinv. apply buildPostData_inv in Hinv as (_ & _ & _ & Hs & _).
  assert (exists existing w3,
    match pd_slug postData with
    | Some slug => BulkUpload.findPostBySlug remote slug
    | None => ret None
    end w2 = (Returned existing, w3)) as (existing & w3 & El).
  { destruct (pd_slug postData) as [slug|].
    - apply findPostBySlug_returns.
    - now exists None, w2. }
  exists existing, w3. split; [exact El|]. split; [exact Hs|].
  assert (forall raw, slug row = Some raw -> nonempty (trim raw) = true ->
          BulkUpload.findPostBySlug remote (trim raw) w2 = (Returned existing, w3)
          /\ blank (trim raw) = false) as Hslug.
  { intros raw Hr Hne. rewrite Hs, Hr in El. cbn [trimmed] in El. rewrite Hne in El.
    split; [exact El|now apply blank_trim]. }
  split; [|split; [|split; [|split; [|split]]]].
  - intros raw first others s3 Hr Hne Hq. destruct (Hslug raw Hr Hne) as [E Hnb].
    pose proof (findPostBySlug_answered (trim raw) w2 first others s3) as Hl.
    rewrite trim_idem in Hl. specialize (Hl Hnb Hq). rewrite Hl in E.
    injection E as <- <-. now split.
  - intros raw s3 Hr Hne Hq. destruct (Hslug raw Hr Hne) as [E Hnb].
    unfold BulkUpload.findPostBySlug, try_catch in E. rewrite Hnb, trim_idem in E.
    rewrite (bind_returned _ _ _ _ _ (call_answered remote _ _ _ _ Hq)) in E.
    injection E as <- <-. now split.
  - intros raw e s3 Hr Hne Hq. destruct (Hslug raw Hr Hne) as [E Hnb].
    unfold BulkUpload.findPostBySlug, try_catch in E. rewrite Hnb, trim_idem in E.
    rewrite (bind_thrown _ _ _ _ _ (call_rejected remote _ _ _ _ Hq)) in E.
    injection E as <- <-. now split.
  - intros Hnone. rewrite Hs, Hnone in El. injection El as <- <-. now split.
  - intros id -> Hid. unfold try_catch, BulkUpload.writePost.
    rewrite (bind_returned _ _ _ _ _ El), bind_sleep, (truthy_id_nonzero _ Hid). split.
    + intros response s4 Hu.
      now rewrite (bind_returned _ _ _ _ _ (call_answered remote _ _ _ _ Hu)).
    + intros e s4 Hu.
      now rewrite (bind_thrown _ _ _ _ _ (call_rejected remote _ _ _ _ Hu)).
  - intros Hex. unfold try_catch, BulkUpload.writePost.
    rewrite (bind_returned _ _ _ _ _ El), bind_sleep, Hex. split.
    + intros response s4 Hc.
      now rewrite (bind_returned _ _ _ _ _ (call_answered remote _ _ _ _ Hc)).
    + intros e s4 Hc.
      now rewrite (bind_thrown _ _ _ _ _ (call_rejected remote _ _ _ _ Hc)).
Qed.

End Reconciliation.

(** ** The term resolver *)

Lemma trim_start_nil_spaces s : trim_start s = [] -> Forall (fun c => is_space c = true) s.
Proof.
  induction s as [|c r IH]; [constructor|]. cbn.
  destruct (is_space c) eqn:E; [|discriminate]. intros H. constructor; auto.
Qed.

Lemma trim_end_nil s : trim_end s = [] -> space_run s <> 0 \/ s = [].
Proof.
  destruct s as [|c r]; [now right|]. cbn.
  destruct (trim_end r); [|discriminate].
  destruct (is_space c); [left; discriminate|discriminate].
Qed.

Lemma trim_nil_spaces s : trim s = [] -> Forall (fun c => is_space c = true) s.
Proof.
  unfold trim. intros H. apply trim_start_nil_spaces.
  apply trim_end_nil in H as [H|H]; [|exact H].
  now rewrite space_run_trim_start in H.
Qed.

Lemma split_on_spaces s :
  Forall (fun c => is_space c = true) s -> split_on "," s = [s].
Proof.
  induction 1 as [|c r Hc _ IH]; [reflexivity|]. cbn [split_on]. rewrite IH.
  destruct (Ascii.eqb_spec c ","); [subst; discriminate|reflexivity].
Qed.

Lemma labels_blank termString : blank termString = true -> labels termString = [].
Proof.
  unfold blank, labels. intros H.
  assert (trim termString = []) as E.
  { destruct termString; [reflexivity|]. cbn [nonempty negb orb] in H.
    destruct (trim _); [reflexivity|discriminate]. }
  rewrite (split_on_spaces _ (trim_nil_spaces _ E)). cbn. now rewrite E.
Qed.

Lemma kept_length os : List.length (kept os) <= List.length os.
Proof.
  unfold kept. induction os as [|o os IH]; cbn [flat_map List.length]; [lia|].
  rewrite length_app.
  destruct o as [z|]; [destruct (Z.eqb z 0)|]; cbn [List.length]; lia.
Qed.

Section TermResolver.

Context {S : Type} (remote : Remote S).

Lemma resolved_in_turn_length names taxonomy delayMs w :
  List.length (fst (resolved_in_turn remote names taxonomy delayMs w))
  = List.length names.
Proof.
  revert w; induction names as [|name rest IH]; intros w; [reflexivity|].
  cbn [resolved_in_turn].
  destruct (BulkUpload.getOrCreateTerm remote name taxonomy delayMs w) as [o w1].
  specialize (IH w1).
  destruct (resolved_in_turn remote rest taxonomy delayMs w1) as [os w2].
  cbn in *. now rewrite IH.
Qed.

Lemma resolveTerms_loop_spec names taxonomy delayMs : forall termIds w,
  BulkUpload.resolveTerms_loop remote names taxonomy delayMs termIds w
  = (Returned (termIds ++ kept (fst (resolved_in_turn remote names taxonomy delayMs w))),
     snd (resolved_in_turn remote names taxonomy delayMs w)).
Proof.
  induction names as [|name rest IH]; intros termIds w.
  - cbn. now rewrite app_nil_r.
  - cbn [BulkUpload.resolveTerms_loop resolved_in_turn].
    destruct (getOrCreateTerm_returns remote name taxonomy delayMs w) as (id & w1 & E).
    rewrite (bind_returned _ _ _ _ _ E), bind_sleep, E, IH.
    destruct (resolved_in_turn remote rest taxonomy delayMs w1) as [os w2].
    cbn [fst snd kept flat_map]. f_equal. f_equal.
    destruct id as [z|]; [|reflexivity].
    destruct (Z.eqb z 0); [reflexivity|]. now rewrite <- app_assoc.
Qed.

(** C9, as amended. The term resolver returns, in the order of the
    labels, the identifiers that the labels of the raw string resolve
    to one after the other: one identifier for every occurrence of a
    non-empty trimmed label (a label that occurs twice is resolved
    twice), the labels that do not resolve being skipped.  A label is
    looked up once: a term of the answer whose name equals the label up
    to case is reused without a create call; when there is none, one
    term is created and its identifier is used; when the search or the
    creation is rejected the label does not resolve. *)
Theorem resolveTerms_keeps_label_order termString taxonomy delayMs w :
  (BulkUpload.resolveTerms remote termString taxonomy delayMs w
   = (Returned (kept (fst (resolved_in_turn remote (labels termString)
                                            taxonomy delayMs w))),
      snd (resolved_in_turn remote (labels termString) taxonomy delayMs w))
   /\ List.length (fst (resolved_in_turn remote (labels termString)
                                         taxonomy delayMs w))
      = List.length (labels termString)
   /\ List.length (kept (fst (resolved_in_turn remote (labels termString)
                                               taxonomy delayMs w)))
      <= List.length (labels termString))
  /\ (forall name w0 answer s1,
         blank name = false ->
         remote (GetTerms taxonomy (trim name)) (site w0) = (inr answer, s1) ->
         let w1 := {| site := s1;
                      calls := calls w0 ++ [(GetTerms taxonomy (trim name), true)] |} in
         (forall existing,
             find (same_name (trim name)) answer = Some existing ->
             BulkUpload.getOrCreateTerm remote name taxonomy delayMs w0
             = (Returned (Some (term_id existing)), w1))
         /\ (forall new s2,
                find (same_name (trim name)) answer = None ->
                remote (PostTerm taxonomy (trim name)) s1 = (inr new, s2) ->
                BulkUpload.getOrCreateTerm remote name taxonomy delayMs w0
                = (Returned (Some (term_id new)),
                   {| site := s2;
                      calls := calls w1 ++ [(PostTerm taxonomy (trim name), true)] |}))
         /\ (forall e s2,
                find (same_name (trim name)) answer = None ->
                remote (PostTerm taxonomy (trim name)) s1 = (inl e, s2) ->
                fst (BulkUpload.getOrCreateTerm remote name taxonomy delayMs w0)
                = Returned None))
  /\ (forall name w0 e s1,
         remote (GetTerms taxonomy (trim name)) (site w0) = (inl e, s1) ->
         fst (BulkUpload.getOrCreateTerm remote name taxonomy delayMs w0)
         = Returned None).
Proof.
  split; [split; [|split]|split].
  - unfold BulkUpload.resolveTerms. destruct (blank termString) eqn:Eb.
    + now rewrite (labels_blank _ Eb).
    + apply (resolveTerms_loop_spec (labels termString) taxonomy delayMs [] w).
  - apply resolved_in_turn_length.
  - rewrite <- (resolved_in_turn_length (labels termString) taxonomy delayMs w).
    apply kept_length.
  - intros name w0 answer s1 Hb Hs w1.
    assert (BulkUpload.getOrCreateTerm remote name taxonomy delayMs w0
            = try_catch
                (match find (same_name (trim name)) answer with
                 | Some existing => ret (Some (term_id existing))
                 | None =>
                     sleep delayMs ;;;
                     createResponse <- call remote (PostTerm taxonomy (trim name)) ;;
                     ret (Some (term_id createResponse))
                 end)
                (fun _ => ret None) w1) as E.
    { unfold BulkUpload.getOrCreateTerm, try_catch. rewrite Hb.
      now rewrite (bind_returned _ _ _ _ _ (call_answered remote _ _ _ _ Hs)). }
    rewrite E. subst w1. unfold try_catch. split; [|split].
    + intros existing Hf. now rewrite Hf.
    + intros new s2 Hf Hc. rewrite Hf, bind_sleep.
      now rewrite (bind_returned _ _ _ _ _
                     (call_answered remote _ {| site := s1; calls := _ |} _ _ Hc)).
    + intros e s2 Hf Hc. rewrite Hf, bind_sleep.
      now rewrite (bind_thrown _ _ _ _ _
                     (call_rejected remote _ {| site := s1; calls := _ |} _ _ Hc)).
  - intros name w0 e s1 Hs. unfold BulkUpload.getOrCreateTerm, try_catch.
    destruct (blank name); [reflexivity|].
    now rewrite (bind_thrown _ _ _ _ _ (call_rejected remote _ _ _ _ Hs)).
Qed.

End TermResolver.

(** ** Errors of the lookups *)

Lemma app_eq_self {A} (l new : list A) : l = l ++ new -> new = [].
Proof.
  intros H. apply (app_inv_head l). now rewrite app_nil_r.
Qed.

Section LookupErrors.

Context {S : Type} (remote : Remote S) (platform : Platform).

Lemma scan_pages_rejected fuel norm : forall page w o w' new,
  BulkUpload.scan_pages remote fuel norm page w = (o, w') ->
  calls w' = calls w ++ new -> Exists rejected new ->
  exists e, o = Thrown e.
Proof.
  induction fuel as [|fuel IH]; intros page w o w' new; cbn [BulkUpload.scan_pages].
  - intros H Hc Hr. injection H as _ <-. apply app_eq_self in Hc. subst new.
    inversion Hr.
  - unfold bind at 1, call.
    destruct (remote (GetPosts BulkUpload.perPage page) (site w)) as [[e|data] s1].
    + intros H _ _. injection H as <- _. now exists e.
    + set (w1 := {| site := s1;
                    calls := calls w ++ [(GetPosts BulkUpload.perPage page, true)] |}).
      assert (forall o0, (o0, w1) = (o, w') -> calls w' = calls w ++ new ->
                         Exists rejected new -> exists e, o = Thrown e) as Hone.
      { intros o0 H Hc Hr. injection H as _ <-. cbn in Hc.
        apply app_inv_head in Hc. subst new.
        inversion Hr as [? ? Hx|? ? Hx]; [discriminate|inversion Hx]. }
      destruct (Nat.eqb _ 0); [apply Hone|].
      destruct (BulkUpload.check_page norm data) as [e|[id|]].
      * intros H _ _. injection H as <- _. now exists e.
      * apply Hone.
      * destruct (Nat.ltb _ _); [apply Hone|].
        destruct (Nat.ltb 10 _); [apply Hone|].
        intros H Hc Hr.
        destruct (scan_pages_emits remote _ _ _ _ _ _ H) as (new1 & Hc1 & _).
        rewrite Hc1 in Hc. cbn [w1 calls] in Hc. rewrite <- app_assoc in Hc.
        apply app_inv_head in Hc. subst new. cbn in Hr.
        inversion Hr as [? ? Hx|? ? Hx]; [discriminate|].
        now apply (IH _ _ _ _ _ H Hc1).
Qed.

Lemma findPostByTitle_null_on_error fuel title w o w' :
  10 <= fuel ->
  BulkUpload.findPostByTitle remote fuel title w = (o, w') ->
  (exists found, o = Returned found)
  /\ (forall new, calls w' = calls w ++ new -> Exists rejected new ->
      o = Returned None).
Proof.
  intros Hf. unfold BulkUpload.findPostByTitle.
  destruct (blank title).
  { intros H. injection H as <- <-. split; [now exists None|reflexivity]. }
  unfold try_catch.
  pose proof (scan_pages_finishes remote fuel (normalizeTitle title) 1
                ltac:(lia) ltac:(lia) w) as Hfin.
  destruct (BulkUpload.scan_pages remote fuel (normalizeTitle title) 1 w)
    as [[found|e|] w1] eqn:E; cbn in Hfin; [| |congruence].
  - intros H. injection H as <- <-. split; [now exists found|].
    intros new Hc Hr. destruct (scan_pages_rejected _ _ _ _ _ _ _ E Hc Hr). discriminate.
  - intros H. injection H as <- <-. split; [now exists None|reflexivity].
Qed.

Lemma findPostBySlug_null_on_error slug w o w' :
  BulkUpload.findPostBySlug remote slug w = (o, w') ->
  (exists found, o = Returned found)
  /\ (forall new, calls w' = calls w ++ new -> Exists rejected new ->
      o = Returned None).
Proof.
  unfold BulkUpload.findPostBySlug.
  destruct (blank slug).
  { intros H. injection H as <- <-. split; [now exists None|reflexivity]. }
  unfold try_catch, bind, call.
  destruct (remote (GetPostsBySlug (trim slug)) (site w)) as [[e|data] s1].
  - intros H. injection H as <- <-. split; [now exists None|reflexivity].
  - destruct data as [|first others]; intros H; injection H as <- <-;
      (split; [eexists; reflexivity|]); intros new Hc Hr; cbn in Hc;
      apply app_inv_head in Hc; subst new;
      inversion Hr as [? ? Hx|? ? Hx]; try discriminate; inversion Hx.
Qed.

(** The writing part of a row makes exactly one write call, for the
    payload; the row succeeds when the site accepts it. *)
Lemma writePost_writes postData result config w :
  exists o w' request ok,
    BulkUpload.writePost remote postData result config w = (o, w')
    /\ writes (calls w') = writes (calls w) ++ [(request, ok)]
    /\ (request = PostCreate postData \/ exists id, request = PostUpdate id postData)
    /\ (pd_slug postData = None -> request = PostCreate postData)
    /\ (ok = true ->
        exists r, o = Returned r /\ error r = None /\ action r <> None)
    /\ (ok = false -> exists e, o = Thrown e).
Proof.
  unfold BulkUpload.writePost.
  assert (exists existing w1,
    match pd_slug postData with
    | Some slug => BulkUpload.findPostBySlug remote slug
    | None => ret None
    end w = (Returned existing, w1)
    /\ writes (calls w1) = writes (calls w)
    /\ (pd_slug postData = None -> existing = None)) as (existing & w1 & E & Hw & Hn).
  { destruct (pd_slug postData) as [slug|].
    - destruct (findPostBySlug_returns remote slug w) as (existing & w1 & E).
      exists existing, w1. repeat split; [exact E| |discriminate].
      apply (emits_writes no_write _ _ _ _ (fun x H => H)
               (findPostBySlug_emits remote slug) E).
    - exists None, w. repeat split. }
  rewrite (bind_returned _ _ _ _ _ E), bind_sleep. rewrite <- Hw.
  destruct (if truthy_id existing then existing else None) as [id|] eqn:Eid.
  - unfold bind, call.
    destruct (remote (PostUpdate id postData) (site w1)) as [[e|a] s2];
      eexists _, _, (PostUpdate id postData), _; (split; [reflexivity|]);
      cbn [calls]; rewrite writes_app; (split; [reflexivity|]);
      (split; [right; now exists id|]);
      (split; [intros Hs; rewrite (Hn Hs) in Eid; discriminate|]);
      split; intros Hok; try discriminate; eexists; repeat split; discriminate.
  - unfold bind, call.
    destruct (remote (PostCreate postData) (site w1)) as [[e|a] s2];
      eexists _, _, (PostCreate postData), _; (split; [reflexivity|]);
      cbn [calls]; rewrite writes_app; (split; [reflexivity|]);
      (split; [now left|]); (split; [reflexivity|]);
      split; intros Hok; try discriminate; eexists; repeat split; discriminate.
Qed.

(** C10. A listing call that throws inside the duplicate scan, or inside
    the slug lookup, does not propagate: the lookup returns, and it
    returns [null], the value it returns when nothing matches.  The
    reconciler cannot tell the two apart: after such a scan it goes on
    to the write, a create unless the slug lookup finds a post, so a
    post with the same title can be created. *)
Theorem lookup_error_reads_as_absent fuel :
  10 <= fuel ->
  (forall title w o w',
      BulkUpload.findPostByTitle remote fuel title w = (o, w') ->
      (exists found, o = Returned found)
      /\ (forall new, calls w' = calls w ++ new -> Exists rejected new ->
          o = Returned None))
  /\ (forall slug w o w',
         BulkUpload.findPostBySlug remote slug w = (o, w') ->
         (exists found, o = Returned found)
         /\ (forall new, calls w' = calls w ++ new -> Exists rejected new ->
             o = Returned None))
  /\ (forall row rowNumber config w postData w1 o w2 new,
         BulkUpload.buildPostData remote platform row config w = (Returned postData, w1) ->
         BulkUpload.findPostByTitle remote fuel (pd_title postData) w1 = (o, w2) ->
         calls w2 = calls w1 ++ new -> Exists rejected new ->
         exists result w3 request ok,
           BulkUpload.createOrUpdatePost remote platform fuel row rowNumber config w
           = (Returned result, w3)
           /\ writes (calls w3) = writes (calls w) ++ [(request, ok)]
           /\ (request = PostCreate postData
               \/ exists id, request = PostUpdate id postData)
           /\ (pd_slug postData = None -> request = PostCreate postData)
           /\ (ok = true -> error result = None /\ action result <> None)).
Proof.
  intros Hf. split; [|split].
  - intros title w o w'. now apply findPostByTitle_null_on_error.
  - intros slug w o w'. apply findPostBySlug_null_on_error.
  - intros row rowNumber config w postData w1 o w2 new Hb Hscan Hc Hr.
    destruct (findPostByTitle_null_on_error _ _ _ _ _ Hf Hscan) as [_ Hnull].
    rewrite (Hnull new Hc Hr) in Hscan.
    rewrite (createOrUpdatePost_after_scan remote platform _ _ _ _ _ _ _ _ _
               Hb Hscan eq_refl).
    destruct (writePost_writes postData (blank_result row rowNumber) config w2)
      as (o' & w3 & request & ok & E & Hw & Hreq & Hslug & Hok & Hko).
    assert (writes (calls w2) = writes (calls w)) as Hw2.
    { apply buildPostData_inv in Hb as (_ & _ & _ & _ & <-).
      apply (emits_writes listing_only _ _ _ _ listing_is_no_write
               (findPostByTitle_emits remote fuel (pd_title postData)) Hscan). }
    rewrite Hw2 in Hw. unfold try_catch. rewrite E.
    destruct ok.
    + destruct (Hok eq_refl) as (r & -> & He & Ha).
      exists r, w3, request, true. repeat split; auto.
    + destruct (Hko eq_refl) as (e & ->).
      eexists _, w3, request, false. repeat split; auto; discriminate.
Qed.

End LookupErrors.



Section DuplicateRule.

Context {S : Type} (remote : Remote S) (platform : Platform).


End DuplicateRule.

(** ** The batch *)

Lemma filter_split_length {A} (f : A -> bool) l :
  List.length (filter (fun x => negb (f x)) l) + List.length (filter f l)
  = List.length l.
Proof.
  induction l as [|x l IH]; [reflexivity|]. cbn. destruct (f x); cbn; lia.
Qed.

Section Batch.

Context {S : Type} (remote : Remote S) (platform : Platform).

Lemma finishes_try_catch {A} (c : M S A) h :
  finishes c -> (forall e, finishes (h e)) -> finishes (try_catch c h).
Proof.
  intros Hc Hh w. unfold try_catch. specialize (Hc w).
  destruct (c w) as [[a|e|] w1]; cbn in *; try discriminate; [apply Hh|tauto].
Qed.

Lemma uploadMedia_finishes filePathOrUrl delayMs :
  finishes (BulkUpload.uploadMedia remote platform filePathOrUrl delayMs).
Proof.
  unfold BulkUpload.uploadMedia. destruct (blank filePathOrUrl); [apply finishes_ret|].
  apply finishes_bind.
  - destruct (_ || _).
    + unfold BulkUpload.downloadImageFromUrl.
      apply finishes_try_catch; [|intros; apply finishes_ret]. repeat finishes_step.
    + repeat finishes_step.
  - intros [file|]; [|apply finishes_ret].
    apply finishes_try_catch; [|intros; apply finishes_ret]. repeat finishes_step.
Qed.

Lemma buildPostData_finishes row config :
  finishes (BulkUpload.buildPostData remote platform row config).
Proof.
  unfold BulkUpload.buildPostData.
  destruct (absent_or_blank (title row)); [apply finishes_throw|].
  destruct (absent_or_blank (content row)); [apply finishes_throw|].
  apply finishes_bind.
  { destruct (categories row) as [raw|]; [|apply finishes_ret].
    destruct (nonempty (trim raw)); [|apply finishes_ret].
    apply returns_finishes, resolveTerms_returns. }
  intros categoryIds. apply finishes_bind.
  { destruct (tags row) as [raw|]; [|apply finishes_ret].
    destruct (nonempty (trim raw)); [|apply finishes_ret].
    apply returns_finishes, resolveTerms_returns. }
  intros tagIds. apply finishes_bind.
  { destruct (match trimmed (featured_image_path row) with
              | Some p => Some p | None => trimmed (featured_image_url row) end);
      [apply uploadMedia_finishes|apply finishes_ret]. }
  intros mediaId. apply finishes_ret.
Qed.

Lemma findPostByTitle_finishes fuel title :
  10 <= fuel -> finishes (BulkUpload.findPostByTitle remote fuel title).
Proof.
  intros Hf w. destruct (findPostByTitle_total remote fuel title w Hf)
    as (found & w' & oks & -> & _). discriminate.
Qed.

Lemma writePost_finishes postData result config :
  finishes (BulkUpload.writePost remote postData result config).
Proof.
  unfold BulkUpload.writePost. apply finishes_bind.
  - destruct (pd_slug postData); [|apply finishes_ret].
    apply returns_finishes, findPostBySlug_returns.
  - intros existing. repeat finishes_step.
Qed.

Lemma writePost_result postData result config w r w' :
  BulkUpload.writePost remote postData result config w = (Returned r, w') ->
  rowNumber r = rowNumber result /\ result_title r = result_title result.
Proof.
  unfold BulkUpload.writePost. intros E.
  apply bind_inv in E as (existing & w1 & _ & E). rewrite bind_sleep in E.
  destruct (if truthy_id existing then existing else None);
    apply bind_inv in E as (a & w2 & _ & E); injection E as <- _; auto.
Qed.

Lemma createOrUpdatePost_returns fuel row rowNumber0 config w :
  10 <= fuel ->
  exists result w',
    BulkUpload.createOrUpdatePost remote platform fuel row rowNumber0 config w
    = (Returned result, w')
    /\ rowNumber result = rowNumber0
    /\ result_title result = or_else (title row) (str "Untitled").
Proof.
  intros Hf. unfold BulkUpload.createOrUpdatePost, try_catch.
  match goal with |- context [match ?body w with _ => _ end] =>
    assert (finishes body) as Hfin; [|specialize (Hfin w);
      destruct (body w) as [[r|e|] w'] eqn:E; cbn in Hfin; [| |congruence]] end.
  - apply finishes_bind; [apply buildPostData_finishes|intros postData].
    apply finishes_bind; [now apply findPostByTitle_finishes|intros found].
    apply finishes_bind; [|intros _; apply writePost_finishes].
    repeat finishes_step.
  - exists r, w'. split; [reflexivity|].
    apply bind_inv in E as (postData & w1 & _ & E).
    apply bind_inv in E as (found & w2 & _ & E).
    apply bind_inv in E as (u & w3 & _ & E).
    apply writePost_result in E. exact E.
  - eexists _, w'. repeat split.
Qed.

Lemma process_rows_spec fuel config : forall rows i logResults w,
  10 <= fuel ->
  exists new w',
    BulkUpload.process_rows remote platform fuel config rows i logResults w
    = (Returned (logResults ++ new), w')
    /\ map rowNumber new = seq (i + 1) (List.length rows)
    /\ Forall2 (fun row r =>
                  result_title r = or_else (title row) (str "Untitled"))
               rows new.
Proof.
  induction rows as [|row rest IH]; intros i logResults w Hf.
  - exists [], w. cbn. rewrite app_nil_r. repeat split. constructor.
  - cbn [BulkUpload.process_rows].
    destruct (createOrUpdatePost_returns fuel row (i + 1) config w Hf)
      as (r & w1 & E & Hn & Ht).
    rewrite (bind_returned _ _ _ _ _ E).
    destruct (IH (i + 1) (logResults ++ [r]) w1 Hf) as (new & w' & E' & Hnum & Htitles).
    exists (r :: new), w'. rewrite E', <- app_assoc. repeat split.
    + cbn [map List.length seq]. rewrite Hn, Hnum. do 2 f_equal. lia.
    + now constructor.
Qed.

(** C3, as amended. Once the connectivity probe is answered and the CSV
    file yields a list of rows that is not empty, the batch returns a
    summary with exactly one result per row, in the order of the rows:
    the i-th result carries the row number i (from 1) and the title of
    the i-th row, whether the row failed or not, and the numbers of
    successes and of failures add up to the number of rows. *)
Theorem batch_one_result_per_row fuel csvPath config rows w probe s1 :
  10 <= fuel ->
  remote GetProbe (site w) = (inr probe, s1) ->
  loadCsv platform csvPath = inr rows ->
  rows <> [] ->
  exists summary w',
    BulkUpload.processCsvFile remote platform fuel csvPath config w
    = (Returned summary, w')
    /\ List.length (results summary) = List.length rows
    /\ map rowNumber (results summary) = seq 1 (List.length rows)
    /\ Forall2 (fun row r =>
                  result_title r = or_else (title row) (str "Untitled"))
               rows (results summary)
    /\ success summary + failed summary = List.length rows
    /\ total summary = List.length rows.
Proof.
  intros Hf Hprobe Hcsv Hne. unfold BulkUpload.processCsvFile.
  assert (BulkUpload.checkConnectivity remote w
          = (Returned true, {| site := s1; calls := calls w ++ [(GetProbe, true)] |})) as Ec.
  { unfold BulkUpload.checkConnectivity, try_catch.
    now rewrite (bind_returned _ _ _ _ _ (call_answered remote _ _ _ _ Hprobe)). }
  rewrite (bind_returned _ _ _ _ _ Ec). cbn [negb]. rewrite Hcsv.
  destruct rows as [|row rest]; [contradiction|]. cbn [List.length Nat.eqb].
  destruct (process_rows_spec fuel config (row :: rest) 0 []
              {| site := s1; calls := calls w ++ [(GetProbe, true)] |} Hf)
    as (new & w' & E & Hnum & Htitles).
  rewrite (bind_returned _ _ _ _ _ E). cbn [app].
  eexists _, w'. split; [reflexivity|]. cbn [results success failed total].
  assert (List.length new = List.length (row :: rest)) as Hlen.
  { rewrite <- (length_map rowNumber), Hnum. apply length_seq. }
  repeat split; try assumption.
  change (Datatypes.S (List.length rest)) with (List.length (row :: rest)).
  rewrite <- Hlen. apply filter_split_length.
Qed.

End Batch.

(** ** The properties on sample sites *)

Lemma reference_site_lists s :
  (forall page, site_rejects s (GetPosts BulkUpload.perPage page) = false) ->
  lists reference_site s (site_posts s).
Proof. intros H page. unfold reference_site. now rewrite H. Qed.


Lemma missing_field_fails_witness :
  (absent_or_blank (title untitled_row) = true
   \/ absent_or_blank (content untitled_row) = true)
  /\ exists msg,
       BulkUpload.createOrUpdatePost reference_site reference_platform 10
         untitled_row 1 sample_config (fresh sample_site)
       = (Returned (failed_result untitled_row 1 msg), fresh sample_site)
       /\ is_failed (failed_result untitled_row 1 msg) = true
       /\ (msg = str "Missing required field: title"
           \/ msg = str "Missing required field: content").
Proof.
  split; [left; reflexivity|].
  apply (missing_field_fails reference_site reference_platform 10 untitled_row 1
           sample_config (fresh sample_site)).
  left; reflexivity.
Defined.

Lemma scan_terminates_witness :
  10 <= 10
  /\ exists found w' oks,
       BulkUpload.findPostByTitle reference_site 10 (str "hello world")
         (fresh crowded_site) = (Returned found, w')
       /\ List.length oks <= 10
       /\ calls w' = calls (fresh crowded_site)
                     ++ combine (map (GetPosts BulkUpload.perPage)
                                     (seq 1 (List.length oks))) oks.
Proof.
  split; [lia|].
  apply (scan_terminates reference_site 10 (str "hello world") (fresh crowded_site)).
  lia.
Defined.



Lemma slug_decides_update_or_create_witness :
  BulkUpload.buildPostData reference_site reference_platform
    (with_slug "other" (sample_row "Brand new" "body")) sample_config (fresh sample_site)
  = (Returned (with_payload_slug "other" (sample_payload "Brand new" "body")),
     fresh sample_site)
  /\ BulkUpload.findPostByTitle reference_site 10 (str "Brand new") (fresh sample_site)
     = (Returned None,
        {| site := sample_site; calls := [(GetPosts BulkUpload.perPage 1, true)] |})
  /\ truthy_id None = false
  /\ exists w',
       BulkUpload.createOrUpdatePost reference_site reference_platform 10
         (with_slug "other" (sample_row "Brand new" "body")) 1 sample_config
         (fresh sample_site)
       = (Returned {| rowNumber := 1; result_title := str "Brand new";
                      action := Some updated; postId := Some 5%Z;
                      result_status := Some (str "draft"); error := None |}, w').
Proof.
  assert (BulkUpload.buildPostData reference_site reference_platform
            (with_slug "other" (sample_row "Brand new" "body")) sample_config
            (fresh sample_site)
          = (Returned (with_payload_slug "other" (sample_payload "Brand new" "body")),
             fresh sample_site)) as Hb by (vm_compute; reflexivity).
  assert (BulkUpload.findPostByTitle reference_site 10 (str "Brand new")
            (fresh sample_site)
          = (Returned None,
             {| site := sample_site;
                calls := [(GetPosts BulkUpload.perPage 1, true)] |})) as Hscan
    by (vm_compute; reflexivity).
  repeat (split; [first [assumption | reflexivity]|]).
  destruct (slug_decides_update_or_create reference_site reference_platform 10
              (with_slug "other" (sample_row "Brand new" "body")) 1 sample_config
              (fresh sample_site) _ _ None _ Hb Hscan eq_refl)
    as (existing & w3 & _ & _ & Hfirst & _ & _ & _ & Hupdate & _).
  destruct (Hfirst (str "other") (sample_post 5 "Other" "publish" "other") []
              sample_site eq_refl eq_refl eq_refl) as [-> ->].
  assert (5 <> 0)%Z as H5 by discriminate.
  eexists.
  refine (proj1 (Hupdate 5%Z eq_refl H5)
            {| written_id := 5; written_status := str "draft" |} _ _).
  vm_compute. reflexivity.
Defined.

(** C2 as stated fails when the site rejects the write: the row passes
    the duplicate scan, its slug is the slug of post 5, the update of
    post 5 is issued and rejected, and the row is failed, not updated. *)
Lemma rejected_update_is_not_updated :
  (exists p, In p (site_posts sample_site) /\ post_slug p = str "other")
  /\ fst (BulkUpload.findPostByTitle reference_site 10 (str "Brand new")
            (fresh (rejecting is_update sample_site))) = Returned None
  /\ fst (BulkUpload.createOrUpdatePost reference_site reference_platform 10
            (with_slug "other" (sample_row "Brand new" "body")) 1 sample_config
            (fresh (rejecting is_update sample_site)))
     = Returned (failed_result (with_slug "other" (sample_row "Brand new" "body")) 1
                   (str "Request failed with status code 500: {}"))
  /\ writes (calls (snd (BulkUpload.createOrUpdatePost reference_site
                           reference_platform 10
                           (with_slug "other" (sample_row "Brand new" "body"))
                           1 sample_config (fresh (rejecting is_update sample_site)))))
     = [(PostUpdate 5 (with_payload_slug "other" (sample_payload "Brand new" "body")),
         false)].
Proof.
  split; [|split; [|split]].
  - exists (sample_post 5 "Other" "publish" "other"). split; [right; left|]; reflexivity.
  - vm_compute. reflexivity.
  - vm_compute. reflexivity.
  - vm_compute. reflexivity.
Qed.

Lemma batch_one_result_per_row_witness :
  10 <= 10
  /\ reference_site GetProbe (site (fresh sample_site))
     = (inr (firstn 1 (site_posts sample_site)), sample_site)
  /\ loadCsv (csv_platform sample_rows) (str "posts.csv") = inr sample_rows
  /\ sample_rows <> []
  /\ exists summary w',
       BulkUpload.processCsvFile reference_site (csv_platform sample_rows) 10
         (str "posts.csv") sample_config (fresh sample_site)
       = (Returned summary, w')
       /\ List.length (results summary) = List.length sample_rows
       /\ map rowNumber (results summary) = seq 1 (List.length sample_rows)
       /\ Forall2 (fun row r =>
                     result_title r = or_else (title row) (str "Untitled"))
                  sample_rows (results summary)
       /\ success summary + failed summary = List.length sample_rows
       /\ total summary = List.length sample_rows.
Proof.
  assert (sample_rows <> []) as Hne by discriminate.
  repeat (split; [first [lia | reflexivity | assumption]|]).
  exact (batch_one_result_per_row reference_site (csv_platform sample_rows) 10
           (str "posts.csv") sample_config sample_rows (fresh sample_site)
           (firstn 1 (site_posts sample_site)) sample_site
           (le_n 10) eq_refl eq_refl Hne).
Defined.

(** C3 as stated fails on the empty list: the batch throws after the
    connectivity probe and returns no summary. *)
Lemma empty_csv_yields_no_summary :
  BulkUpload.processCsvFile reference_site (csv_platform []) 10 (str "posts.csv")
    sample_config (fresh sample_site)
  = (Thrown (plain_error (str "CSV file is empty")),
     {| site := sample_site; calls := [(GetProbe, true)] |})
  /\ ~ (exists summary w',
          BulkUpload.processCsvFile reference_site (csv_platform []) 10
            (str "posts.csv") sample_config (fresh sample_site)
          = (Returned summary, w')
          /\ List.length (results summary) = 0).
Proof.
  assert (BulkUpload.processCsvFile reference_site (csv_platform []) 10
            (str "posts.csv") sample_config (fresh sample_site)
          = (Thrown (plain_error (str "CSV file is empty")),
             {| site := sample_site; calls := [(GetProbe, true)] |})) as E
    by (vm_compute; reflexivity).
  split; [exact E|]. intros (summary & w' & H & _). rewrite E in H. discriminate.
Qed.

Lemma resolveTerms_keeps_label_order_witness :
  BulkUpload.resolveTerms reference_site (str "news, Fresh ,,news") tax_categories 300
    (fresh sample_site)
  = (Returned (kept (fst (resolved_in_turn reference_site
                            (labels (str "news, Fresh ,,news"))
                            tax_categories 300 (fresh sample_site)))),
     snd (resolved_in_turn reference_site (labels (str "news, Fresh ,,news"))
            tax_categories 300 (fresh sample_site)))
  /\ kept (fst (resolved_in_turn reference_site (labels (str "news, Fresh ,,news"))
                  tax_categories 300 (fresh sample_site)))
     = [3%Z; 10%Z; 3%Z].
Proof.
  split.
  - exact (proj1 (proj1 (resolveTerms_keeps_label_order reference_site
                           (str "news, Fresh ,,news") tax_categories 300
                           (fresh sample_site)))).
  - vm_compute. reflexivity.
Defined.

(** C9 as stated fails on a label that occurs twice: [news,news] has one
    distinct label and resolves to two identifiers. *)
Lemma repeated_label_resolves_twice :
  nodup (list_eq_dec ascii_dec) (labels (str "news,news")) = [str "news"]
  /\ fst (BulkUpload.resolveTerms reference_site (str "news,news") tax_categories 300
            (fresh sample_site))
     = Returned [3%Z; 3%Z].
Proof. split; vm_compute; reflexivity. Qed.

Lemma lookup_error_reads_as_absent_witness :
  10 <= 10
  /\ (exists p, In p (site_posts sample_site)
                /\ same_title (str "hello world") p = true)
  /\ exists result w3 request ok,
       BulkUpload.createOrUpdatePost reference_site reference_platform 10
         (sample_row "hello world" "body") 1 sample_config
         (fresh (rejecting is_scan sample_site))
       = (Returned result, w3)
       /\ writes (calls w3)
          = writes (calls (fresh (rejecting is_scan sample_site))) ++ [(request, ok)]
       /\ (request = PostCreate (sample_payload "hello world" "body")
           \/ exists id, request = PostUpdate id (sample_payload "hello world" "body"))
       /\ (pd_slug (sample_payload "hello world" "body") = None ->
           request = PostCreate (sample_payload "hello world" "body"))
       /\ (ok = true -> error result = None /\ action result <> None).
Proof.
  split; [lia|split].
  - exists (sample_post 7 "Hello <b>World</b>" "draft" "hello").
    split; [left; reflexivity|vm_compute; reflexivity].
  - refine (proj2 (proj2 (lookup_error_reads_as_absent reference_site
                            reference_platform 10 (le_n 10)))
              (sample_row "hello world" "body") 1 sample_config
              (fresh (rejecting is_scan sample_site))
              (sample_payload "hello world" "body")
              (fresh (rejecting is_scan sample_site))
              (Returned None)
              {| site := rejecting is_scan sample_site;
                 calls := [(GetPosts BulkUpload.perPage 1, false)] |}
              [(GetPosts BulkUpload.perPage 1, false)] _ _ eq_refl _).
    + vm_compute. reflexivity.
    + vm_compute. reflexivity.
    + left. reflexivity.
Defined.

(** ** The media step of the row pipeline *)

Section MediaStep.

Context {S : Type} (remote : Remote S) (platform : Platform).

(** An address that starts with [http://] or [https://] is fetched as
    it is given. *)
Lemma uploadMedia_fetches_address url delayMs w :
  blank url = false ->
  startsWith (trim url) (str "http://") || startsWith (trim url) (str "https://") = true ->
  exists ok new,
    calls (snd (BulkUpload.uploadMedia remote platform url delayMs w))
    = calls w ++ (Fetch (trim url), ok) :: new.
Proof.
  intros Hb Hu. unfold BulkUpload.uploadMedia. rewrite Hb, Hu.
  unfold BulkUpload.downloadImageFromUrl, try_catch, bind at 1 2, call.
  destruct (remote (Fetch (trim url)) (site w)) as [[e|response] s1].
  - exists false, []. reflexivity.
  - destruct (url_basename platform (trim url)) as [base|].
    + cbn [ret]. unfold try_catch, bind, call, sleep, ret. cbn [site calls].
      match goal with |- context [remote ?r s1] =>
        destruct (remote r s1) as [[e|a] s2] end;
        cbn [snd calls]; rewrite <- app_assoc; eexists true, _; reflexivity.
    + exists true, []. reflexivity.
Qed.

(** Whatever the content type of the answer, its bytes are uploaded. *)
Lemma uploadMedia_uploads_answer url delayMs w response s1 base :
  blank url = false ->
  startsWith (trim url) (str "http://") || startsWith (trim url) (str "https://") = true ->
  remote (Fetch (trim url)) (site w) = (inr response, s1) ->
  url_basename platform (trim url) = Some base ->
  exists ok,
    calls (snd (BulkUpload.uploadMedia remote platform url delayMs w))
    = calls w
      ++ [(Fetch (trim url), true);
          (PostMedia (fetched_data response)
                     (or_else (content_type response)
                        (or_else (mime_lookup platform (trim url)) (str "image/jpeg")))
                     (or_else (Some base) (str "image.jpg")), ok)].
Proof.
  intros Hb Hu Hf Hbase. unfold BulkUpload.uploadMedia. rewrite Hb, Hu.
  unfold BulkUpload.downloadImageFromUrl, try_catch, bind at 1 2, call.
  rewrite Hf, Hbase. cbn [ret].
  unfold try_catch, bind, call, sleep, ret. cbn [site calls].
  match goal with |- context [remote ?r s1] =>
    destruct (remote r s1) as [[e|a] s2] end;
    cbn [snd calls]; rewrite <- app_assoc; eexists; reflexivity.
Qed.

End MediaStep.

(** C7. The media step of the row pipeline has no test of the content
    type: when the fetch of the image answers with a [text/html] page,
    [uploadMedia] uploads the page (a media call with that content type)
    and returns the identifier of the upload, and the row is created
    with it as featured media; [downloadImageFromUrl] of
    [reproduce_issue.js] returns no asset on the same answer. *)
Theorem html_response_is_uploaded :
  BulkUpload.uploadMedia reference_site reference_platform share_url 300
    (fresh (serving login_page sample_site))
  = (Returned (Some 10%Z),
     {| site := with_posts (site_posts sample_site) 11 (serving login_page sample_site);
        calls := [(Fetch share_url, true);
                  (PostMedia (fetched_data login_page) (str "text/html")
                             (str "image.png"), true)] |})
  /\ map fst (calls (snd (BulkUpload.createOrUpdatePost reference_site
                             reference_platform 10
                             (with_image_url share_url (sample_row "Brand new" "body"))
                             1 sample_config (fresh (serving login_page sample_site)))))
     = [Fetch share_url;
        PostMedia (fetched_data login_page) (str "text/html") (str "image.png");
        GetPosts BulkUpload.perPage 1;
        PostCreate (with_payload_media 10 (sample_payload "Brand new" "body"))]
  /\ fst (ReproduceIssue.downloadImageFromUrl reference_site reference_platform
            share_url (fresh (serving login_page sample_site)))
     = Returned None.
Proof. split; [|split]; vm_compute; reflexivity. Qed.

(** C8. The media step of the row pipeline fetches the address it is
    given: a drive share link is fetched as it stands, and no request
    is made to the direct-download address that [convertGoogleDriveUrl]
    of [reproduce_issue.js] computes from it. *)
Theorem share_link_is_fetched_unchanged :
  map fst (calls (snd (BulkUpload.uploadMedia reference_site reference_platform
                         share_url 300 (fresh sample_site))))
  = [Fetch share_url]
  /\ ReproduceIssue.convertGoogleDriveUrl share_url = direct_url
  /\ direct_url <> share_url
  /\ ReproduceIssue.convertGoogleDriveUrl (str "https://example.com/a.png")
     = str "https://example.com/a.png".
Proof.
  split; [|split; [|split]]; try (vm_compute; reflexivity). discriminate.
Qed.

(** * Further properties *)

(** ** The command line *)

Lemma startsWith_trans s p q :
  startsWith s p = true -> startsWith p q = true -> startsWith s q = true.
Proof.
  revert s p; induction q as [|z q IH]; intros s p Hsp Hpq.
  - now destruct s.
  - destruct p as [|y p]; [discriminate|]. destruct s as [|x s]; [discriminate|].
    cbn [startsWith] in *.
    apply andb_true_iff in Hsp as [Hyx Hsp]. apply andb_true_iff in Hpq as [Hzy Hpq].
    apply Ascii.eqb_eq in Hyx, Hzy. subst. rewrite Ascii.eqb_refl. cbn [andb].
    now apply (IH s p).
Qed.

Lemma shorter_list_ind {A} (P : list A -> Prop) :
  (forall l, (forall l', List.length l' < List.length l -> P l') -> P l) ->
  forall l, P l.
Proof.
  intros H l. remember (List.length l) as len eqn:E. revert l E.
  induction len as [len IH] using lt_wf_ind. intros l ->.
  apply H. intros l' Hl. now apply (IH (List.length l')).
Qed.

Lemma parse_args_keeps_path args : forall clientKey csvPath,
  truthy_str csvPath = true ->
  snd (Cli.parse_args args clientKey csvPath) = csvPath.
Proof.
  induction args as [args IH] using shorter_list_ind.
  intros clientKey csvPath Ht. destruct args as [|arg rest]; [reflexivity|].
  cbn [Cli.parse_args]. rewrite Ht. cbn [negb andb].
  destruct (startsWith arg (str "--client=")); [apply IH; [cbn; lia|exact Ht]|].
  destruct (jsstring_eqb arg (str "--client")); [|apply IH; [cbn; lia|exact Ht]].
  destruct rest as [|next rest']; apply IH; cbn; auto; lia.
Qed.

Lemma parse_args_path args : forall clientKey csvPath path,
  snd (Cli.parse_args args clientKey csvPath) = Some path ->
  nonempty path = true ->
  csvPath = Some path \/ (In path args /\ startsWith path (str "--") = false).
Proof.
  induction args as [args IH] using shorter_list_ind.
  intros clientKey csvPath path. destruct args as [|arg rest]; [now left|].
  cbn [Cli.parse_args]. intros H Hne.
  assert (forall ck, snd (Cli.parse_args rest ck csvPath) = Some path ->
            csvPath = Some path
            \/ (In path (arg :: rest) /\ startsWith path (str "--") = false)) as Hrest.
  { intros ck E. destruct (IH rest ltac:(cbn; lia) ck csvPath path E Hne) as [?|[? ?]];
      [now left|right; split; [now right|assumption]]. }
  assert (snd (if negb (truthy_str csvPath) && negb (startsWith arg (str "--"))
               then Cli.parse_args rest clientKey (Some arg)
               else Cli.parse_args rest clientKey csvPath) = Some path ->
          csvPath = Some path
          \/ (In path (arg :: rest) /\ startsWith path (str "--") = false)) as Hother.
  { destruct (truthy_str csvPath) eqn:Ht; cbn [negb andb]; [apply Hrest|].
    destruct (startsWith arg (str "--")) eqn:Hd; cbn [negb]; [apply Hrest|].
    intros E. destruct (nonempty arg) eqn:Ha.
    - rewrite parse_args_keeps_path in E by exact Ha. injection E as <-.
      right. split; [now left|exact Hd].
    - destruct (IH rest ltac:(cbn; lia) clientKey (Some arg) path E Hne) as [E'|[? ?]].
      + injection E' as ->. congruence.
      + right; split; [now right|assumption]. }
  destruct (startsWith arg (str "--client=")); [now apply (Hrest _ H)|].
  destruct (jsstring_eqb arg (str "--client")); [|now apply Hother].
  destruct rest as [|next rest']; [now apply Hother|].
  destruct (IH rest' ltac:(cbn; lia) _ csvPath path H Hne) as [?|[? ?]];
    [now left|right; split; [right; now right|assumption]].
Qed.

(** X1. The CSV path that the argument loop of [main] finds, when it is
    not empty, is one of the arguments after the script name and does
    not start with [--].  When the loop finds none, the argument of
    index 2 is absent, empty or an option: the branch of [main] that
    takes [process.argv[2]] as the path is never taken, and the path is
    the one the prompt resolves to. *)
Theorem csv_argument sys :
  (forall path,
      snd (Cli.parse_args (skipn 2 (Cli.argv sys)) None None) = Some path ->
      nonempty path = true ->
      In path (skipn 2 (Cli.argv sys)) /\ startsWith path (str "--") = false)
  /\ (truthy_str (snd (Cli.parse_args (skipn 2 (Cli.argv sys)) None None)) = false ->
      truthy_str (nth_error (Cli.argv sys) 2)
      && negb (startsWith (text_of (nth_error (Cli.argv sys) 2)) (str "--")) = false
      /\ Cli.resolveCsvPath sys (snd (Cli.parse_args (skipn 2 (Cli.argv sys)) None None))
         = Cli.promptForCsvPath sys
             (Some (or_else (Cli.CSV_PATH (Cli.env sys)) (str "posts.csv")))).
Proof.
  split.
  - intros path E Hne. destruct (parse_args_path _ _ _ _ E Hne) as [?|?];
      [discriminate|assumption].
  - intros Hf.
    assert (truthy_str (nth_error (Cli.argv sys) 2)
            && negb (startsWith (text_of (nth_error (Cli.argv sys) 2)) (str "--"))
            = false) as Hdead.
    { destruct (Cli.argv sys) as [|a0 [|a1 [|arg rest]]]; try reflexivity.
      cbn [skipn nth_error truthy_str text_of] in *.
      destruct (nonempty arg) eqn:Ha; [|reflexivity]. cbn [andb].
      destruct (startsWith arg (str "--")) eqn:Hd; [reflexivity|]. exfalso.
      cbn [Cli.parse_args] in Hf.
      destruct (startsWith arg (str "--client=")) eqn:Hc.
      { rewrite (startsWith_trans _ _ (str "--") Hc eq_refl) in Hd. discriminate. }
      destruct (jsstring_eqb arg (str "--client")) eqn:He.
      { apply jsstring_eqb_eq in He. subst arg. discriminate. }
      cbn [truthy_str negb andb] in Hf. rewrite Hd in Hf. cbn [negb] in Hf.
      rewrite parse_args_keeps_path in Hf by exact Ha. cbn in Hf. congruence. }
    split; [exact Hdead|]. unfold Cli.resolveCsvPath. now rewrite Hf, Hdead.
Qed.

Lemma split_on_absent sep s : ~ In sep s -> split_on sep s = [s].
Proof.
  induction s as [|c r IH]; [reflexivity|]. intros H. cbn [split_on].
  destruct (Ascii.eqb_spec c sep) as [->|_]; [exfalso; apply H; now left|].
  rewrite IH; [reflexivity|]. intros Hin. apply H. now right.
Qed.

Lemma startsWith_app_l p t : startsWith (p ++ t) p = true.
Proof. induction p as [|x p IH]; [now destruct t|]. cbn. now rewrite Ascii.eqb_refl. Qed.

(** X2. Both spellings of the client option give the key, before or
    after the path: [--client=KEY] (for a key without [=]) and
    [--client KEY] (for any next argument); an argument that does not
    start with [--] is the path.  A [--client] that ends the command
    line changes nothing. *)
Theorem client_option key path clientKey csvPath :
  ~ In "=" key -> nonempty path = true -> startsWith path (str "--") = false ->
  Cli.parse_args [str "--client=" ++ key; path] None None = (Some key, Some path)
  /\ Cli.parse_args [str "--client"; key; path] None None = (Some key, Some path)
  /\ Cli.parse_args [path; str "--client"; key] None None = (Some key, Some path)
  /\ Cli.parse_args [path; str "--client=" ++ key] None None = (Some key, Some path)
  /\ Cli.parse_args [str "--client"] clientKey csvPath = (clientKey, csvPath).
Proof.
  intros Hkey Hne Hd.
  assert (startsWith path (str "--client=") = false) as Hc.
  { destruct (startsWith path (str "--client=")) eqn:E; [|reflexivity].
    now rewrite (startsWith_trans _ _ (str "--") E eq_refl) in Hd. }
  assert (jsstring_eqb path (str "--client") = false) as He.
  { destruct (jsstring_eqb path (str "--client")) eqn:E; [|reflexivity].
    apply jsstring_eqb_eq in E. subst path. discriminate. }
  assert (Cli.parse_args [path] (Some key) None = (Some key, Some path)) as Hpath.
  { cbn [Cli.parse_args]. rewrite Hc, He, Hd. reflexivity. }
  assert (nth 1 (split_on "=" (str "--client=" ++ key)) [] = key) as Hsplit.
  { change (str "--client=" ++ key) with (str "--client" ++ "=" :: key).
    cbn [str list_ascii_of_string app split_on]. cbn.
    now rewrite (split_on_absent _ _ Hkey). }
  split; [|split; [|split; [|split]]].
  - cbn [Cli.parse_args]. rewrite startsWith_app_l, Hsplit. exact Hpath.
  - exact Hpath.
  - cbn [Cli.parse_args]. rewrite Hc, He, Hd. cbn [truthy_str negb andb].
    reflexivity.
  - cbn [Cli.parse_args]. rewrite Hc, He, Hd. cbn [truthy_str negb andb].
    now rewrite startsWith_app_l, Hsplit.
  - cbn. now destruct (truthy_str csvPath).
Qed.

Lemma client_option_witness :
  ~ In "=" (str "acme") /\ nonempty (str "posts.csv") = true
  /\ startsWith (str "posts.csv") (str "--") = false
  /\ Cli.parse_args [str "--client=" ++ str "acme"; str "posts.csv"] None None
     = (Some (str "acme"), Some (str "posts.csv")).
Proof.
  assert (~ In "=" (str "acme")) as H by (cbn; intuition discriminate).
  repeat (split; [first [assumption|reflexivity]|]).
  exact (proj1 (client_option (str "acme") (str "posts.csv") None None H eq_refl eq_refl)).
Defined.

(** ** The client configuration *)

Lemma or_else_nonempty o d : nonempty d = true -> nonempty (or_else o d) = true.
Proof.
  intros H. destruct o as [s|]; [|exact H]. cbn.
  destruct (nonempty s) eqn:E; [exact E|exact H].
Qed.

(** X3. [initializeClient] returns a configuration only with a site, a
    user and a password that are not empty; the status, the client key
    and the client name of a returned configuration are never empty,
    and its base URL is the site followed by [/wp-json/wp/v2].  It
    exits, with code 1, exactly when the client entry cannot be found,
    and otherwise throws the missing-configuration error that names the
    selected client. *)
Theorem initializeClient_outcome sys clientKey :
  let selectedClient :=
    Cli.first_of clientKey (Cli.CLIENT (Cli.env sys)) (str "default") in
  nonempty selectedClient = true
  /\ match Cli.initializeClient sys clientKey with
     | Cli.Done setup =>
         nonempty (Cli.SITE setup) = true
         /\ nonempty (Cli.USER setup) = true
         /\ nonempty (Cli.APP_PASSWORD setup) = true
         /\ nonempty (Cli.STATUS setup) = true
         /\ nonempty (Cli.CLIENT_NAME setup) = true
         /\ Cli.CLIENT_KEY setup = selectedClient
         /\ Cli.baseURL setup = Cli.SITE setup ++ str "/wp-json/wp/v2"
     | Cli.Exit code =>
         code = 1 /\ Cli.getClientConfig sys selectedClient = Cli.Exit 1
     | Cli.Throw e =>
         e = Cli.missing_configuration selectedClient
         /\ exists clientConfig,
              Cli.getClientConfig sys selectedClient = Cli.Done clientConfig
     end.
Proof.
  intros selectedClient.
  assert (nonempty selectedClient = true) as Hsel.
  { unfold selectedClient, Cli.first_of. now repeat apply or_else_nonempty. }
  split; [exact Hsel|]. unfold Cli.initializeClient. fold selectedClient.
  destruct (Cli.getClientConfig sys selectedClient) as [clientConfig|code|e] eqn:E.
  - match goal with |- context [if ?b then _ else _] => destruct b eqn:Hb end.
    + split; [reflexivity|now exists clientConfig].
    + apply orb_false_iff in Hb as [Hb Hp]. apply orb_false_iff in Hb as [Hs Hu].
      apply negb_false_iff in Hs, Hu, Hp. cbn.
      repeat split; try assumption.
      * unfold Cli.first_of. now repeat apply or_else_nonempty.
      * now apply or_else_nonempty.
  - revert E. unfold Cli.getClientConfig, Cli.loadClientsConfig.
    destruct (Cli.env_clients sys) as [[c|]|]; destruct (Cli.file_clients sys) as [[f|]|];
      try destruct (c selectedClient); try destruct (f selectedClient);
      intros E; inversion E; auto.
  - revert E. unfold Cli.getClientConfig, Cli.loadClientsConfig.
    destruct (Cli.env_clients sys) as [[c|]|]; destruct (Cli.file_clients sys) as [[f|]|];
      try destruct (c selectedClient); try destruct (f selectedClient);
      discriminate.
Qed.

(** [strip_slash] on a string that ends with a slash, and on one that
    does not. *)
Lemma strip_slash_app s : Cli.strip_slash (s ++ str "/") = s.
Proof.
  induction s as [|c r IH]; [reflexivity|]. cbn [app Cli.strip_slash].
  destruct (r ++ str "/") as [|d t] eqn:E; [now destruct r|]. now rewrite IH.
Qed.

Lemma strip_slash_other s c :
  c <> "/" -> Cli.strip_slash (s ++ [c]) = s ++ [c].
Proof.
  intros Hc. induction s as [|x r IH].
  - cbn. destruct (Ascii.eqb_spec c "/"); [contradiction|reflexivity].
  - cbn [app Cli.strip_slash]. destruct (r ++ [c]) as [|d t] eqn:E; [now destruct r|].
    now rewrite IH.
Qed.

(** X4. One slash at the end of the configured site is dropped, so a
    site written with or without it gives the same address; any other
    last character is kept. *)
Theorem trailing_slash_is_dropped s c :
  c <> "/" ->
  Cli.strip_slash ((s ++ [c]) ++ str "/") = s ++ [c]
  /\ Cli.strip_slash (s ++ [c]) = s ++ [c]
  /\ Cli.strip_slash (str "/") = [].
Proof.
  intros Hc. split; [apply strip_slash_app|split; [now apply strip_slash_other|reflexivity]].
Qed.

Lemma trailing_slash_is_dropped_witness :
  "m" <> "/"
  /\ Cli.strip_slash ((str "https://example.co" ++ ["m"]) ++ str "/")
     = str "https://example.co" ++ ["m"].
Proof.
  assert ("m" <> "/") as H by discriminate.
  split; [exact H|].
  exact (proj1 (trailing_slash_is_dropped (str "https://example.co") "m" H)).
Defined.

(** ** The exit code of [main] *)

Section MainFacts.

Context {S : Type} (remote : Remote S) (platform : Platform) (sys : Cli.System).

Lemma checkConnectivity_cases w :
  (exists probe s1,
      remote GetProbe (site w) = (inr probe, s1)
      /\ BulkUpload.checkConnectivity remote w
         = (Returned true, {| site := s1; calls := calls w ++ [(GetProbe, true)] |}))
  \/ (exists e s1,
         remote GetProbe (site w) = (inl e, s1)
         /\ BulkUpload.checkConnectivity remote w
            = (Returned false, {| site := s1; calls := calls w ++ [(GetProbe, false)] |})).
Proof.
  unfold BulkUpload.checkConnectivity, try_catch, bind, call.
  destruct (remote GetProbe (site w)) as [[e|probe] s1].
  - right. now exists e, s1.
  - left. now exists probe, s1.
Qed.

(** For a client that can be set up and a path that is resolved,
    [main] does what [processCsvFile] does on that path and
    configuration, and turns its outcome into an exit code. *)
Lemma main_by_processCsvFile fuel w setup path :
  10 <= fuel ->
  Cli.initializeClient sys (fst (Cli.parse_args (skipn 2 (Cli.argv sys)) None None))
  = Cli.Done setup ->
  Cli.resolveCsvPath sys (snd (Cli.parse_args (skipn 2 (Cli.argv sys)) None None))
  = Some path ->
  Cli.main remote platform sys fuel w
  = (match fst (BulkUpload.processCsvFile remote platform fuel path
                  (Cli.config_of setup) w) with
     | Returned summary =>
         Returned (match Cli.write_log sys (results summary) with
                   | Some _ => 1
                   | None => if Nat.ltb 0 (failed summary) then 1 else 0
                   end)
     | Thrown e => Returned (if jsstring_eqb (message e) empty_csv then 0 else 1)
     | Unfinished => Unfinished
     end,
     snd (BulkUpload.processCsvFile remote platform fuel path (Cli.config_of setup) w)).
Proof.
  intros Hf Hinit Hpath. unfold Cli.main, BulkUpload.processCsvFile, try_catch.
  destruct (Cli.parse_args (skipn 2 (Cli.argv sys)) None None) as [clientKey csvPath].
  cbn [fst snd] in *. rewrite Hinit, Hpath.
  destruct (checkConnectivity_cases w) as [(probe & s1 & _ & E)|(e & s1 & _ & E)];
    rewrite !(bind_returned _ _ _ _ _ E); cbn [negb]; [|reflexivity].
  destruct (loadCsv platform path) as [e|rows]; [reflexivity|].
  destruct rows as [|row rest]; [reflexivity|]. cbn [List.length Nat.eqb].
  destruct (process_rows_spec remote platform fuel (Cli.config_of setup) (row :: rest) 0 []
              {| site := s1; calls := calls w ++ [(GetProbe, true)] |} Hf)
    as (new & w' & Erows & _).
  rewrite !(bind_returned _ _ _ _ _ Erows). cbn [app ret fst snd results failed].
  destruct (Cli.write_log sys new); reflexivity.
Qed.

(** X5. For a client that can be set up and a run in which the path
    of the file is resolved, the command line and the batch of the
    exported [processCsvFile] agree: [main] makes the same requests,
    and its exit code is 1 when the batch reports failed rows or the
    log cannot be written, 0 when it reports none; when the batch
    throws, the code is 0 for the empty file and 1 otherwise. *)
Theorem main_agrees_with_processCsvFile fuel w setup path :
  10 <= fuel ->
  Cli.initializeClient sys (fst (Cli.parse_args (skipn 2 (Cli.argv sys)) None None))
  = Cli.Done setup ->
  Cli.resolveCsvPath sys (snd (Cli.parse_args (skipn 2 (Cli.argv sys)) None None))
  = Some path ->
  let batch :=
    BulkUpload.processCsvFile remote platform fuel path (Cli.config_of setup) w in
  snd (Cli.main remote platform sys fuel w) = snd batch
  /\ (forall summary,
         fst batch = Returned summary ->
         fst (Cli.main remote platform sys fuel w)
         = Returned (match Cli.write_log sys (results summary) with
                     | Some _ => 1
                     | None => if Nat.ltb 0 (failed summary) then 1 else 0
                     end))
  /\ (forall e,
         fst batch = Thrown e ->
         fst (Cli.main remote platform sys fuel w)
         = Returned (if jsstring_eqb (message e) empty_csv then 0 else 1)).
Proof.
  intros Hf Hinit Hpath batch.
  rewrite (main_by_processCsvFile fuel w setup path Hf Hinit Hpath).
  fold batch. cbn [fst snd]. split; [reflexivity|split].
  - now intros summary ->.
  - now intros e ->.
Qed.

Lemma initializeClient_exits_with_1 clientKey code :
  Cli.initializeClient sys clientKey = Cli.Exit code -> code = 1.
Proof.
  unfold Cli.initializeClient, Cli.getClientConfig, Cli.loadClientsConfig.
  set (selectedClient := Cli.first_of clientKey (Cli.CLIENT (Cli.env sys)) (str "default")).
  destruct (Cli.env_clients sys) as [[c|]|]; destruct (Cli.file_clients sys) as [[f|]|];
    try destruct (c selectedClient); try destruct (f selectedClient);
    try match goal with |- context [if ?b then _ else _] => destruct b end;
    intros E; inversion E; reflexivity.
Qed.

Lemma filter_none_length {A} (f : A -> bool) l :
  List.length (filter f l) = 0 -> Forall (fun x => f x = false) l.
Proof.
  induction l as [|x l IH]; [constructor|]. cbn.
  destruct (f x) eqn:E; [discriminate|]. intros H. constructor; auto.
Qed.

(** X6. [main] always ends with the exit code 0 or 1, whatever the
    site answers.  When no path is given on the command line and the
    prompt is never answered, the process ends with 0 and nothing was
    sent, not even the probe.  Otherwise, when it ends with 0, the
    client was set up, the probe was answered and the file was loaded,
    and either the file has no rows or every row was processed, none of
    the results carries an error text, and the log was written. *)
Theorem main_exit_code fuel w :
  10 <= fuel ->
  exists code w',
    Cli.main remote platform sys fuel w = (Returned code, w')
    /\ (code = 0 \/ code = 1)
    /\ (forall setup,
           Cli.initializeClient sys
             (fst (Cli.parse_args (skipn 2 (Cli.argv sys)) None None)) = Cli.Done setup ->
           Cli.resolveCsvPath sys
             (snd (Cli.parse_args (skipn 2 (Cli.argv sys)) None None)) = None ->
           code = 0 /\ w' = w)
    /\ (code = 0 ->
        exists setup,
          Cli.initializeClient sys
            (fst (Cli.parse_args (skipn 2 (Cli.argv sys)) None None)) = Cli.Done setup
          /\ ((Cli.resolveCsvPath sys
                 (snd (Cli.parse_args (skipn 2 (Cli.argv sys)) None None)) = None
               /\ Cli.answer sys = None
               /\ w' = w)
              \/ exists path probe s1 rows,
                   Cli.resolveCsvPath sys
                     (snd (Cli.parse_args (skipn 2 (Cli.argv sys)) None None))
                   = Some path
                   /\ remote GetProbe (site w) = (inr probe, s1)
                   /\ loadCsv platform path = inr rows
                   /\ (rows = []
                       \/ exists logResults,
                            BulkUpload.process_rows remote platform fuel
                              (Cli.config_of setup) rows 0 []
                              {| site := s1; calls := calls w ++ [(GetProbe, true)] |}
                            = (Returned logResults, w')
                            /\ List.length logResults = List.length rows
                            /\ Forall (fun r => is_failed r = false) logResults
                            /\ Cli.write_log sys logResults = None))).
Proof.
  intros Hf. unfold Cli.main, try_catch.
  pose proof (initializeClient_exits_with_1
                (fst (Cli.parse_args (skipn 2 (Cli.argv sys)) None None))) as Hinit.
  assert (forall csvPath, Cli.resolveCsvPath sys csvPath = None -> Cli.answer sys = None)
    as Hprompt.
  { intros csvPath. unfold Cli.resolveCsvPath, Cli.promptForCsvPath.
    destruct (truthy_str csvPath); [discriminate|].
    destruct (truthy_str (nth_error (Cli.argv sys) 2)
              && negb (startsWith (text_of (nth_error (Cli.argv sys) 2)) (str "--")));
      [discriminate|].
    now destruct (Cli.answer sys). }
  destruct (Cli.parse_args (skipn 2 (Cli.argv sys)) None None) as [clientKey csvPath].
  cbn [fst snd] in *.
  destruct (Cli.initializeClient sys clientKey) as [setup|code|e].
  2:{ rewrite (Hinit code eq_refl). exists 1, w.
      repeat split; auto; try discriminate. }
  2:{ exists 1, w. repeat split; auto; discriminate. }
  destruct (Cli.resolveCsvPath sys csvPath) as [path|] eqn:Epath.
  2:{ exists 0, w. split; [reflexivity|]. split; [now left|]. split; [now split|].
      intros _. exists setup. split; [reflexivity|]. left.
      repeat split. now apply (Hprompt csvPath). }
  destruct (checkConnectivity_cases w) as [(probe & s1 & Hp & E)|(e & s1 & _ & E)];
    rewrite (bind_returned _ _ _ _ _ E); cbn [negb].
  2:{ eexists 1, _. repeat split; auto; discriminate. }
  destruct (loadCsv platform path) as [e|rows] eqn:El.
  { eexists 1, _. repeat split; auto; discriminate. }
  destruct rows as [|row rest].
  { eexists 0, _. split; [reflexivity|]. split; [now left|]. split; [discriminate|].
    intros _. exists setup. split; [reflexivity|]. right.
    exists path, probe, s1, []. repeat split; auto. }
  cbn [List.length Nat.eqb].
  destruct (process_rows_spec remote platform fuel (Cli.config_of setup) (row :: rest) 0 []
              {| site := s1; calls := calls w ++ [(GetProbe, true)] |} Hf)
    as (new & w' & Erows & Hnum & _).
  rewrite (bind_returned _ _ _ _ _ Erows). cbn [app] in *.
  destruct (Cli.write_log sys new) eqn:Ew.
  { eexists 1, _. repeat split; auto; discriminate. }
  destruct (Nat.ltb_spec 0 (List.length (filter (fun r => truthy_str (error r)) new)))
    as [Hlt|Hge].
  { eexists 1, _. repeat split; auto; discriminate. }
  eexists 0, _. split; [reflexivity|]. split; [now left|]. split; [discriminate|].
  intros _. exists setup. split; [reflexivity|]. right.
  exists path, probe, s1, (row :: rest). repeat split; auto.
  right. exists new. repeat split; auto.
  - rewrite <- (length_map rowNumber), Hnum. apply length_seq.
  - apply (filter_none_length (fun r => truthy_str (error r))). lia.
Qed.

End MainFacts.

Lemma main_agrees_with_processCsvFile_witness :
  10 <= 10
  /\ Cli.initializeClient sample_system
       (fst (Cli.parse_args (skipn 2 (Cli.argv sample_system)) None None))
     = Cli.Done sample_setup
  /\ Cli.resolveCsvPath sample_system
       (snd (Cli.parse_args (skipn 2 (Cli.argv sample_system)) None None))
     = Some (str "posts.csv")
  /\ snd (Cli.main reference_site (csv_platform sample_rows) sample_system 10
            (fresh sample_site))
     = snd (BulkUpload.processCsvFile reference_site (csv_platform sample_rows) 10
              (str "posts.csv") sample_config (fresh sample_site))
  /\ fst (Cli.main reference_site (csv_platform sample_rows) sample_system 10
            (fresh sample_site))
     = Returned 1.
Proof.
  split; [lia|]. split; [reflexivity|]. split; [reflexivity|].
  destruct (main_agrees_with_processCsvFile reference_site (csv_platform sample_rows)
              sample_system 10 (fresh sample_site) sample_setup (str "posts.csv")
              (le_n 10) eq_refl eq_refl)
    as (Hw & Hr & _).
  split; [exact Hw|].
  exact (Hr _ eq_refl).
Defined.

Lemma main_exit_code_witness :
  10 <= 10
  /\ exists code w',
       Cli.main reference_site (csv_platform [sample_row "New" "text"]) sample_system 10
         (fresh sample_site) = (Returned code, w')
       /\ (code = 0 \/ code = 1).
Proof.
  split; [lia|].
  destruct (main_exit_code reference_site (csv_platform [sample_row "New" "text"])
              sample_system 10 (fresh sample_site) (le_n 10))
    as (code & w' & E & Hc & _).
  exists code, w'. split; assumption.
Defined.

(** The sample command line without a path, at a prompt that is never
    answered: the process ends with 0 and nothing is sent. *)
Lemma unanswered_prompt_ends_with_0 :
  Cli.main reference_site (csv_platform sample_rows) silent_system 10 (fresh sample_site)
  = (Returned 0, fresh sample_site).
Proof. reflexivity. Qed.

(** ** The canonical form of a title *)

Lemma all_suffixes_at (P : ascii -> jsstring -> Prop) a c r :
  all_suffixes P (a ++ c :: r) -> P c r.
Proof.
  induction a as [|x a IH]; cbn [app all_suffixes]; intros [H1 H2]; auto.
Qed.

Lemma all_suffixes_Forall (P : ascii -> jsstring -> Prop) (Q : ascii -> Prop) s :
  (forall c r, P c r -> Q c) -> all_suffixes P s -> Forall Q s.
Proof.
  intros H. induction s as [|c r IH]; cbn [all_suffixes]; [constructor|].
  intros [H1 H2]. constructor; eauto.
Qed.

Lemma map_fixed_Forall {A} (f : A -> A) l : map f l = l -> Forall (fun x => f x = x) l.
Proof.
  induction l as [|x l IH]; [constructor|]. cbn [map]. intros E.
  injection E as E1 E2. constructor; auto.
Qed.

Lemma trim_start_head s c r : trim_start s = c :: r -> is_space c = false.
Proof.
  induction s as [|x s IH]; [discriminate|]. cbn [trim_start].
  destruct (is_space x) eqn:E; [exact IH|]. intros H. injection H as -> _. exact E.
Qed.

Lemma trim_end_head s c r : trim_end s = c :: r -> exists r', s = c :: r'.
Proof.
  destruct s as [|x s]; [discriminate|]. cbn [trim_end].
  destruct (trim_end s); [destruct (is_space x); [discriminate|]|];
    intros H; injection H as -> _; now exists s.
Qed.

Lemma trim_end_last s : forall r c, trim_end s = r ++ [c] -> is_space c = false.
Proof.
  induction s as [|x s IH]; intros r c; [now destruct r|]. cbn [trim_end].
  destruct (trim_end s) as [|y t] eqn:E.
  - destruct (is_space x) eqn:Ex; [now destruct r|].
    destruct r as [|z r]; [intros H; injection H as ->; exact Ex|].
    intros H. injection H as _ H. now destruct r.
  - destruct r as [|z r]; [discriminate|]. intros H. injection H as _ H.
    now apply (IH r c).
Qed.

(** The normalised form of a title of the pipeline: it holds no tag
    and no entity; it has no capital letter of the code units below
    256; its only whitespace is the space character, never two in a
    row, and never at either end. *)
Lemma latin1_normalizeTitle_canonical s :
  let t := normalizeTitle s in
  (forall a b c, t <> a ++ "<" :: b ++ ">" :: c)
  /\ (forall a b c, b <> [] -> ~ In ";" b -> t <> a ++ "&" :: b ++ ";" :: c)
  /\ Forall (fun c => lower_char c = c) t
  /\ Forall (fun c => is_space c = true -> c = " ") t
  /\ (forall a c, t <> a ++ " " :: " " :: c)
  /\ (forall c r, t = c :: r -> is_space c = false)
  /\ (forall r c, t = r ++ [c] -> is_space c = false).
Proof.
  destruct (normalizeTitle_shape s) as (Htag & Hent & Hsp & Hlow & Htrim).
  cbv zeta in *. set (t := normalizeTitle s) in *. clearbody t.
  repeat split.
  - intros a b c ->. apply all_suffixes_at in Htag.
    apply (Htag eq_refl), in_or_app. right. now left.
  - intros a b c Hb Hsemi ->. apply all_suffixes_at in Hent.
    specialize (Hent eq_refl). destruct b as [|d b]; [contradiction|].
    cbn [app] in Hent. destruct Hent as [->|Hno].
    + apply Hsemi. now left.
    + apply Hno, in_or_app. right. now left.
  - now apply map_fixed_Forall.
  - apply (all_suffixes_Forall _ _ _ (fun c r H Hc => proj1 (H Hc)) Hsp).
  - intros a c ->. apply all_suffixes_at in Hsp.
    destruct (Hsp eq_refl) as [_ H]. discriminate.
  - intros c r ->. unfold trim in Htrim.
    destruct (trim_end_head _ _ _ Htrim) as (r' & E).
    apply (trim_start_head _ _ _ E).
  - intros r c ->. unfold trim in Htrim. apply (trim_end_last _ _ _ Htrim).
Qed.

(** ** The labels of a row *)

Lemma split_on_no_sep sep s : Forall (fun piece => ~ In sep piece) (split_on sep s).
Proof.
  induction s as [|c r IH]; cbn [split_on]; [repeat constructor; auto|].
  destruct (Ascii.eqb c sep) eqn:E; [constructor; auto|].
  apply Ascii.eqb_neq in E.
  destruct (split_on sep r) as [|w ws]; inversion IH; subst;
    constructor; auto; intros [H|H]; auto; try contradiction; congruence.
Qed.

Lemma split_on_app sep a b :
  split_on sep (a ++ sep :: b) = split_on sep a ++ split_on sep b.
Proof.
  induction a as [|c a IH]; cbn [app split_on].
  - now rewrite Ascii.eqb_refl.
  - destruct (Ascii.eqb c sep); [now rewrite IH|]. rewrite IH.
    destruct (split_on sep a) as [|w ws] eqn:E; [|reflexivity].
    destruct a; cbn in E; [discriminate|].
    destruct (Ascii.eqb a sep); [discriminate|]. now destruct (split_on sep a0).
Qed.

Lemma trim_start_In c s : In c (trim_start s) -> In c s.
Proof.
  induction s as [|x s IH]; [auto|]. cbn [trim_start].
  destruct (is_space x); [right; auto|auto].
Qed.

Lemma labels_clean termString :
  Forall (fun label => label <> [] /\ trim label = label /\ ~ In "," label)
         (labels termString).
Proof.
  unfold labels. apply Forall_forall. intros label Hin.
  apply filter_In in Hin as [Hin Hne]. apply in_map_iff in Hin as (piece & <- & Hin).
  split; [now destruct (trim piece)|]. split; [apply trim_idem|].
  intros Hc. pose proof (split_on_no_sep "," termString) as Hall.
  rewrite Forall_forall in Hall. apply (Hall piece Hin).
  now apply trim_start_In, trim_end_In.
Qed.

(** X8. The labels that [resolveTerms] resolves are the comma-separated
    pieces of the field: none is empty, each is trimmed and holds no
    comma, and the labels of two fields joined by a comma are the labels
    of the first followed by the labels of the second. *)
Theorem labels_are_trimmed_pieces {S} (remote : Remote S) termString taxonomy delayMs :
  BulkUpload.resolveTerms remote termString taxonomy delayMs
  = (if blank termString then ret []
     else BulkUpload.resolveTerms_loop remote (labels termString) taxonomy delayMs [])
  /\ Forall (fun label => label <> [] /\ trim label = label /\ ~ In "," label)
            (labels termString)
  /\ (forall more, labels (termString ++ "," :: more) = labels termString ++ labels more).
Proof.
  split; [reflexivity|]. split; [apply labels_clean|].
  intros more. unfold labels. now rewrite split_on_app, map_app, filter_app.
Qed.

(** ** Drive links *)

Lemma take_while_Forall (p : ascii -> bool) s :
  Forall (fun c => p c = true) (ReproduceIssue.take_while p s).
Proof.
  induction s as [|c r IH]; cbn [ReproduceIssue.take_while]; [constructor|].
  destruct (p c) eqn:E; now constructor.
Qed.

Lemma take_while_app (p : ascii -> bool) run rest :
  Forall (fun c => p c = true) run ->
  match rest with [] => True | c :: _ => p c = false end ->
  ReproduceIssue.take_while p (run ++ rest) = run.
Proof.
  intros Hrun Hrest. induction Hrun as [|c run Hc _ IH]; cbn [app ReproduceIssue.take_while].
  - destruct rest as [|c r]; [reflexivity|].
    cbn [ReproduceIssue.take_while]. now rewrite Hrest.
  - now rewrite Hc, IH.
Qed.

Lemma id_after_run prefix s fileId :
  ReproduceIssue.id_after prefix s = Some fileId ->
  fileId <> [] /\ Forall (fun c => ReproduceIssue.is_id_char c = true) fileId.
Proof.
  unfold ReproduceIssue.id_after. destruct (startsWith s prefix); [|discriminate].
  pose proof (take_while_Forall ReproduceIssue.is_id_char (skipn (List.length prefix) s)) as H.
  destruct (ReproduceIssue.take_while _ _) as [|c run]; [discriminate|].
  intros E. injection E as <-. split; [discriminate|exact H].
Qed.

Lemma search_id_after_run prefix s fileId :
  ReproduceIssue.search (ReproduceIssue.id_after prefix) s = Some fileId ->
  fileId <> [] /\ Forall (fun c => ReproduceIssue.is_id_char c = true) fileId.
Proof.
  induction s as [|c r IH]; cbn [ReproduceIssue.search].
  - destruct (ReproduceIssue.id_after prefix []) eqn:E; [|discriminate].
    intros H. injection H as ->. now apply (id_after_run prefix []).
  - destruct (ReproduceIssue.id_after prefix (c :: r)) eqn:E; [|exact IH].
    intros H. injection H as ->. now apply (id_after_run prefix (c :: r)).
Qed.

Lemma search_d_skips_id fileId t :
  Forall (fun c => ReproduceIssue.is_id_char c = true) fileId ->
  ReproduceIssue.search (ReproduceIssue.id_after (str "/d/")) (fileId ++ t)
  = ReproduceIssue.search (ReproduceIssue.id_after (str "/d/")) t.
Proof.
  induction 1 as [|c run Hc _ IH]; [reflexivity|].
  cbn [app ReproduceIssue.search]. rewrite IH.
  unfold ReproduceIssue.id_after at 1. cbn [str list_ascii_of_string startsWith].
  destruct (Ascii.eqb "/" c) eqn:E; [|reflexivity].
  apply Ascii.eqb_eq in E. subst c. discriminate.
Qed.

Lemma search_without_prefix prefix s :
  includes s prefix = false ->
  ReproduceIssue.search (ReproduceIssue.id_after prefix) s = None.
Proof.
  induction s as [|c r IH]; cbn [includes ReproduceIssue.search];
    unfold ReproduceIssue.id_after; intros H; apply orb_false_iff in H as [-> H];
    [reflexivity|auto].
Qed.

Lemma convert_direct fileId :
  fileId <> [] ->
  Forall (fun c => ReproduceIssue.is_id_char c = true) fileId ->
  ReproduceIssue.convertGoogleDriveUrl (direct_prefix ++ fileId) = direct_prefix ++ fileId.
Proof.
  intros Hne Hid. unfold ReproduceIssue.convertGoogleDriveUrl.
  change (nonempty (direct_prefix ++ fileId)) with true.
  replace (includes (direct_prefix ++ fileId) (str "drive.google.com")) with true
    by (cbn; reflexivity).
  cbn [negb].
  replace (ReproduceIssue.search (ReproduceIssue.id_after (str "/d/"))
             (direct_prefix ++ fileId))
    with (ReproduceIssue.search (ReproduceIssue.id_after (str "/d/")) (fileId ++ []))
    by (cbn; now rewrite app_nil_r).
  rewrite (search_d_skips_id fileId [] Hid).
  replace (ReproduceIssue.search (ReproduceIssue.id_after (str "/d/")) []) with (@None jsstring)
    by reflexivity.
  replace (ReproduceIssue.search (ReproduceIssue.id_after (str "id=")) (direct_prefix ++ fileId))
    with (ReproduceIssue.search (ReproduceIssue.id_after (str "id=")) (str "id=" ++ fileId))
    by (cbn; reflexivity).
  destruct fileId as [|c run]; [contradiction|].
  cbn [str list_ascii_of_string app ReproduceIssue.search].
  unfold ReproduceIssue.id_after at 1.
  cbn [startsWith Ascii.eqb Bool.eqb andb List.length skipn str list_ascii_of_string].
  pose proof (take_while_app ReproduceIssue.is_id_char (c :: run) [] Hid I) as E.
  rewrite app_nil_r in E. rewrite E. reflexivity.
Qed.

(** X9. What [convertGoogleDriveUrl] returns: the address itself when
    it does not mention [drive.google.com], and otherwise either the
    address itself or the download address of a file identifier that is
    not empty and made of letters, digits, [_] and [-] only.  Converting
    twice is converting once. *)
Theorem convertGoogleDriveUrl_shape url :
  (includes url (str "drive.google.com") = false ->
   ReproduceIssue.convertGoogleDriveUrl url = url)
  /\ (ReproduceIssue.convertGoogleDriveUrl url = url
      \/ exists fileId,
           fileId <> []
           /\ Forall (fun c => ReproduceIssue.is_id_char c = true) fileId
           /\ ReproduceIssue.convertGoogleDriveUrl url = direct_prefix ++ fileId)
  /\ ReproduceIssue.convertGoogleDriveUrl (ReproduceIssue.convertGoogleDriveUrl url)
     = ReproduceIssue.convertGoogleDriveUrl url.
Proof.
  assert (ReproduceIssue.convertGoogleDriveUrl url = url
          \/ exists fileId,
               fileId <> []
               /\ Forall (fun c => ReproduceIssue.is_id_char c = true) fileId
               /\ ReproduceIssue.convertGoogleDriveUrl url = direct_prefix ++ fileId)
    as Hshape.
  { unfold ReproduceIssue.convertGoogleDriveUrl.
    destruct (negb (nonempty url)); [now left|].
    destruct (includes url (str "drive.google.com")); [|now left].
    destruct (ReproduceIssue.search (ReproduceIssue.id_after (str "/d/")) url)
      as [fileId|] eqn:E1.
    - right. exists fileId. destruct (search_id_after_run _ _ _ E1). now repeat split.
    - destruct (ReproduceIssue.search (ReproduceIssue.id_after (str "id=")) url)
        as [fileId|] eqn:E2; [|now left].
      right. exists fileId. destruct (search_id_after_run _ _ _ E2). now repeat split. }
  split; [|split; [exact Hshape|]].
  - intros H. unfold ReproduceIssue.convertGoogleDriveUrl. rewrite H.
    now destruct (negb (nonempty url)).
  - destruct Hshape as [E|(fileId & Hne & Hid & E)]; rewrite E; [exact E|].
    now apply convert_direct.
Qed.

(** X10. The two forms of a shared Drive link are converted to the
    download address of their file: [.../file/d/ID] followed by
    anything that does not continue the identifier, and [.../open?id=ID]
    followed by anything that does not continue it and has no [/d/]. *)
Theorem share_link_is_converted fileId rest :
  fileId <> [] ->
  Forall (fun c => ReproduceIssue.is_id_char c = true) fileId ->
  match rest with [] => True | c :: _ => ReproduceIssue.is_id_char c = false end ->
  ReproduceIssue.convertGoogleDriveUrl
    (str "https://drive.google.com/file/d/" ++ fileId ++ rest)
  = direct_prefix ++ fileId
  /\ (includes rest (str "/d/") = false ->
      ReproduceIssue.convertGoogleDriveUrl
        (str "https://drive.google.com/open?id=" ++ fileId ++ rest)
      = direct_prefix ++ fileId).
Proof.
  intros Hne Hid Hrest.
  pose proof (take_while_app ReproduceIssue.is_id_char fileId rest Hid Hrest) as Erun.
  split.
  - unfold ReproduceIssue.convertGoogleDriveUrl.
    change (nonempty (str "https://drive.google.com/file/d/" ++ fileId ++ rest)) with true.
    replace (includes (str "https://drive.google.com/file/d/" ++ fileId ++ rest)
               (str "drive.google.com")) with true by (cbn; reflexivity).
    cbn [negb].
    replace (ReproduceIssue.search (ReproduceIssue.id_after (str "/d/"))
               (str "https://drive.google.com/file/d/" ++ fileId ++ rest))
      with (ReproduceIssue.search (ReproduceIssue.id_after (str "/d/"))
              (str "/d/" ++ fileId ++ rest)) by (cbn; reflexivity).
    destruct fileId as [|c run]; [contradiction|].
    cbn [str list_ascii_of_string app ReproduceIssue.search].
    unfold ReproduceIssue.id_after at 1.
    cbn [startsWith Ascii.eqb Bool.eqb andb List.length skipn str list_ascii_of_string].
    cbn [app] in Erun. now rewrite Erun.
  - intros Hd. unfold ReproduceIssue.convertGoogleDriveUrl.
    change (nonempty (str "https://drive.google.com/open?id=" ++ fileId ++ rest)) with true.
    replace (includes (str "https://drive.google.com/open?id=" ++ fileId ++ rest)
               (str "drive.google.com")) with true by (cbn; reflexivity).
    cbn [negb].
    replace (ReproduceIssue.search (ReproduceIssue.id_after (str "/d/"))
               (str "https://drive.google.com/open?id=" ++ fileId ++ rest))
      with (ReproduceIssue.search (ReproduceIssue.id_after (str "/d/")) (fileId ++ rest))
      by (cbn; reflexivity).
    rewrite (search_d_skips_id fileId rest Hid), (search_without_prefix _ _ Hd).
    replace (ReproduceIssue.search (ReproduceIssue.id_after (str "id="))
               (str "https://drive.google.com/open?id=" ++ fileId ++ rest))
      with (ReproduceIssue.search (ReproduceIssue.id_after (str "id="))
              (str "id=" ++ fileId ++ rest)) by (cbn; reflexivity).
    destruct fileId as [|c run]; [contradiction|].
    cbn [str list_ascii_of_string app ReproduceIssue.search].
    unfold ReproduceIssue.id_after at 1.
    cbn [startsWith Ascii.eqb Bool.eqb andb List.length skipn str list_ascii_of_string].
    cbn [app] in Erun. now rewrite Erun.
Qed.

Lemma share_link_is_converted_witness :
  str "106UqbiAdo-z6ROElnyEqHI-8Klhb_g2Z" <> []
  /\ Forall (fun c => ReproduceIssue.is_id_char c = true)
            (str "106UqbiAdo-z6ROElnyEqHI-8Klhb_g2Z")
  /\ ReproduceIssue.convertGoogleDriveUrl
       (str "https://drive.google.com/file/d/"
        ++ str "106UqbiAdo-z6ROElnyEqHI-8Klhb_g2Z" ++ str "/view?usp=sharing")
     = direct_prefix ++ str "106UqbiAdo-z6ROElnyEqHI-8Klhb_g2Z".
Proof.
  assert (str "106UqbiAdo-z6ROElnyEqHI-8Klhb_g2Z" <> []) as Hne by discriminate.
  assert (Forall (fun c => ReproduceIssue.is_id_char c = true)
                 (str "106UqbiAdo-z6ROElnyEqHI-8Klhb_g2Z")) as Hid
    by (repeat constructor).
  split; [exact Hne|]. split; [exact Hid|].
  exact (proj1 (share_link_is_converted (str "106UqbiAdo-z6ROElnyEqHI-8Klhb_g2Z")
                  (str "/view?usp=sharing") Hne Hid eq_refl)).
Defined.

(** ** The calls of the helpers *)

Section HelperCalls.

Context {S : Type} (remote : Remote S) (platform : Platform).

(** X11. [checkConnectivity] sends the probe once and never throws: it
    answers [true] when the probe is answered and [false] when it is
    rejected. *)
Theorem checkConnectivity_probes_once w :
  exists ok,
    BulkUpload.checkConnectivity remote w
    = (Returned ok, {| site := snd (remote GetProbe (site w));
                       calls := calls w ++ [(GetProbe, ok)] |})
    /\ (ok = true <-> exists probe, fst (remote GetProbe (site w)) = inr probe).
Proof.
  unfold BulkUpload.checkConnectivity, try_catch, bind, call.
  destruct (remote GetProbe (site w)) as [[e|probe] s1]; cbn [fst snd].
  - exists false. split; [reflexivity|]. split; [discriminate|]. now intros (probe & H).
  - exists true. split; [reflexivity|]. split; [now exists probe|reflexivity].
Qed.

(** What [getOrCreateTerm] sends for a label: nothing for a blank one,
    else the search, and after an answered search without the label the
    creation. *)
Lemma getOrCreateTerm_cases name taxonomy delayMs w :
  exists id w' new,
    BulkUpload.getOrCreateTerm remote name taxonomy delayMs w = (Returned id, w')
    /\ calls w' = calls w ++ new
    /\ (blank name = true -> id = None /\ w' = w)
    /\ (blank name = false ->
        (new = [(GetTerms taxonomy (trim name), false)] /\ id = None)
        \/ (new = [(GetTerms taxonomy (trim name), true)]
            /\ exists answer existing,
                 fst (remote (GetTerms taxonomy (trim name)) (site w)) = inr answer
                 /\ find (same_name (trim name)) answer = Some existing
                 /\ id = Some (term_id existing))
        \/ (exists answer,
              fst (remote (GetTerms taxonomy (trim name)) (site w)) = inr answer
              /\ find (same_name (trim name)) answer = None
              /\ ((new = [(GetTerms taxonomy (trim name), true);
                          (PostTerm taxonomy (trim name), false)] /\ id = None)
                  \/ (exists term,
                        new = [(GetTerms taxonomy (trim name), true);
                               (PostTerm taxonomy (trim name), true)]
                        /\ id = Some (term_id term))))).
Proof.
  unfold BulkUpload.getOrCreateTerm. destruct (blank name) eqn:Eb.
  { exists None, w, []. cbn. rewrite app_nil_r. repeat split; discriminate. }
  unfold try_catch, bind, call, sleep, ret.
  destruct (remote (GetTerms taxonomy (trim name)) (site w)) as [[e|answer] s1] eqn:E1;
    cbn [fst snd].
  { eexists None, _, _. split; [reflexivity|]. cbn [calls].
    split; [reflexivity|]. split; [discriminate|]. intros _. now left. }
  change (fun term => jsstring_eqb (toLowerCase (term_name term)) (toLowerCase (trim name)))
    with (same_name (trim name)).
  destruct (find (same_name (trim name)) answer) as [existing|] eqn:Ef.
  { eexists _, _, _. split; [reflexivity|]. cbn [calls].
    split; [reflexivity|]. split; [discriminate|]. intros _. right. left.
    split; [reflexivity|]. now exists answer, existing. }
  cbn [site calls].
  destruct (remote (PostTerm taxonomy (trim name)) s1) as [[e|term] s2] eqn:E2.
  - eexists None, _, _. split; [reflexivity|]. cbn [calls]. rewrite <- app_assoc.
    split; [reflexivity|]. split; [discriminate|]. intros _. right. right.
    exists answer. repeat split; auto.
  - eexists _, _, _. split; [reflexivity|]. cbn [calls]. rewrite <- app_assoc.
    split; [reflexivity|]. split; [discriminate|]. intros _. right. right.
    exists answer. repeat split; auto. right. now exists term.
Qed.

(** X12. [getOrCreateTerm] never throws.  For a blank label it sends
    nothing and gives [null].  Otherwise it searches the trimmed label
    once; it creates the term only after an answered search that does
    not hold the label, and under the trimmed label; and it gives an
    identifier only when its last call was answered. *)
Theorem getOrCreateTerm_calls name taxonomy delayMs w :
  exists id w' new,
    BulkUpload.getOrCreateTerm remote name taxonomy delayMs w = (Returned id, w')
    /\ calls w' = calls w ++ new
    /\ (blank name = true -> id = None /\ w' = w)
    /\ (blank name = false ->
        exists ok, new = [(GetTerms taxonomy (trim name), ok)]
                   \/ (new = [(GetTerms taxonomy (trim name), true);
                              (PostTerm taxonomy (trim name), ok)]
                       /\ exists answer,
                            fst (remote (GetTerms taxonomy (trim name)) (site w))
                            = inr answer
                            /\ find (same_name (trim name)) answer = None))
    /\ (id <> None -> exists old request, new = old ++ [(request, true)]).
Proof.
  destruct (getOrCreateTerm_cases name taxonomy delayMs w)
    as (id & w' & new & E & Hc & Hblank & Hcases).
  exists id, w', new. repeat split; try assumption; try (now apply Hblank).
  - intros Hb.
    destruct (Hcases Hb) as [[-> _]|[[-> _]|(answer & Ha & Hf & [[-> _]|(term & -> & _)])]].
    + exists false. now left.
    + exists true. now left.
    + exists false. right. split; [reflexivity|]. now exists answer.
    + exists true. right. split; [reflexivity|]. now exists answer.
  - intros Hid. destruct (blank name) eqn:Eb.
    { destruct (Hblank eq_refl) as [-> _]. contradiction. }
    destruct (Hcases eq_refl)
      as [[_ ->]|[[-> _]|(answer & Ha & Hf & [[_ ->]|(term & -> & _)])]];
      try contradiction.
    + now exists [], (GetTerms taxonomy (trim name)).
    + now exists [(GetTerms taxonomy (trim name), true)], (PostTerm taxonomy (trim name)).
Qed.

Lemma term_call_more taxonomy name names c :
  term_call taxonomy names c -> term_call taxonomy (name :: names) c.
Proof. intros (label & Hin & H). exists label. split; [now right|exact H]. Qed.

Lemma resolveTerms_loop_calls taxonomy delayMs names : forall termIds w,
  exists ids w' new,
    BulkUpload.resolveTerms_loop remote names taxonomy delayMs termIds w
    = (Returned ids, w')
    /\ calls w' = calls w ++ new
    /\ List.length new <= 2 * List.length names
    /\ Forall (term_call taxonomy names) new
    /\ (~ In 0%Z termIds -> ~ In 0%Z ids).
Proof.
  induction names as [|name rest IH]; intros termIds w.
  { exists termIds, w, []. cbn. rewrite app_nil_r. repeat split; auto. }
  cbn [BulkUpload.resolveTerms_loop].
  destruct (getOrCreateTerm_cases name taxonomy delayMs w)
    as (id & w1 & new1 & E & Hc & Hblank & Hcases).
  rewrite (bind_returned _ _ _ _ _ E), bind_sleep.
  destruct (IH (match id with
                | Some z => if Z.eqb z 0 then termIds else termIds ++ [z]
                | None => termIds
                end) w1) as (ids & w' & new2 & E2 & Hc2 & Hlen & Hall & Hzero).
  exists ids, w', (new1 ++ new2). split; [exact E2|].
  split; [now rewrite Hc2, Hc, app_assoc|].
  assert (List.length new1 <= 2 /\ Forall (term_call taxonomy (name :: rest)) new1)
    as [Hlen1 Hall1].
  { assert (forall req ok, req = GetTerms taxonomy (trim name)
                           \/ req = PostTerm taxonomy (trim name) ->
                           term_call taxonomy (name :: rest) (req, ok)) as Hmine.
    { intros req ok H. exists name. split; [now left|exact H]. }
    destruct (blank name) eqn:Eb.
    - destruct (Hblank eq_refl) as [_ ->]. apply app_eq_self in Hc. subst new1.
      split; [cbn; lia|constructor].
    - destruct (Hcases eq_refl)
        as [[-> _]|[[-> _]|(answer & _ & _ & [[-> _]|(term & -> & _)])]];
        (split; [cbn; lia|]); repeat constructor; apply Hmine; auto. }
  split; [rewrite length_app; cbn [List.length]; lia|].
  split.
  - apply Forall_app. split; [exact Hall1|].
    apply (Forall_impl _ (term_call_more taxonomy name rest) Hall).
  - intros Hno. apply Hzero. destruct id as [z|]; [|exact Hno].
    destruct (Z.eqb z 0) eqn:Ez; [exact Hno|].
    intros Hin. apply in_app_or in Hin as [Hin|[Hin|[]]]; [auto|].
    subst z. discriminate.
Qed.

(** X13. [resolveTerms] never throws.  It sends at most two calls for
    each label of the field, each of them a search or a creation of the
    given taxonomy for one of the labels, so nothing for a field
    without labels; and no identifier it gives is zero. *)
Theorem resolveTerms_call_budget termString taxonomy delayMs w :
  exists ids w' new,
    BulkUpload.resolveTerms remote termString taxonomy delayMs w = (Returned ids, w')
    /\ calls w' = calls w ++ new
    /\ List.length new <= 2 * List.length (labels termString)
    /\ Forall (fun c => exists label,
                 In label (labels termString)
                 /\ (fst c = GetTerms taxonomy label \/ fst c = PostTerm taxonomy label))
              new
    /\ ~ In 0%Z ids.
Proof.
  unfold BulkUpload.resolveTerms. destruct (blank termString) eqn:Eb.
  { exists [], w, []. cbn. rewrite app_nil_r. repeat split; auto; lia. }
  destruct (resolveTerms_loop_calls taxonomy delayMs (labels termString) [] w)
    as (ids & w' & new & E & Hc & Hlen & Hall & Hzero).
  exists ids, w', new. repeat split; auto.
  apply (Forall_impl _ (P := term_call taxonomy (labels termString))); [|exact Hall].
  intros c (label & Hin & H). exists label. split; [exact Hin|].
  pose proof (labels_clean termString) as Hclean. rewrite Forall_forall in Hclean.
  destruct (Hclean label Hin) as (_ & Htrim & _). now rewrite Htrim in H.
Qed.

(** X24. [findPostBySlug] never throws.  For a blank slug it sends
    nothing and gives [null]; otherwise it sends one lookup of the
    trimmed slug, and an identifier it gives is the identifier of the
    first post of the answer. *)
Theorem findPostBySlug_calls slug w :
  exists found w' new,
    BulkUpload.findPostBySlug remote slug w = (Returned found, w')
    /\ calls w' = calls w ++ new
    /\ (blank slug = true -> found = None /\ w' = w)
    /\ (blank slug = false -> exists ok, new = [(GetPostsBySlug (trim slug), ok)])
    /\ (forall id,
           found = Some id ->
           exists first others,
             fst (remote (GetPostsBySlug (trim slug)) (site w)) = inr (first :: others)
             /\ id = post_id first).
Proof.
  unfold BulkUpload.findPostBySlug. destruct (blank slug).
  { exists None, w, []. unfold ret. rewrite app_nil_r. repeat split; discriminate. }
  unfold try_catch, bind, call, ret.
  destruct (remote (GetPostsBySlug (trim slug)) (site w)) as [[e|[|first others]] s1];
    cbn [fst snd]; eexists _, _, _; (split; [reflexivity|]); cbn [calls];
    (split; [reflexivity|]); (split; [discriminate|]);
    (split; [intros _; now eexists|]); intros id H; try discriminate.
  injection H as <-. now exists first, others.
Qed.

End HelperCalls.

(** ** Featured images *)

Section Images.

Context {S : Type} (remote : Remote S) (platform : Platform).

Lemma search_filename_nonempty s name :
  ReproduceIssue.search ReproduceIssue.filename_at s = Some name -> name <> [].
Proof.
  assert (forall t, ReproduceIssue.filename_at t = Some name -> name <> []) as Hat.
  { intros t. unfold ReproduceIssue.filename_at.
    destruct (startsWith t (str "filename=")); [|discriminate].
    destruct (ReproduceIssue.take_while _ _); [discriminate|].
    intros E. injection E as <-. discriminate. }
  induction s as [|c r IH]; cbn [ReproduceIssue.search].
  - destruct (ReproduceIssue.filename_at []) eqn:E; [|discriminate].
    intros H. injection H as ->. now apply (Hat []).
  - destruct (ReproduceIssue.filename_at (c :: r)) eqn:E; [|exact IH].
    intros H. injection H as ->. now apply (Hat (c :: r)).
Qed.

(** X14. The download of [reproduce_issue.js] fetches the address once
    and never throws.  An answer whose content type mentions
    [text/html] gives [null]; an asset comes from an answered fetch
    whose content type does not mention it, carries the bytes and the
    content type of the answer, and has a file name that is not
    empty. *)
Theorem reproduce_download_rejects_html imageUrl w :
  exists asset ok,
    ReproduceIssue.downloadImageFromUrl remote platform imageUrl w
    = (Returned asset, {| site := snd (remote (Fetch imageUrl) (site w));
                          calls := calls w ++ [(Fetch imageUrl, ok)] |})
    /\ (forall response ct,
           fst (remote (Fetch imageUrl) (site w)) = inr response ->
           content_type response = Some ct ->
           includes ct (str "text/html") = true ->
           asset = None)
    /\ (forall a,
           asset = Some a ->
           ok = true
           /\ ReproduceIssue.fileName a <> []
           /\ exists response,
                fst (remote (Fetch imageUrl) (site w)) = inr response
                /\ ReproduceIssue.buffer a = fetched_data response
                /\ ReproduceIssue.mimeType a = content_type response
                /\ forall ct, content_type response = Some ct ->
                              includes ct (str "text/html") = false).
Proof.
  unfold ReproduceIssue.downloadImageFromUrl, try_catch, bind, call.
  destruct (remote (Fetch imageUrl) (site w)) as [[e|response] s1]; cbn [fst snd].
  { exists None, false. split; [reflexivity|]. split; [discriminate|discriminate]. }
  set (html := match content_type response with
               | Some ct => nonempty ct && includes ct (str "text/html")
               | None => false
               end).
  assert (forall ct, content_type response = Some ct ->
                     includes ct (str "text/html") = html) as Hhtml.
  { intros ct E. unfold html. rewrite E. now destruct ct. }
  destruct html eqn:Eh.
  { exists None, true. split; [reflexivity|]. split; [reflexivity|discriminate]. }
  assert (forall name,
    exists asset,
      ret (Some {| ReproduceIssue.buffer := fetched_data response;
                   ReproduceIssue.mimeType := content_type response;
                   ReproduceIssue.fileName := name |})
          {| site := s1; calls := calls w ++ [(Fetch imageUrl, true)] |}
      = (Returned asset, {| site := s1; calls := calls w ++ [(Fetch imageUrl, true)] |})
      /\ (name <> [] ->
          (forall r ct, inr response = @inr Error Fetched r ->
                        content_type r = Some ct ->
                        includes ct (str "text/html") = true -> asset = None)
          /\ (forall a, asset = Some a ->
              true = true /\ ReproduceIssue.fileName a <> []
              /\ exists r, @inr Error Fetched response = inr r
                           /\ ReproduceIssue.buffer a = fetched_data r
                           /\ ReproduceIssue.mimeType a = content_type r
                           /\ forall ct, content_type r = Some ct ->
                                         includes ct (str "text/html") = false)))
    as Hdone.
  { intros name. eexists. split; [reflexivity|]. intros Hname. split.
    - intros r ct Hr Hct Hin. injection Hr as <-. rewrite (Hhtml ct Hct) in Hin.
      discriminate.
    - intros a Ha. injection Ha as <-. cbn. repeat split; auto.
      exists response. repeat split; auto. }
  unfold ret in *.
  destruct (truthy_str (content_disposition response)).
  - destruct (ReproduceIssue.search ReproduceIssue.filename_at _) as [name|] eqn:En.
    + destruct (Hdone name) as (asset & E & H). exists asset, true.
      split; [exact E|]. apply H. apply (search_filename_nonempty _ _ En).
    + destruct (Hdone (str "image.jpg")) as (asset & E & H). exists asset, true.
      split; [exact E|]. apply H. discriminate.
  - destruct (url_basename platform imageUrl) as [base|].
    + destruct (Hdone (if nonempty base then base else str "image")) as (asset & E & H).
      exists asset, true. split; [exact E|]. apply H.
      destruct base; discriminate.
    + exists None, true. split; [reflexivity|]. split; [reflexivity|discriminate].
Qed.

Lemma or_else_default o d : d <> [] -> or_else o d <> [].
Proof. intros Hd. destruct o as [[|c s]|]; cbn; auto. discriminate. Qed.

(** What the download of [bulk-upload.js] does: one fetch, and an
    asset for every answer when the address is a valid one. *)
Lemma download_cases imageUrl w :
  exists asset ok,
    BulkUpload.downloadImageFromUrl remote platform imageUrl w
    = (Returned asset, {| site := snd (remote (Fetch imageUrl) (site w));
                          calls := calls w ++ [(Fetch imageUrl, ok)] |})
    /\ (forall response base,
           fst (remote (Fetch imageUrl) (site w)) = inr response ->
           url_basename platform imageUrl = Some base ->
           ok = true
           /\ asset
              = Some {| BulkUpload.buffer := fetched_data response;
                        BulkUpload.mimeType :=
                          or_else (content_type response)
                            (or_else (mime_lookup platform imageUrl) (str "image/jpeg"));
                        BulkUpload.fileName := or_else (Some base) (str "image.jpg") |})
    /\ (asset = None <->
        (exists e, fst (remote (Fetch imageUrl) (site w)) = inl e)
        \/ url_basename platform imageUrl = None)
    /\ (asset <> None -> ok = true).
Proof.
  unfold BulkUpload.downloadImageFromUrl, try_catch, bind, call.
  destruct (remote (Fetch imageUrl) (site w)) as [[e|response] s1]; cbn [fst snd].
  { exists None, false. split; [reflexivity|]. split; [discriminate|].
    split; [split; [left; now exists e|reflexivity]|]. intros H. contradiction. }
  destruct (url_basename platform imageUrl) as [base|].
  - eexists _, true. split; [reflexivity|]. split; [|split; [|reflexivity]].
    + intros r b Hr Hb. injection Hr as <-. injection Hb as <-. now split.
    + split; [discriminate|]. intros [(e & H)|H]; discriminate.
  - exists None, true. split; [reflexivity|]. split; [discriminate|].
    split; [split; [now right|reflexivity]|reflexivity].
Qed.

(** X15. The download of [bulk-upload.js] fetches the address once and
    never throws.  When the address is a valid one, every answered
    fetch gives an asset, whatever its content type: the bytes of the
    answer, a content type and a file name that are not empty.  It
    gives [null] only for a rejected fetch or an invalid address. *)
Theorem download_keeps_every_answer imageUrl w :
  exists asset ok,
    BulkUpload.downloadImageFromUrl remote platform imageUrl w
    = (Returned asset, {| site := snd (remote (Fetch imageUrl) (site w));
                          calls := calls w ++ [(Fetch imageUrl, ok)] |})
    /\ (forall response base,
           fst (remote (Fetch imageUrl) (site w)) = inr response ->
           url_basename platform imageUrl = Some base ->
           exists a,
             asset = Some a
             /\ BulkUpload.buffer a = fetched_data response
             /\ BulkUpload.mimeType a <> []
             /\ BulkUpload.fileName a <> []
             /\ (forall ct, content_type response = Some ct -> ct <> [] ->
                            BulkUpload.mimeType a = ct))
    /\ (asset = None <->
        (exists e, fst (remote (Fetch imageUrl) (site w)) = inl e)
        \/ url_basename platform imageUrl = None).
Proof.
  destruct (download_cases imageUrl w) as (asset & ok & E & Hsome & Hnone & _).
  exists asset, ok. split; [exact E|]. split; [|exact Hnone].
  intros response base Hr Hb. destruct (Hsome response base Hr Hb) as [_ ->].
  eexists. split; [reflexivity|]. cbn [BulkUpload.buffer BulkUpload.mimeType BulkUpload.fileName].
  split; [reflexivity|]. split; [|split].
  - apply or_else_default, or_else_default. discriminate.
  - apply or_else_default. discriminate.
  - intros ct -> Hct. now destruct ct.
Qed.

(** The upload of a file that was read or fetched. *)
Lemma upload_step file delayMs w :
  exists id ok,
    try_catch
      (sleep delayMs ;;;
       response <- call remote (PostMedia (BulkUpload.buffer file)
                                          (BulkUpload.mimeType file)
                                          (BulkUpload.fileName file)) ;;
       ret (Some response))
      (fun _ => ret None) w
    = (Returned id,
       {| site := snd (remote (PostMedia (BulkUpload.buffer file) (BulkUpload.mimeType file)
                                         (BulkUpload.fileName file)) (site w));
          calls := calls w ++ [(PostMedia (BulkUpload.buffer file)
                                          (BulkUpload.mimeType file)
                                          (BulkUpload.fileName file), ok)] |})
    /\ (id <> None -> ok = true).
Proof.
  unfold try_catch, bind, sleep, call, ret.
  destruct (remote (PostMedia _ _ _) (site w)) as [[e|response] s1]; cbn [fst snd].
  - exists None, false. split; [reflexivity|]. intros H. contradiction.
  - exists (Some response), true. now split.
Qed.

(** [uploadMedia] throws only for a local file that exists and
    cannot be read, and before any call. *)
Lemma uploadMedia_thrown filePathOrUrl delayMs w e w' :
  BulkUpload.uploadMedia remote platform filePathOrUrl delayMs w = (Thrown e, w') ->
  w' = w
  /\ fs_existsSync platform (path_resolve platform filePathOrUrl) = true
  /\ fs_readFileSync platform (path_resolve platform filePathOrUrl) = inl e.
Proof.
  unfold BulkUpload.uploadMedia. destruct (blank filePathOrUrl); [discriminate|].
  destruct (startsWith (trim filePathOrUrl) (str "http://")
            || startsWith (trim filePathOrUrl) (str "https://")).
  - destruct (download_cases (trim filePathOrUrl) w) as (asset & ok & E & _).
    rewrite (bind_returned _ _ _ _ _ E). destruct asset as [file|]; [|discriminate].
    destruct (upload_step file delayMs
                {| site := snd (remote (Fetch (trim filePathOrUrl)) (site w));
                   calls := calls w ++ [(Fetch (trim filePathOrUrl), ok)] |})
      as (id & ok' & E' & _).
    rewrite E'. discriminate.
  - destruct (fs_existsSync platform (path_resolve platform filePathOrUrl));
      cbn [negb]; [|discriminate].
    destruct (fs_readFileSync platform (path_resolve platform filePathOrUrl))
      as [e0|fileBuffer].
    + unfold bind, throw. intros H. injection H as <- <-. now repeat split.
    + rewrite bind_ret.
      match goal with |- context [try_catch ?body ?h w] =>
        destruct (upload_step
                    {| BulkUpload.buffer := fileBuffer;
                       BulkUpload.mimeType :=
                         or_else (mime_lookup platform
                                    (path_resolve platform filePathOrUrl))
                                 (str "application/octet-stream");
                       BulkUpload.fileName :=
                         path_basename platform (path_resolve platform filePathOrUrl) |}
                    delayMs w) as (id & ok' & E' & _)
      end.
      rewrite E'. discriminate.
Qed.

(** X16. What [uploadMedia] does with a path or an address.  It sends
    at most a fetch and an upload, in that order; for a blank value, or
    for a local path without a file, it sends nothing and gives
    [null]; it gives an identifier only when the upload, its last
    call, was answered; and it throws only when the local file exists
    and cannot be read, before any call. *)
Theorem uploadMedia_outcomes filePathOrUrl delayMs w :
  exists o w' new,
    BulkUpload.uploadMedia remote platform filePathOrUrl delayMs w = (o, w')
    /\ calls w' = calls w ++ new
    /\ o <> Unfinished
    /\ (new = []
        \/ (exists ok, new = [(Fetch (trim filePathOrUrl), ok)])
        \/ (exists body mime name ok,
              new = [(PostMedia body mime name, ok)]
              /\ fs_readFileSync platform (path_resolve platform filePathOrUrl) = inr body)
        \/ (exists body mime name ok,
              new = [(Fetch (trim filePathOrUrl), true); (PostMedia body mime name, ok)]))
    /\ (blank filePathOrUrl = true -> o = Returned None /\ w' = w)
    /\ (startsWith (trim filePathOrUrl) (str "http://") = false ->
        startsWith (trim filePathOrUrl) (str "https://") = false ->
        fs_existsSync platform (path_resolve platform filePathOrUrl) = false ->
        o = Returned None /\ w' = w)
    /\ (forall id, o = Returned (Some id) ->
          exists old body mime name, new = old ++ [(PostMedia body mime name, true)])
    /\ (forall e, o = Thrown e ->
          w' = w
          /\ fs_existsSync platform (path_resolve platform filePathOrUrl) = true
          /\ fs_readFileSync platform (path_resolve platform filePathOrUrl) = inl e).
Proof.
  unfold BulkUpload.uploadMedia. destruct (blank filePathOrUrl) eqn:Eb.
  { exists (Returned None), w, []. unfold ret. rewrite app_nil_r.
    repeat split; try discriminate; auto. }
  destruct (startsWith (trim filePathOrUrl) (str "http://")
            || startsWith (trim filePathOrUrl) (str "https://")) eqn:Eurl.
  - destruct (download_cases (trim filePathOrUrl) w) as (asset & ok & E & _ & _ & Hok).
    rewrite (bind_returned _ _ _ _ _ E).
    assert (startsWith (trim filePathOrUrl) (str "http://") = false ->
            startsWith (trim filePathOrUrl) (str "https://") = false -> False) as Hnot.
    { intros H1 H2. rewrite H1, H2 in Eurl. discriminate. }
    destruct asset as [file|].
    + rewrite (Hok ltac:(discriminate)) in *. clear Hok.
      destruct (upload_step file delayMs
                  {| site := snd (remote (Fetch (trim filePathOrUrl)) (site w));
                     calls := calls w ++ [(Fetch (trim filePathOrUrl), true)] |})
        as (id & ok' & E' & Hid).
      eexists _, _, _. split; [exact E'|]. cbn [calls]. rewrite <- app_assoc.
      split; [reflexivity|]. split; [discriminate|].
      split; [right; right; right; now eexists _, _, _, _|].
      split; [discriminate|]. split; [intros H1 H2; destruct (Hnot H1 H2)|].
      split; [|discriminate].
      intros z Hz. injection Hz as ->. rewrite (Hid ltac:(discriminate)).
      now eexists [_], _, _, _.
    + eexists _, _, _. split; [reflexivity|]. cbn [calls].
      split; [reflexivity|]. split; [discriminate|].
      split; [right; left; now exists ok|].
      split; [discriminate|]. split; [intros H1 H2; destruct (Hnot H1 H2)|].
      split; discriminate.
  - destruct (fs_existsSync platform (path_resolve platform filePathOrUrl)) eqn:Ex;
      cbn [negb].
    2:{ rewrite bind_ret. exists (Returned None), w, []. unfold ret. rewrite app_nil_r.
        repeat split; try discriminate; auto. }
    destruct (fs_readFileSync platform (path_resolve platform filePathOrUrl))
      as [e|fileBuffer] eqn:Eread.
    { exists (Thrown e), w, []. unfold bind, throw. rewrite app_nil_r.
      repeat split; try discriminate; auto. congruence. }
    rewrite bind_ret.
    destruct (upload_step
                {| BulkUpload.buffer := fileBuffer;
                   BulkUpload.mimeType :=
                     or_else (mime_lookup platform (path_resolve platform filePathOrUrl))
                             (str "application/octet-stream");
                   BulkUpload.fileName :=
                     path_basename platform (path_resolve platform filePathOrUrl) |}
                delayMs w) as (id & ok' & E' & Hid).
    eexists _, _, _. split; [exact E'|]. cbn [calls].
    split; [reflexivity|]. split; [discriminate|].
    split; [right; right; left; now eexists _, _, _, _|].
    split; [discriminate|]. split; [discriminate|].
    split; [|discriminate].
    intros z Hz. injection Hz as ->. rewrite (Hid ltac:(discriminate)).
    now eexists [], _, _, _.
Qed.


End Images.

(** ** The result of a row and the writes of a batch *)

Section RowResults.

Context {S : Type} (remote : Remote S) (platform : Platform).

(** The writing part of a row ends with its one write call; when the
    call is answered the result is filled in, when it is rejected the
    error is thrown. *)
Lemma writePost_cases postData result config w :
  exists o w' old request ok,
    BulkUpload.writePost remote postData result config w = (o, w')
    /\ calls w' = old ++ [(request, ok)]
    /\ writes old = writes (calls w)
    /\ is_write (request, ok) = true
    /\ (ok = true ->
        exists r, o = Returned r /\ error r = None /\ action r <> None
                  /\ postId r <> None /\ result_status r <> None)
    /\ (ok = false -> exists e, o = Thrown e).
Proof.
  unfold BulkUpload.writePost.
  assert (exists existing w1,
    match pd_slug postData with
    | Some slug => BulkUpload.findPostBySlug remote slug
    | None => ret None
    end w = (Returned existing, w1)
    /\ writes (calls w1) = writes (calls w)) as (existing & w1 & E & Hw).
  { destruct (pd_slug postData) as [slug|].
    - destruct (findPostBySlug_returns remote slug w) as (existing & w1 & E).
      exists existing, w1. split; [exact E|].
      apply (emits_writes no_write _ _ _ _ (fun x H => H)
               (findPostBySlug_emits remote slug) E).
    - exists None, w. now split. }
  rewrite (bind_returned _ _ _ _ _ E), bind_sleep. rewrite <- Hw.
  destruct (if truthy_id existing then existing else None) as [id|]; unfold bind, call.
  - destruct (remote (PostUpdate id postData) (site w1)) as [[e|a] s2];
      eexists _, _, (calls w1), (PostUpdate id postData), _;
      (split; [reflexivity|]); cbn [calls]; repeat (split; [reflexivity|]);
      split; intros Hok; try discriminate; eexists; repeat split; discriminate.
  - destruct (remote (PostCreate postData) (site w1)) as [[e|a] s2];
      eexists _, _, (calls w1), (PostCreate postData), _;
      (split; [reflexivity|]); cbn [calls]; repeat (split; [reflexivity|]);
      split; intros Hok; try discriminate; eexists; repeat split; discriminate.
Qed.

(** The two ways a row ends: failed, with at most a rejected write, or
    succeeded, with an answered write as its last call. *)
Lemma createOrUpdatePost_cases fuel row rowNumber0 config w :
  10 <= fuel ->
  exists result w' ws,
    BulkUpload.createOrUpdatePost remote platform fuel row rowNumber0 config w
    = (Returned result, w')
    /\ writes (calls w') = writes (calls w) ++ ws
    /\ (((ws = [] \/ exists request, ws = [(request, false)])
         /\ error result <> None /\ action result = None
         /\ postId result = None /\ result_status result = None)
        \/ (exists old request,
              ws = [(request, true)] /\ calls w' = old ++ [(request, true)]
              /\ error result = None /\ action result <> None
              /\ postId result <> None /\ result_status result <> None)).
Proof.
  intros Hf.
  destruct (BulkUpload.buildPostData remote platform row config w) as [[postData|e|] w1] eqn:Eb.
  - assert (writes (calls w1) = writes (calls w)) as Hw1
      by (now apply buildPostData_inv in Eb).
    destruct (findPostByTitle_total remote fuel (pd_title postData) w1 Hf)
      as (found & w2 & oks & Escan & _).
    assert (writes (calls w2) = writes (calls w1)) as Hw2.
    { apply (emits_writes listing_only _ _ _ _ listing_is_no_write
               (findPostByTitle_emits remote fuel (pd_title postData)) Escan). }
    destruct (truthy_id found) eqn:Efound.
    + unfold BulkUpload.createOrUpdatePost, try_catch.
      rewrite (bind_returned _ _ _ _ _ Eb), (bind_returned _ _ _ _ _ Escan).
      destruct found as [id|]; [|discriminate]. rewrite Efound.
      eexists _, w2, []. split; [reflexivity|]. rewrite app_nil_r.
      split; [congruence|]. left. cbn. repeat split; auto. discriminate.
    + rewrite (createOrUpdatePost_after_scan remote platform fuel row rowNumber0 config
                 w postData w1 found w2 Eb Escan Efound).
      destruct (writePost_cases postData (blank_result row rowNumber0) config w2)
        as (o & w3 & old & request & ok & E & Hc & Hold & Hwrite & Hyes & Hno).
      unfold try_catch. rewrite E.
      assert (writes (calls w3) = writes (calls w) ++ [(request, ok)]) as Hw3.
      { rewrite Hc, writes_app, Hold, Hw2, Hw1. unfold writes at 2.
        cbn [filter]. now rewrite Hwrite. }
      destruct ok.
      * destruct (Hyes eq_refl) as (r & -> & He & Ha & Hp & Hs).
        exists r, w3, [(request, true)]. split; [reflexivity|]. split; [exact Hw3|].
        right. exists old, request. repeat split; auto.
      * destruct (Hno eq_refl) as (e & ->).
        eexists _, w3, [(request, false)]. split; [reflexivity|]. split; [exact Hw3|].
        left. cbn. repeat split; auto; [right; now exists request|discriminate].
  - unfold BulkUpload.createOrUpdatePost, try_catch. rewrite (bind_thrown _ _ _ _ _ Eb).
    eexists _, w1, []. split; [reflexivity|]. rewrite app_nil_r. split.
    + apply (emits_writes no_write _ _ _ _ (fun x H => H)
               (buildPostData_emits remote platform row config) Eb).
    + left. cbn. repeat split; auto. discriminate.
  - pose proof (buildPostData_finishes remote platform row config w) as H.
    rewrite Eb in H. now destruct H.
Qed.

(** X17. The result of a row.  [createOrUpdatePost] never throws and
    makes at most one write call.  A result without error has an
    action, a post identifier and a status, and the last call of the
    row is then its answered write; a result with an error has none of
    the three, and no write of the row was answered. *)
Theorem createOrUpdatePost_result fuel row rowNumber0 config w :
  10 <= fuel ->
  exists result w' ws,
    BulkUpload.createOrUpdatePost remote platform fuel row rowNumber0 config w
    = (Returned result, w')
    /\ writes (calls w') = writes (calls w) ++ ws
    /\ List.length ws <= 1
    /\ (error result = None ->
        action result <> None /\ postId result <> None /\ result_status result <> None
        /\ exists old request,
             ws = [(request, true)] /\ calls w' = old ++ [(request, true)])
    /\ (error result <> None ->
        action result = None /\ postId result = None /\ result_status result = None
        /\ Forall (fun c => snd c = false) ws).
Proof.
  intros Hf.
  destruct (createOrUpdatePost_cases fuel row rowNumber0 config w Hf)
    as (result & w' & ws & E & Hw & Hcases).
  exists result, w', ws. split; [exact E|]. split; [exact Hw|].
  destruct Hcases as [(Hws & He & Ha & Hp & Hs)|(old & request & -> & Hc & He & Ha & Hp & Hs)].
  - split; [destruct Hws as [->|(request & ->)]; cbn; lia|].
    split; [intros H; contradiction|]. intros _. repeat split; auto.
    destruct Hws as [->|(request & ->)]; repeat constructor.
  - split; [cbn; lia|]. split; [|intros H; contradiction].
    intros _. repeat split; auto. now exists old, request.
Qed.

Lemma process_rows_writes fuel config : forall rows i logResults w,
  10 <= fuel ->
  exists new w' ws,
    BulkUpload.process_rows remote platform fuel config rows i logResults w
    = (Returned (logResults ++ new), w')
    /\ writes (calls w') = writes (calls w) ++ ws
    /\ List.length ws <= List.length rows
    /\ List.length (filter answered ws) = List.length (filter succeeded new).
Proof.
  induction rows as [|row rest IH]; intros i logResults w Hf.
  { exists [], w, []. cbn. rewrite !app_nil_r. repeat split; auto. }
  cbn [BulkUpload.process_rows].
  destruct (createOrUpdatePost_cases fuel row (i + 1) config w Hf)
    as (r & w1 & ws1 & E & Hw1 & Hcases).
  rewrite (bind_returned _ _ _ _ _ E).
  destruct (IH (i + 1) (logResults ++ [r]) w1 Hf) as (new & w' & ws & E' & Hw & Hlen & Hcount).
  exists (r :: new), w', (ws1 ++ ws). rewrite E', <- app_assoc.
  split; [reflexivity|]. split; [now rewrite Hw, Hw1, app_assoc|].
  rewrite length_app, filter_app, length_app. cbn [filter List.length].
  destruct Hcases as [(Hws & He & _)|(old & request & -> & _ & He & _)].
  - assert (succeeded r = false) as -> by (unfold succeeded; now destruct (error r)).
    destruct Hws as [->|(request & ->)]; cbn; split; lia.
  - assert (succeeded r = true) as -> by (unfold succeeded; now rewrite He).
    cbn. split; lia.
Qed.

Lemma filter_length_le {A} (f g : A -> bool) l :
  (forall x, f x = true -> g x = true) ->
  List.length (filter f l) <= List.length (filter g l).
Proof.
  intros H. induction l as [|x l IH]; [auto|]. cbn [filter].
  destruct (f x) eqn:E; [rewrite (H x E); cbn; lia|].
  destruct (g x); cbn; lia.
Qed.

Lemma checkConnectivity_once w :
  exists ok s1,
    BulkUpload.checkConnectivity remote w
    = (Returned ok, {| site := s1; calls := calls w ++ [(GetProbe, ok)] |}).
Proof.
  unfold BulkUpload.checkConnectivity, try_catch, bind, call.
  destruct (remote GetProbe (site w)) as [[e|probe] s1]; now eexists _, _.
Qed.

(** X18. The writes of a batch.  [processCsvFile] makes at most one
    write call for each row of the file, and none when the file cannot
    be loaded.  When it returns its summary, the write calls that were
    answered are as many as the results without an error, which are
    at most [success]. *)
Theorem batch_write_budget fuel csvPath config w :
  10 <= fuel ->
  exists o w' ws,
    BulkUpload.processCsvFile remote platform fuel csvPath config w = (o, w')
    /\ writes (calls w') = writes (calls w) ++ ws
    /\ (forall rows, loadCsv platform csvPath = inr rows ->
                     List.length ws <= List.length rows)
    /\ (forall e, loadCsv platform csvPath = inl e -> ws = [])
    /\ (forall summary,
           o = Returned summary ->
           List.length (filter answered ws)
           = List.length (filter succeeded (results summary))
           /\ List.length (filter succeeded (results summary)) <= success summary).
Proof.
  intros Hf. unfold BulkUpload.processCsvFile.
  destruct (checkConnectivity_once w) as (ok & s1 & E).
  rewrite (bind_returned _ _ _ _ _ E).
  assert (writes (calls w ++ [(GetProbe, ok)]) = writes (calls w) ++ []) as Hprobe.
  { now rewrite writes_app. }
  destruct ok; cbn [negb].
  2:{ eexists _, _, []. split; [reflexivity|]. cbn [calls]. split; [exact Hprobe|].
      repeat split; auto; try discriminate. cbn. lia. }
  destruct (loadCsv platform csvPath) as [e|rows].
  { eexists _, _, []. split; [reflexivity|]. cbn [calls]. split; [exact Hprobe|].
    repeat split; auto; discriminate. }
  destruct rows as [|row rest]; cbn [List.length Nat.eqb].
  { eexists _, _, []. split; [reflexivity|]. cbn [calls]. split; [exact Hprobe|].
    repeat split; auto; try discriminate. intros rows H. cbn. lia. }
  destruct (process_rows_writes fuel config (row :: rest) 0 []
              {| site := s1; calls := calls w ++ [(GetProbe, true)] |} Hf)
    as (new & w' & ws & Erows & Hw & Hlen & Hcount).
  rewrite (bind_returned _ _ _ _ _ Erows). cbn [app calls] in *.
  eexists _, w', ws. split; [reflexivity|].
  split; [now rewrite Hw, Hprobe, app_nil_r|].
  split; [intros rows H; injection H as <-; exact Hlen|].
  split; [discriminate|].
  intros summary H. injection H as <-. cbn [results success].
  split; [exact Hcount|]. apply filter_length_le.
  intros r. unfold succeeded. now destruct (error r).
Qed.

(** The batch throws only before the first row, with the probe as its
    only call. *)
Lemma batch_throws_early fuel csvPath config w :
  10 <= fuel ->
  exists o w',
    BulkUpload.processCsvFile remote platform fuel csvPath config w = (o, w')
    /\ o <> Unfinished
    /\ (forall e,
           o = Thrown e ->
           exists ok,
             calls w' = calls w ++ [(GetProbe, ok)]
             /\ ((ok = false
                  /\ message e
                     = str "WordPress REST API is not accessible. Check your configuration.")
                 \/ (ok = true
                     /\ exists cause,
                          loadCsv platform csvPath = inl cause
                          /\ message e = str "Failed to load CSV: " ++ message cause)
                 \/ (ok = true
                     /\ loadCsv platform csvPath = inr []
                     /\ message e = str "CSV file is empty"))).
Proof.
  intros Hf. unfold BulkUpload.processCsvFile.
  destruct (checkConnectivity_once w) as (ok & s1 & E).
  rewrite (bind_returned _ _ _ _ _ E).
  destruct ok; cbn [negb].
  2:{ eexists _, _. split; [reflexivity|]. split; [discriminate|].
      intros e H. injection H as <-. exists false. split; [reflexivity|]. now left. }
  destruct (loadCsv platform csvPath) as [cause|rows].
  { eexists _, _. split; [reflexivity|]. split; [discriminate|].
    intros e H. injection H as <-. exists true. split; [reflexivity|]. right. left.
    split; [reflexivity|]. now exists cause. }
  destruct rows as [|row rest]; cbn [List.length Nat.eqb].
  { eexists _, _. split; [reflexivity|]. split; [discriminate|].
    intros e H. injection H as <-. exists true. split; [reflexivity|]. now right; right. }
  destruct (process_rows_spec remote platform fuel config (row :: rest) 0 []
              {| site := s1; calls := calls w ++ [(GetProbe, true)] |} Hf)
    as (new & w' & Erows & _).
  rewrite (bind_returned _ _ _ _ _ Erows).
  eexists _, _. split; [reflexivity|]. split; discriminate.
Qed.

(** X19. The exported [processCsvFile] fails only before the first
    row.  It ends the process, with code 1 and without any call, when
    the client entry cannot be found.  It throws in four cases: the
    site, the user or the password of the client is missing, and then
    no call was made; the probe is rejected; the file cannot be
    loaded; the file has no rows.  In the last three the probe is the
    only call that was made.  The message tells which case it was. *)
Theorem batch_throws_before_any_row (sys : Cli.System) fuel csvPath clientKey w :
  10 <= fuel ->
  exists o w',
    Cli.processCsvFile remote platform sys fuel csvPath clientKey w = (o, w')
    /\ o <> Unfinished
    /\ (forall code,
           o = Returned (inl code) ->
           code = 1 /\ w' = w
           /\ Cli.getClientConfig sys
                (Cli.first_of clientKey (Cli.CLIENT (Cli.env sys)) (str "default"))
              = Cli.Exit 1)
    /\ (forall e,
           o = Thrown e ->
           (w' = w
            /\ e = Cli.missing_configuration
                     (Cli.first_of clientKey (Cli.CLIENT (Cli.env sys)) (str "default")))
           \/ exists setup ok,
                Cli.initializeClient sys clientKey = Cli.Done setup
                /\ calls w' = calls w ++ [(GetProbe, ok)]
                /\ ((ok = false
                     /\ message e
                        = str "WordPress REST API is not accessible. Check your configuration.")
                    \/ (ok = true
                        /\ exists cause,
                             loadCsv platform csvPath = inl cause
                             /\ message e = str "Failed to load CSV: " ++ message cause)
                    \/ (ok = true
                        /\ loadCsv platform csvPath = inr []
                        /\ message e = str "CSV file is empty")))
    /\ (forall summary,
           o = Returned (inr summary) ->
           exists setup,
             Cli.initializeClient sys clientKey = Cli.Done setup
             /\ BulkUpload.processCsvFile remote platform fuel csvPath
                  (Cli.config_of setup) w = (Returned summary, w')).
Proof.
  intros Hf. unfold Cli.processCsvFile.
  destruct (Cli.initializeClient sys clientKey) as [setup|code|e] eqn:Einit.
  - destruct (batch_throws_early fuel csvPath (Cli.config_of setup) w Hf)
      as (o & w' & E & Hfin & Hthrown).
    unfold bind. rewrite E. destruct o as [summary|e|].
    + eexists _, w'. split; [reflexivity|]. split; [discriminate|].
      split; [discriminate|]. split; [discriminate|].
      intros s' H. injection H as <-. now exists setup.
    + eexists _, w'. split; [reflexivity|]. split; [discriminate|].
      split; [discriminate|]. split; [|discriminate].
      intros e' H. injection H as <-. right.
      destruct (Hthrown e eq_refl) as (ok & Hc & Hcases). now exists setup, ok.
    + contradiction.
  - eexists _, w. split; [reflexivity|]. split; [discriminate|].
    split; [|split; discriminate].
    intros code' H. injection H as <-. revert Einit.
    unfold Cli.initializeClient.
    destruct (Cli.getClientConfig sys _) as [clientConfig|code'|e] eqn:Eg.
    + match goal with |- context [if ?b then _ else _] => destruct b end; discriminate.
    + intros H. injection H as <-. revert Eg.
      unfold Cli.getClientConfig, Cli.loadClientsConfig.
      destruct (Cli.env_clients sys) as [[c|]|]; destruct (Cli.file_clients sys) as [[f|]|];
        try match goal with |- context [match ?c ?k with _ => _ end] =>
              destruct (c k) end;
        intros E; inversion E; auto.
    + discriminate.
  - eexists _, w. split; [reflexivity|]. split; [discriminate|].
    split; [discriminate|]. split; [|discriminate].
    intros e' H. injection H as <-. left. split; [reflexivity|]. revert Einit.
    unfold Cli.initializeClient.
    destruct (Cli.getClientConfig sys _) as [clientConfig|code'|e'] eqn:Eg.
    + match goal with |- context [if ?b then _ else _] => destruct b end;
        [now intros H; injection H as <-|discriminate].
    + discriminate.
    + intros _. revert Eg. unfold Cli.getClientConfig, Cli.loadClientsConfig.
      destruct (Cli.env_clients sys) as [[c|]|]; destruct (Cli.file_clients sys) as [[f|]|];
        try match goal with |- context [match ?c ?k with _ => _ end] =>
              destruct (c k) end;
        discriminate.
Qed.

End RowResults.

(** ** The duplicate scan reports listed posts only *)

Lemma check_page_some title data id :
  BulkUpload.check_page (normalizeTitle title) data = inr (Some id) ->
  exists p, In p data /\ post_id p = id /\ same_title title p = true.
Proof.
  induction data as [|post rest IH]; [discriminate|]. cbn [BulkUpload.check_page].
  destruct (BulkUpload.postTitleRaw post) as [raw|] eqn:Eraw; [|discriminate].
  destruct (jsstring_eqb (normalizeTitle raw) (normalizeTitle title)) eqn:Em.
  - intros H. injection H as <-. exists post. repeat split; [now left|].
    unfold same_title. now rewrite Eraw.
  - intros H. destruct (IH H) as (p & Hin & Hid & Hsame).
    exists p. repeat split; auto. now right.
Qed.

Lemma check_page_untitled norm before untitled after :
  BulkUpload.postTitleRaw untitled = None ->
  Forall (fun q => exists raw, BulkUpload.postTitleRaw q = Some raw
                               /\ jsstring_eqb (normalizeTitle raw) norm = false) before ->
  BulkUpload.check_page norm (before ++ untitled :: after) = inl BulkUpload.not_a_function.
Proof.
  intros Hu. induction 1 as [|q before (raw & Hraw & Hne) _ IH];
    cbn [app BulkUpload.check_page].
  - now rewrite Hu.
  - now rewrite Hraw, Hne.
Qed.

Section ScanSoundness.

Context {S : Type} (remote : Remote S).

Lemma scan_pages_sound title coll fuel : forall page w id w',
  lists remote (site w) coll ->
  1 <= page -> page <= 10 ->
  BulkUpload.scan_pages remote fuel (normalizeTitle title) page w = (Returned (Some id), w') ->
  exists p, In p (window coll page) /\ post_id p = id /\ same_title title p = true.
Proof.
  induction fuel as [|fuel IH]; intros page w id w' Hl H1 H10; [discriminate|].
  cbn [BulkUpload.scan_pages].
  rewrite (bind_returned _ _ _ _ _ (call_answered remote _ w _ _ (Hl page))).
  rewrite (window_step coll page H1 H10).
  destruct (Nat.eqb (List.length (page_of coll page)) 0); [discriminate|].
  destruct (BulkUpload.check_page (normalizeTitle title) (page_of coll page))
    as [e|[found|]] eqn:Ec; [discriminate| |].
  - intros H. injection H as -> _.
    destruct (check_page_some _ _ _ Ec) as (p & Hin & Hid & Hsame).
    exists p. repeat split; auto. apply in_or_app. now left.
  - destruct (Nat.ltb (List.length (page_of coll page)) BulkUpload.perPage);
      [discriminate|].
    destruct (Nat.ltb_spec 10 (page + 1)) as [Hlt|Hge]; [discriminate|].
    intros H. apply IH in H as (p & Hin & Hid & Hsame); [|exact Hl|lia|lia].
    exists p. repeat split; auto. apply in_or_app. now right.
Qed.

(** X20. The duplicate scan reports no post that is not listed: on a
    site that lists a collection, an identifier that [findPostByTitle]
    returns is the identifier of one of the first 1000 posts of the
    collection, and the normalised title of that post equals the
    normalised title that was searched. *)
Theorem findPostByTitle_sound fuel title coll w id w' :
  lists remote (site w) coll ->
  BulkUpload.findPostByTitle remote fuel title w = (Returned (Some id), w') ->
  exists p, In p (firstn 1000 coll) /\ post_id p = id /\ same_title title p = true.
Proof.
  intros Hl. unfold BulkUpload.findPostByTitle.
  destruct (blank title); [discriminate|]. unfold try_catch.
  destruct (BulkUpload.scan_pages remote fuel (normalizeTitle title) 1 w)
    as [[found|e|] w1] eqn:E; try discriminate.
  intros H. injection H as -> ->. rewrite <- window_first.
  apply (scan_pages_sound title coll fuel 1 w id w' Hl); auto; lia.
Qed.

(** X21. A listed post whose title is an object without text stops the
    scan: when such a post stands on the first page before any post
    with the searched title, [findPostByTitle] gives [null] after that
    one page, whatever is listed behind it. *)
Theorem untitled_post_stops_the_scan fuel title coll w before untitled after :
  1 <= fuel ->
  blank title = false ->
  lists remote (site w) coll ->
  page_of coll 1 = before ++ untitled :: after ->
  BulkUpload.postTitleRaw untitled = None ->
  Forall (fun q => titled q /\ same_title title q = false) before ->
  BulkUpload.findPostByTitle remote fuel title w
  = (Returned None,
     {| site := site w; calls := calls w ++ [(GetPosts BulkUpload.perPage 1, true)] |}).
Proof.
  intros Hf Hb Hl Hpage Hu Hbefore. unfold BulkUpload.findPostByTitle. rewrite Hb.
  destruct fuel as [|fuel]; [lia|]. unfold try_catch. cbn [BulkUpload.scan_pages].
  rewrite (bind_returned _ _ _ _ _ (call_answered remote _ w _ _ (Hl 1))).
  rewrite Hpage. rewrite length_app. cbn [List.length].
  replace (List.length before + Datatypes.S (List.length after))
    with (Datatypes.S (List.length before + List.length after)) by lia.
  cbn [Nat.eqb]. rewrite check_page_untitled; [reflexivity|exact Hu|].
  apply (Forall_impl _ (P := fun q => titled q /\ same_title title q = false));
    [|exact Hbefore].
  intros q [Ht Hs]. unfold titled in Ht. unfold same_title in Hs.
  destruct (BulkUpload.postTitleRaw q) as [raw|]; [|contradiction]. now exists raw.
Qed.

End ScanSoundness.

(** ** The payload of a row *)

Section Payload.

Context {S : Type} (remote : Remote S) (platform : Platform).

Lemma trimmed_some o s : trimmed o = Some s -> s <> [] /\ trim s = s.
Proof.
  destruct o as [raw|]; [|discriminate]. cbn [trimmed].
  destruct (trim raw) as [|c t] eqn:E; [discriminate|]. cbn [nonempty].
  intros H. injection H as <-. split; [discriminate|]. rewrite <- E. apply trim_idem.
Qed.

Lemma resolveTerms_no_zero termString taxonomy delayMs w ids w' :
  BulkUpload.resolveTerms remote termString taxonomy delayMs w = (Returned ids, w') ->
  ~ In 0%Z ids.
Proof.
  unfold BulkUpload.resolveTerms. destruct (blank termString).
  - intros H. injection H as <- _. auto.
  - destruct (resolveTerms_loop_calls remote taxonomy delayMs
                (filter nonempty (map trim (split_on "," termString))) [] w)
      as (ids' & w2 & new & E & _ & _ & _ & Hzero).
    rewrite E. intros H. injection H as <- _. apply Hzero. auto.
Qed.

Lemma field_terms_no_zero (field : option jsstring) taxonomy delayMs w ids w' :
  match field with
  | Some raw =>
      if nonempty (trim raw) then BulkUpload.resolveTerms remote raw taxonomy delayMs
      else ret []
  | None => ret []
  end w = (Returned ids, w') ->
  ~ In 0%Z ids.
Proof.
  destruct field as [raw|]; [destruct (nonempty (trim raw))|].
  - apply resolveTerms_no_zero.
  - intros H. injection H as <- _. auto.
  - intros H. injection H as <- _. auto.
Qed.

Lemma some_if_nonempty (ids : list Z) l :
  (if Nat.ltb 0 (List.length ids) then Some ids else None) = Some l -> l = ids /\ l <> [].
Proof.
  destruct ids; cbn; [discriminate|]. intros H. injection H as <-. now split.
Qed.

Lemma trimmed_cases (o : option jsstring) :
  (forall raw, o = Some raw -> trim raw <> [] -> trimmed o = Some (trim raw))
  /\ (o = None \/ (exists raw, o = Some raw /\ trim raw = []) -> trimmed o = None).
Proof.
  split.
  - intros raw -> Hne. cbn [trimmed]. now destruct (trim raw).
  - intros [->|(raw & -> & E)]; cbn [trimmed]; [reflexivity|now rewrite E].
Qed.

(** X22. The payload that is sent for a row, field by field.  The
    title and the content are the trimmed ones of the row, and are not
    empty.  The status is the trimmed status of the row when that is
    not empty, and the default status otherwise.  The slug and the
    excerpt are the trimmed ones of the row when those are not empty,
    and are not sent otherwise.  Lists of categories and tags, when
    sent, are not empty and hold no zero; the featured image, when
    sent, is not zero; and the custom fields, when sent, are what the
    parser made of the row's JSON text. *)
Theorem buildPostData_payload row config w postData w1 :
  BulkUpload.buildPostData remote platform row config w = (Returned postData, w1) ->
  (exists raw, title row = Some raw /\ pd_title postData = trim raw /\ trim raw <> [])
  /\ (exists raw, content row = Some raw /\ pd_content postData = trim raw
                  /\ trim raw <> [])
  /\ ((forall raw, status row = Some raw -> trim raw <> [] ->
                   pd_status postData = trim raw)
      /\ (status row = None \/ (exists raw, status row = Some raw /\ trim raw = []) ->
          pd_status postData = DEFAULT_STATUS config))
  /\ ((forall raw, slug row = Some raw -> trim raw <> [] ->
                   pd_slug postData = Some (trim raw))
      /\ (slug row = None \/ (exists raw, slug row = Some raw /\ trim raw = []) ->
          pd_slug postData = None))
  /\ ((forall raw, excerpt row = Some raw -> trim raw <> [] ->
                   pd_excerpt postData = Some (trim raw))
      /\ (excerpt row = None \/ (exists raw, excerpt row = Some raw /\ trim raw = []) ->
          pd_excerpt postData = None))
  /\ (forall ids, pd_categories postData = Some ids -> ids <> [] /\ ~ In 0%Z ids)
  /\ (forall ids, pd_tags postData = Some ids -> ids <> [] /\ ~ In 0%Z ids)
  /\ (forall id, pd_featured_media postData = Some id -> id <> 0%Z)
  /\ (forall json, pd_acf postData = Some json ->
        exists raw, acf_json row = Some raw /\ JSON_parse platform raw = Some json)
  /\ ((acf_json row = None \/ (exists raw, acf_json row = Some raw /\ trim raw = []) ->
       pd_acf postData = None)
      /\ (categories row = None
          \/ (exists raw, categories row = Some raw /\ trim raw = []) ->
          pd_categories postData = None)
      /\ (tags row = None \/ (exists raw, tags row = Some raw /\ trim raw = []) ->
          pd_tags postData = None)
      /\ ((featured_image_path row = None
           \/ exists raw, featured_image_path row = Some raw /\ trim raw = []) ->
          (featured_image_url row = None
           \/ exists raw, featured_image_url row = Some raw /\ trim raw = []) ->
          pd_featured_media postData = None)).
Proof.
  unfold BulkUpload.buildPostData.
  destruct (absent_or_blank (title row)) eqn:Et; [discriminate|].
  destruct (absent_or_blank (content row)) eqn:Ec; [discriminate|].
  intros E.
  apply bind_inv in E as (categoryIds & wa & Ecat & E).
  apply bind_inv in E as (tagIds & wb & Etag & E).
  apply bind_inv in E as (mediaId & wc & Emedia & E).
  injection E as <- _.
  cbn [pd_title pd_content pd_status pd_slug pd_excerpt pd_categories pd_tags
       pd_featured_media pd_acf].
  apply absent_or_blank_false in Et as (t & Et & Htn).
  apply absent_or_blank_false in Ec as (c & Ec & Hcn).
  rewrite Et, Ec. cbn [text_of].
  split; [exists t; repeat split; now destruct (trim t)|].
  split; [exists c; repeat split; now destruct (trim c)|].
  split.
  { destruct (trimmed_cases (status row)) as [Hsome Hnone]. split.
    - intros raw Hr Hne. rewrite (Hsome raw Hr Hne). cbn [or_else].
      now destruct (trim raw).
    - intros H. now rewrite (Hnone H). }
  split; [apply trimmed_cases|]. split; [apply trimmed_cases|].
  split.
  { intros ids H. apply some_if_nonempty in H as [-> Hne]. split; [exact Hne|].
    apply (field_terms_no_zero _ _ _ _ _ _ Ecat). }
  split.
  { intros ids H. apply some_if_nonempty in H as [-> Hne]. split; [exact Hne|].
    apply (field_terms_no_zero _ _ _ _ _ _ Etag). }
  split.
  { intros id. destruct mediaId as [z|]; [|discriminate]. cbn [truthy_id].
    destruct (Z.eqb_spec z 0); cbn [negb]; [discriminate|].
    intros H. now injection H as <-. }
  split.
  { intros json. destruct (acf_json row) as [raw|]; [|discriminate].
    destruct (nonempty (trim raw)); [|discriminate]. intros H. now exists raw. }
  assert (forall raw, trim raw = [] -> nonempty (trim raw) = false) as Hblank
    by (now intros raw ->).
  split; [|split; [|split]].
  - intros [->|(raw & -> & E)]; [reflexivity|]. now rewrite (Hblank raw E).
  - intros H.
    assert (categoryIds = []) as ->; [|reflexivity].
    destruct H as [H|(raw & H & E)]; rewrite H in Ecat;
      [|rewrite (Hblank raw E) in Ecat]; now injection Ecat.
  - intros H.
    assert (tagIds = []) as ->; [|reflexivity].
    destruct H as [H|(raw & H & E)]; rewrite H in Etag;
      [|rewrite (Hblank raw E) in Etag]; now injection Etag.
  - intros Hp Hu.
    rewrite (proj2 (trimmed_cases (featured_image_path row)) Hp) in Emedia.
    rewrite (proj2 (trimmed_cases (featured_image_url row)) Hu) in Emedia.
    injection Emedia as <- _. reflexivity.
Qed.

(** X23. What can fail a row before the lookups: a missing title, a
    missing content, or a featured image on the local disk that exists
    and cannot be read.  Nothing else does: labels that cannot be
    resolved, JSON text that cannot be parsed, a download or an upload
    that fails leave the row going. *)
Theorem buildPostData_failures row config w e w1 :
  BulkUpload.buildPostData remote platform row config w = (Thrown e, w1) ->
  (absent_or_blank (title row) = true
   /\ e = plain_error (str "Missing required field: title") /\ w1 = w)
  \/ (absent_or_blank (content row) = true
      /\ e = plain_error (str "Missing required field: content") /\ w1 = w)
  \/ (exists imagePath,
        (trimmed (featured_image_path row) = Some imagePath
         \/ (trimmed (featured_image_path row) = None
             /\ trimmed (featured_image_url row) = Some imagePath))
        /\ fs_existsSync platform (path_resolve platform imagePath) = true
        /\ fs_readFileSync platform (path_resolve platform imagePath) = inl e).
Proof.
  unfold BulkUpload.buildPostData.
  destruct (absent_or_blank (title row)) eqn:Et.
  { intros H. injection H as <- <-. now left. }
  destruct (absent_or_blank (content row)) eqn:Ec.
  { intros H. injection H as <- <-. right. now left. }
  intros E. right. right.
  assert (forall (field : option jsstring) taxonomy w0,
            exists ids w0',
              match field with
              | Some raw =>
                  if nonempty (trim raw)
                  then BulkUpload.resolveTerms remote raw taxonomy (REQUEST_DELAY_MS config)
                  else ret []
              | None => ret []
              end w0 = (Returned ids, w0')) as Hterms.
  { intros [raw|] taxonomy w0; [destruct (nonempty (trim raw))|].
    - apply resolveTerms_returns.
    - now exists [], w0.
    - now exists [], w0. }
  destruct (Hterms (categories row) tax_categories w) as (categoryIds & wa & Ea).
  rewrite (bind_returned _ _ _ _ _ Ea) in E.
  destruct (Hterms (tags row) tax_tags wa) as (tagIds & wb & Eb).
  rewrite (bind_returned _ _ _ _ _ Eb) in E.
  set (imagePath := match trimmed (featured_image_path row) with
                    | Some p => Some p
                    | None => trimmed (featured_image_url row)
                    end) in *.
  destruct imagePath as [p|] eqn:Ep.
  2:{ rewrite bind_ret in E. discriminate. }
  destruct (BulkUpload.uploadMedia remote platform p (REQUEST_DELAY_MS config) wb)
    as [[mediaId|e'|] w'] eqn:Eu.
  - rewrite (bind_returned _ _ _ _ _ Eu) in E. discriminate.
  - rewrite (bind_thrown _ _ _ _ _ Eu) in E. injection E as <- _.
    destruct (uploadMedia_thrown remote platform _ _ _ _ _ Eu) as (_ & Hex & Hread).
    exists p. repeat split; auto. subst imagePath.
    destruct (trimmed (featured_image_path row)) as [q|].
    + left. congruence.
    + right. now split.
  - unfold bind in E. rewrite Eu in E. discriminate.
Qed.

End Payload.

(** ** The further properties on sample sites *)

Lemma createOrUpdatePost_result_witness :
  10 <= 10
  /\ exists result w' ws,
       BulkUpload.createOrUpdatePost reference_site reference_platform 10
         (sample_row "New" "text") 1 sample_config (fresh sample_site)
       = (Returned result, w')
       /\ writes (calls w') = writes (calls (fresh sample_site)) ++ ws
       /\ List.length ws <= 1.
Proof.
  split; [lia|].
  destruct (createOrUpdatePost_result reference_site reference_platform 10
              (sample_row "New" "text") 1 sample_config (fresh sample_site) (le_n 10))
    as (result & w' & ws & E & Hw & Hlen & _).
  exists result, w', ws. repeat split; assumption.
Defined.

Lemma batch_write_budget_witness :
  10 <= 10
  /\ exists o w' ws,
       BulkUpload.processCsvFile reference_site (csv_platform sample_rows) 10
         (str "posts.csv") sample_config (fresh sample_site) = (o, w')
       /\ writes (calls w') = writes (calls (fresh sample_site)) ++ ws
       /\ List.length ws <= List.length sample_rows.
Proof.
  split; [lia|].
  destruct (batch_write_budget reference_site (csv_platform sample_rows) 10
              (str "posts.csv") sample_config (fresh sample_site) (le_n 10))
    as (o & w' & ws & E & Hw & Hlen & _).
  exists o, w', ws. repeat split; try assumption. now apply Hlen.
Defined.

Lemma batch_throws_before_any_row_witness :
  10 <= 10
  /\ exists o w',
       Cli.processCsvFile reference_site (csv_platform []) sample_system 10
         (str "posts.csv") None (fresh sample_site) = (o, w')
       /\ o <> Unfinished
       /\ (forall e, o = Thrown e -> message e = str "CSV file is empty")
       /\ calls w' = [(GetProbe, true)].
Proof.
  split; [lia|].
  destruct (batch_throws_before_any_row reference_site (csv_platform []) sample_system 10
              (str "posts.csv") None (fresh sample_site) (le_n 10))
    as (o & w' & E & Hfin & _).
  exists o, w'. split; [exact E|]. split; [exact Hfin|].
  injection E as <- <-. split; [|reflexivity].
  intros e H. now injection H as <-.
Defined.

Lemma findPostByTitle_sound_witness :
  lists reference_site (site (fresh sample_site)) (site_posts sample_site)
  /\ BulkUpload.findPostByTitle reference_site 10 (str "hello world") (fresh sample_site)
     = (Returned (Some 7%Z),
        {| site := sample_site; calls := [(GetPosts BulkUpload.perPage 1, true)] |})
  /\ exists p, In p (firstn 1000 (site_posts sample_site))
               /\ post_id p = 7%Z /\ same_title (str "hello world") p = true.
Proof.
  assert (lists reference_site (site (fresh sample_site)) (site_posts sample_site)) as Hl
    by (apply reference_site_lists; reflexivity).
  split; [exact Hl|]. split; [reflexivity|].
  exact (findPostByTitle_sound reference_site 10 (str "hello world")
           (site_posts sample_site) (fresh sample_site) 7%Z _ Hl eq_refl).
Defined.

Lemma untitled_post_stops_the_scan_witness :
  1 <= 10
  /\ blank (str "hello world") = false
  /\ lists reference_site (site (fresh untitled_first_site)) (site_posts untitled_first_site)
  /\ page_of (site_posts untitled_first_site) 1
     = [] ++ untitled_post :: site_posts sample_site
  /\ BulkUpload.postTitleRaw untitled_post = None
  /\ (exists p, In p (site_posts untitled_first_site)
                /\ same_title (str "hello world") p = true)
  /\ BulkUpload.findPostByTitle reference_site 10 (str "hello world")
       (fresh untitled_first_site)
     = (Returned None,
        {| site := untitled_first_site;
           calls := [(GetPosts BulkUpload.perPage 1, true)] |}).
Proof.
  assert (lists reference_site (site (fresh untitled_first_site))
                (site_posts untitled_first_site)) as Hl
    by (apply reference_site_lists; reflexivity).
  assert (1 <= 10) as Hf by lia.
  split; [exact Hf|]. split; [reflexivity|]. split; [exact Hl|].
  split; [reflexivity|]. split; [reflexivity|]. split.
  - exists (sample_post 7 "Hello <b>World</b>" "draft" "hello").
    split; [right; now left|reflexivity].
  - exact (untitled_post_stops_the_scan reference_site 10 (str "hello world")
             (site_posts untitled_first_site) (fresh untitled_first_site)
             [] untitled_post (site_posts sample_site)
             Hf eq_refl Hl eq_refl eq_refl (Forall_nil _)).
Defined.

Lemma buildPostData_payload_witness :
  BulkUpload.buildPostData reference_site reference_platform
    (with_slug " other " (sample_row "  Brand new " "body")) sample_config
    (fresh sample_site)
  = (Returned (with_payload_slug "other" (sample_payload "Brand new" "body")),
     fresh sample_site)
  /\ pd_slug (with_payload_slug "other" (sample_payload "Brand new" "body"))
     = Some (trim (str " other "))
  /\ pd_status (with_payload_slug "other" (sample_payload "Brand new" "body"))
     = DEFAULT_STATUS sample_config.
Proof.
  split; [reflexivity|].
  destruct (buildPostData_payload reference_site reference_platform
              (with_slug " other " (sample_row "  Brand new " "body")) sample_config
              (fresh sample_site) _ _ eq_refl)
    as (_ & _ & (_ & Hstatus) & (Hslug & _) & _).
  split.
  - apply (Hslug (str " other ") eq_refl). discriminate.
  - apply Hstatus. now left.
Defined.

Lemma buildPostData_failures_witness :
  BulkUpload.buildPostData reference_site unreadable_platform
    (with_image_path (str "cover.png") (sample_row "New" "text")) sample_config
    (fresh sample_site)
  = (Thrown (plain_error (str "EACCES: permission denied")), fresh sample_site)
  /\ fst (BulkUpload.createOrUpdatePost reference_site unreadable_platform 10
            (with_image_path (str "cover.png") (sample_row "New" "text")) 1 sample_config
            (fresh sample_site))
     = Returned (failed_result (with_image_path (str "cover.png") (sample_row "New" "text"))
                   1 (str "EACCES: permission denied"))
  /\ exists imagePath,
       fs_existsSync unreadable_platform (path_resolve unreadable_platform imagePath) = true
       /\ fs_readFileSync unreadable_platform (path_resolve unreadable_platform imagePath)
          = inl (plain_error (str "EACCES: permission denied")).
Proof.
  split; [reflexivity|]. split; [reflexivity|].
  destruct (buildPostData_failures reference_site unreadable_platform
              (with_image_path (str "cover.png") (sample_row "New" "text")) sample_config
              (fresh sample_site) _ _ eq_refl)
    as [(H & _)|[(H & _)|(imagePath & _ & Hex & Hread)]]; [discriminate|discriminate|].
  exists imagePath. split; assumption.
Defined.

(** * Title normalisation on UTF-16 strings *)

Arguments Utf16.is_space : simpl never.

Section Utf16Facts.

Import Utf16.

(** ** Replacement, suffixes and trimming *)

Lemma u_replace_from_skipn m rep k s :
  replace_from m rep k s = replace_all m rep (skipn k s).
Proof.
  revert k; induction s as [|c r IH]; intros [|k]; try reflexivity.
  cbn [replace_from skipn]. apply IH.
Qed.

Lemma u_replace_all_nil m rep : replace_all m rep [] = [].
Proof. reflexivity. Qed.

Lemma u_replace_all_hit m rep c r n :
  m (c :: r) = Some (S n) ->
  replace_all m rep (c :: r) = rep ++ replace_all m rep (skipn n r).
Proof.
  intros H. unfold replace_all at 1. cbn [replace_from]. rewrite H.
  now rewrite u_replace_from_skipn.
Qed.

Lemma u_replace_all_miss m rep c r :
  (forall n, m (c :: r) <> Some (S n)) ->
  replace_all m rep (c :: r) = c :: replace_all m rep r.
Proof.
  intros H. unfold replace_all. cbn [replace_from].
  destruct (m (c :: r)) as [[|n]|]; try reflexivity. now destruct (H n).
Qed.

Lemma u_replace_all_ind m rep (P : ustring -> ustring -> Prop) :
  P [] [] ->
  (forall c r, (forall n, m (c :: r) <> Some (S n)) ->
     P r (replace_all m rep r) -> P (c :: r) (c :: replace_all m rep r)) ->
  (forall c r n, m (c :: r) = Some (S n) ->
     P (skipn n r) (replace_all m rep (skipn n r)) ->
     P (c :: r) (rep ++ replace_all m rep (skipn n r))) ->
  forall s, P s (replace_all m rep s).
Proof.
  intros Hnil Hmiss Hhit s.
  remember (List.length s) as len eqn:E.
  revert s E. induction len as [len IH] using lt_wf_ind. intros [|c r] E.
  - exact Hnil.
  - destruct (m (c :: r)) as [[|n]|] eqn:Hm.
    + rewrite u_replace_all_miss by congruence.
      apply Hmiss; [congruence|]. apply (IH (List.length r)); cbn in E; [lia|reflexivity].
    + rewrite (u_replace_all_hit _ _ _ _ _ Hm). apply Hhit; [exact Hm|].
      apply (IH (List.length (skipn n r))); [|reflexivity].
      cbn in E. rewrite length_skipn. lia.
    + rewrite u_replace_all_miss by congruence.
      apply Hmiss; [congruence|]. apply (IH (List.length r)); cbn in E; [lia|reflexivity].
Qed.

Lemma u_replace_all_In m rep c s :
  In c (replace_all m rep s) -> In c s \/ In c rep.
Proof.
  revert s. apply (u_replace_all_ind m rep (fun s out => In c out -> In c s \/ In c rep)).
  - intros [].
  - intros d r _ IH [->|H]; [left; now left|].
    destruct (IH H); [left; now right|now right].
  - intros d r n _ IH H. apply in_app_or in H as [H|H]; [now right|].
    destruct (IH H) as [H'|H']; [|now right].
    left; right. revert H'. clear. revert r. induction n; intros [|x r]; cbn; auto.
Qed.

Lemma u_all_suffixes_skipn P n s : all_suffixes P s -> all_suffixes P (skipn n s).
Proof.
  revert s; induction n; intros [|c r]; cbn; auto. intros [_ H]. now apply IHn.
Qed.

Lemma u_replace_all_fixed m rep s :
  all_suffixes (fun c r => forall n, m (c :: r) = Some (S n) -> n = 0 /\ rep = [c]) s ->
  replace_all m rep s = s.
Proof.
  induction s as [|c r IH]; [reflexivity|]. intros [H Hr].
  destruct (m (c :: r)) as [[|n]|] eqn:Hm.
  - rewrite u_replace_all_miss by congruence. now rewrite IH.
  - destruct (H n eq_refl) as [-> Hrep]. rewrite (u_replace_all_hit _ _ _ _ _ Hm).
    cbn [skipn]. rewrite IH by assumption. now rewrite Hrep.
  - rewrite u_replace_all_miss by congruence. now rewrite IH.
Qed.

Lemma u_all_suffixes_impl (P Q : N -> ustring -> Prop) s :
  (forall c r, P c r -> Q c r) -> all_suffixes P s -> all_suffixes Q s.
Proof. intros H; induction s; cbn; intuition. Qed.

Lemma u_all_suffixes_trim_start P s : all_suffixes P s -> all_suffixes P (trim_start s).
Proof.
  induction s as [|c r IH]; cbn; auto. intros [H Hr].
  destruct (is_space c); cbn; auto.
Qed.

Lemma u_trim_end_In c s : In c (trim_end s) -> In c s.
Proof.
  induction s as [|x r IH]; cbn; auto.
  destruct (trim_end r) as [|y r'].
  - destruct (is_space x); cbn; intuition.
  - intros [->|H]; auto.
Qed.

Lemma u_all_suffixes_trim_end (P : N -> ustring -> Prop) s :
  (forall c r, P c r -> P c (trim_end r)) ->
  all_suffixes P s -> all_suffixes P (trim_end s).
Proof.
  intros HP. induction s as [|c r IH]; cbn; auto. intros [H Hr].
  specialize (IH Hr). apply HP in H.
  destruct (trim_end r) as [|y r'].
  - destruct (is_space c); cbn; auto.
  - cbn. split; [exact H|exact IH].
Qed.

Lemma u_index_of_None c s : index_of c s = None -> ~ In c s.
Proof.
  induction s as [|x r IH]; cbn; [tauto|].
  destruct (N.eqb_spec x c); [discriminate|].
  destruct (index_of c r); [discriminate|]. intros _ [H|H]; [congruence|now apply IH].
Qed.

Lemma u_index_of_Some c s i : index_of c s = Some i -> In c s.
Proof.
  revert i; induction s as [|x r IH]; cbn; [discriminate|]. intros i.
  destruct (N.eqb_spec x c); [now left|].
  destruct (index_of c r) as [j|]; [|discriminate]. right. now apply (IH j).
Qed.

Lemma u_match_tag_miss c r :
  (forall n, match_tag (c :: r) <> Some (S n)) -> c = lt_sign -> ~ In gt_sign r.
Proof.
  intros H ->. cbn in H. apply u_index_of_None.
  destruct (index_of gt_sign r) as [i|]; [|reflexivity].
  exfalso. apply (H (i + 1)). cbn. f_equal. lia.
Qed.

Lemma u_match_tag_hit c r n : match_tag (c :: r) = Some n -> c = lt_sign /\ In gt_sign r.
Proof.
  cbn. destruct (N.eqb_spec c lt_sign); [|discriminate].
  destruct (index_of gt_sign r) as [i|] eqn:E; [|discriminate].
  intros _. split; [assumption|]. now apply (u_index_of_Some _ _ i).
Qed.

Lemma u_tag_free_strip s : tag_free (replace_all match_tag [] s).
Proof.
  pattern s. revert s.
  apply (u_replace_all_ind match_tag [] (fun _ out => tag_free out)).
  - exact I.
  - intros c r Hm IH. split; [|exact IH]. intros Hc Hin.
    apply u_replace_all_In in Hin as [Hin|[]]. now apply (u_match_tag_miss c r).
  - intros c r n _ IH. exact IH.
Qed.

Lemma u_tag_free_app rep s : ~ In lt_sign rep -> tag_free s -> tag_free (rep ++ s).
Proof.
  induction rep as [|x rep IH]; cbn; auto. intros Hx Hs. split.
  - intros ->. tauto.
  - apply IH; tauto.
Qed.

Lemma u_tag_free_replace m rep s :
  ~ In lt_sign rep -> ~ In gt_sign rep -> tag_free s -> tag_free (replace_all m rep s).
Proof.
  intros Hlt Hgt. revert s.
  apply (u_replace_all_ind m rep (fun s out => tag_free s -> tag_free out)).
  - auto.
  - intros c r _ IH [Hc Hr]. split; [|now apply IH].
    intros E Hin. apply u_replace_all_In in Hin as [Hin|Hin]; [now apply Hc|tauto].
  - intros c r n _ IH [_ Hr]. apply u_tag_free_app; [exact Hlt|].
    apply IH. now apply u_all_suffixes_skipn.
Qed.

Lemma u_tag_free_trim s : tag_free s -> tag_free (trim s).
Proof.
  intros H. apply u_all_suffixes_trim_end.
  - intros c r Hc E Hin. apply u_trim_end_In in Hin. tauto.
  - now apply u_all_suffixes_trim_start.
Qed.

Lemma u_tag_free_fixed s : tag_free s -> replace_all match_tag [] s = s.
Proof.
  intros H. apply u_replace_all_fixed. revert H. apply u_all_suffixes_impl.
  intros c r Hc n Hm. apply u_match_tag_hit in Hm as [E Hin]. tauto.
Qed.

Lemma u_match_entity_hit c r n :
  match_entity (c :: r) = Some n ->
  c = amp /\ exists d r', r = d :: r' /\ d <> semi /\ In semi r'.
Proof.
  destruct r as [|d r']; cbn; [discriminate|].
  destruct (N.eqb_spec c amp); [|discriminate].
  destruct (N.eqb_spec d semi); [discriminate|]. cbn.
  destruct (index_of semi r') as [i|] eqn:E; [|discriminate].
  intros _. split; [assumption|]. exists d, r'. repeat split; auto.
  now apply (u_index_of_Some _ _ i).
Qed.

Lemma u_match_entity_miss d r' :
  (forall n, match_entity (amp :: d :: r') <> Some (S n)) -> d = semi \/ ~ In semi r'.
Proof.
  intros H. cbn in H. destruct (N.eqb_spec d semi); [now left|right]. cbn in H.
  apply u_index_of_None. destruct (index_of semi r') as [i|]; [|reflexivity].
  exfalso. apply (H (i + 2)). cbn. f_equal. lia.
Qed.

Lemma u_entity_free_strip s : entity_free (replace_all match_entity [] s).
Proof.
  pattern s. revert s.
  apply (u_replace_all_ind match_entity [] (fun _ out => entity_free out)).
  - exact I.
  - intros c r Hm IH. split; [|exact IH]. intros ->.
    destruct r as [|d r']; [exact I|].
    destruct (u_match_entity_miss _ _ Hm) as [->|Hno].
    + rewrite u_replace_all_miss; [now left|].
      intros n Hn. apply u_match_entity_hit in Hn as [Hn _]. discriminate.
    + destruct (replace_all match_entity [] (d :: r')) as [|e out] eqn:E; [exact I|].
      destruct (N.eqb_spec e semi) as [->|He]; [now left|right].
      intros Hin.
      assert (In semi (replace_all match_entity [] (d :: r'))) as Hin'
        by (rewrite E; now right).
      apply u_replace_all_In in Hin' as [[->|Hin']|[]]; [|tauto].
      (* the head [d] is a semicolon: it is copied, so [e] is one too *)
      rewrite u_replace_all_miss in E.
      * injection E as <- _. congruence.
      * intros n Hn. apply u_match_entity_hit in Hn as [Hn _]. discriminate.
  - intros c r n _ IH. exact IH.
Qed.

Lemma u_startsWith_app s p : startsWith s p = true -> exists t, s = p ++ t.
Proof.
  revert s; induction p as [|x p IH]; intros [|y s]; cbn [startsWith];
    try discriminate.
  - intros _. now exists [].
  - intros _. now exists (y :: s).
  - destruct (N.eqb_spec x y) as [->|]; cbn [andb]; [|discriminate].
    intros H. destruct (IH _ H) as [t ->]. now exists t.
Qed.

Lemma u_entity_free_no_lit d p s :
  d <> semi -> In semi p -> entity_free s ->
  forall rep, replace_all (match_lit (amp :: d :: p)) rep s = s.
Proof.
  intros Hd Hp H rep. apply u_replace_all_fixed. revert H. apply u_all_suffixes_impl.
  intros c r Hc n Hm. exfalso. unfold match_lit in Hm.
  destruct (startsWith (c :: r) (amp :: d :: p)) eqn:E; [|discriminate].
  apply u_startsWith_app in E as [t E]. cbn [app] in E. inversion E; subst.
  destruct (Hc eq_refl) as [?|Hno]; [contradiction|].
  apply Hno. apply in_or_app. now left.
Qed.

Lemma u_entity_free_fixed s : entity_free s -> replace_all match_entity [] s = s.
Proof.
  intros H. apply u_replace_all_fixed. revert H. apply u_all_suffixes_impl.
  intros c r Hc n Hm. exfalso.
  apply u_match_entity_hit in Hm as (-> & d & r' & -> & Hd & Hin).
  destruct (Hc eq_refl); tauto.
Qed.

Lemma u_semi_head_or_absent (s : ustring) :
  ~ In semi s -> match s with [] => True | d :: r' => d = semi \/ ~ In semi r' end.
Proof. destruct s; cbn; tauto. Qed.

Lemma u_match_spaces_hit c r n :
  match_spaces (c :: r) = Some (S n) -> is_space c = true /\ space_run r = n.
Proof.
  unfold match_spaces. cbn. destruct (is_space c); [|discriminate].
  intros H. injection H as H. auto.
Qed.

Lemma u_match_spaces_miss c r :
  (forall n, match_spaces (c :: r) <> Some (S n)) -> is_space c = false.
Proof.
  unfold match_spaces. cbn. destruct (is_space c); [|reflexivity].
  intros H. now destruct (H (space_run r)).
Qed.

Lemma u_replace_spaces_head rep c r :
  is_space c = false ->
  replace_all match_spaces rep (c :: r) = c :: replace_all match_spaces rep r.
Proof.
  intros H. apply u_replace_all_miss. intros n Hn.
  apply u_match_spaces_hit in Hn as [Hn _]. congruence.
Qed.

Lemma u_entity_free_collapse s :
  entity_free s -> entity_free (replace_all match_spaces (ustr " ") s).
Proof.
  revert s.
  apply (u_replace_all_ind match_spaces (ustr " ")
           (fun s out => entity_free s -> entity_free out)).
  - auto.
  - intros c r _ IH [Hc Hr]. split; [|now apply IH]. intros E. specialize (Hc E).
    destruct r as [|d r']; [exact I|].
    destruct (N.eqb_spec d semi) as [->|Hd].
    + rewrite u_replace_spaces_head by reflexivity. now left.
    + apply u_semi_head_or_absent. intros Hin.
      apply u_replace_all_In in Hin as [[?|Hin]|[Hin|[]]]; try tauto; discriminate.
  - intros c r n Hm IH [_ Hr]. split.
    + discriminate.
    + apply IH. now apply u_all_suffixes_skipn.
Qed.

Lemma u_entity_free_trim s : entity_free s -> entity_free (trim s).
Proof.
  intros H. apply u_all_suffixes_trim_end; [|now apply u_all_suffixes_trim_start].
  intros c r Hc E. specialize (Hc E). destruct r as [|d r']; [exact I|].
  cbn. destruct (trim_end r') as [|y t] eqn:Et.
  - destruct (is_space d); [exact I|]. right. tauto.
  - destruct Hc as [->|Hc]; [now left|right].
    intros Hin. apply Hc. apply u_trim_end_In. now rewrite Et.
Qed.

Lemma u_space_run_skipn s : space_run (skipn (space_run s) s) = 0.
Proof.
  induction s as [|c r IH]; [reflexivity|]. cbn [space_run].
  destruct (is_space c) eqn:E; cbn [skipn space_run]; [exact IH|now rewrite E].
Qed.

Lemma u_space_run_replace rep s :
  space_run s = 0 -> space_run (replace_all match_spaces rep s) = 0.
Proof.
  destruct s as [|c r]; [reflexivity|]. cbn [space_run].
  destruct (is_space c) eqn:E; [discriminate|]. intros _.
  rewrite u_replace_spaces_head by exact E. cbn. now rewrite E.
Qed.

Lemma u_single_spaced_collapse s : single_spaced (replace_all match_spaces (ustr " ") s).
Proof.
  pattern s. revert s.
  apply (u_replace_all_ind match_spaces (ustr " ") (fun _ out => single_spaced out)).
  - exact I.
  - intros c r Hm IH. split; [|exact IH]. intros E.
    apply u_match_spaces_miss in Hm. congruence.
  - intros c r n Hm IH. apply u_match_spaces_hit in Hm as [_ <-]. split; [|exact IH].
    intros _. split; [reflexivity|]. apply u_space_run_replace, u_space_run_skipn.
Qed.

Lemma u_space_run_trim_end s : space_run s = 0 -> space_run (trim_end s) = 0.
Proof.
  destruct s as [|c r]; [reflexivity|]. cbn.
  destruct (is_space c) eqn:E; [discriminate|]. intros _.
  destruct (trim_end r); cbn; now rewrite E.
Qed.

Lemma u_space_run_trim_start s : space_run (trim_start s) = 0.
Proof.
  induction s as [|c r IH]; [reflexivity|]. cbn.
  destruct (is_space c) eqn:E; [exact IH|]. cbn. now rewrite E.
Qed.

Lemma u_single_spaced_trim s : single_spaced s -> single_spaced (trim s).
Proof.
  intros H. apply u_all_suffixes_trim_end; [|now apply u_all_suffixes_trim_start].
  intros c r Hc E. destruct (Hc E) as [-> Hr]. split; [reflexivity|].
  now apply u_space_run_trim_end.
Qed.

Lemma u_single_spaced_fixed s :
  single_spaced s -> replace_all match_spaces (ustr " ") s = s.
Proof.
  intros H. apply u_replace_all_fixed. revert H. apply u_all_suffixes_impl.
  intros c r Hc n Hm. apply u_match_spaces_hit in Hm as [E <-].
  destruct (Hc E) as [-> ->]. split; reflexivity.
Qed.

Lemma u_trim_end_idem s : trim_end (trim_end s) = trim_end s.
Proof.
  induction s as [|c r IH]; [reflexivity|]. cbn.
  destruct (trim_end r) as [|y t] eqn:E.
  - destruct (is_space c) eqn:Ec; cbn; [reflexivity|now rewrite Ec].
  - cbn [trim_end] in *. now rewrite IH.
Qed.

Lemma u_trim_start_fixed s : space_run s = 0 -> trim_start s = s.
Proof.
  destruct s as [|c r]; [reflexivity|]. cbn. now destruct (is_space c).
Qed.

Lemma u_trim_idem s : trim (trim s) = trim s.
Proof.
  unfold trim. rewrite (u_trim_start_fixed (trim_end (trim_start s))).
  - apply u_trim_end_idem.
  - apply u_space_run_trim_end, u_space_run_trim_start.
Qed.

Lemma u_trim_start_split s :
  exists ws, s = ws ++ trim_start s /\ Forall (fun c => is_space c = true) ws.
Proof.
  induction s as [|c r (ws & E & Hws)]; [now exists []|]. cbn [trim_start].
  destruct (is_space c) eqn:Ec.
  - exists (c :: ws). cbn [app]. split; [now rewrite <- E|now constructor].
  - now exists [].
Qed.

Lemma u_trim_end_split s :
  exists ws, s = trim_end s ++ ws /\ Forall (fun c => is_space c = true) ws.
Proof.
  induction s as [|c r (ws & E & Hws)]; [now exists []|]. cbn [trim_end].
  destruct (trim_end r) as [|d t] eqn:Er.
  - destruct (is_space c) eqn:Ec.
    + exists (c :: ws). cbn [app] in *. split; [now rewrite E|now constructor].
    + exists ws. cbn [app] in *. split; [now rewrite E|exact Hws].
  - exists ws. cbn [app] in *. split; [now rewrite E at 1|exact Hws].
Qed.

Lemma u_trim_split s :
  exists ws1 ws2,
    s = ws1 ++ trim s ++ ws2
    /\ Forall (fun c => is_space c = true) ws1
    /\ Forall (fun c => is_space c = true) ws2.
Proof.
  destruct (u_trim_start_split s) as (ws1 & E1 & H1).
  destruct (u_trim_end_split (trim_start s)) as (ws2 & E2 & H2).
  exists ws1, ws2. unfold trim. now rewrite <- E2, <- E1.
Qed.


(** ** Case mapping *)

Lemma u_all_suffixes_at (P : N -> ustring -> Prop) a c r :
  all_suffixes P (a ++ c :: r) -> P c r.
Proof.
  induction a as [|x a IH]; cbn [app all_suffixes]; intros [H1 H2]; auto.
Qed.

Lemma u_all_suffixes_intro (P : N -> ustring -> Prop) t :
  (forall x c y, t = x ++ c :: y -> P c y) -> all_suffixes P t.
Proof.
  induction t as [|c r IH]; intros H; cbn [all_suffixes]; [exact I|]. split.
  - now apply (H [] c r).
  - apply IH. intros x d y ->. now apply (H (c :: x) d y).
Qed.

Lemma u_all_suffixes_Forall (P : N -> ustring -> Prop) (Q : N -> Prop) s :
  (forall c r, P c r -> Q c) -> all_suffixes P s -> Forall Q s.
Proof.
  intros H. induction s as [|c r IH]; cbn [all_suffixes]; [constructor|].
  intros [H1 H2]. constructor; eauto.
Qed.

Lemma u_delimiter_cases c :
  delimiter c = true ->
  c = sp \/ c = lt_sign \/ c = gt_sign \/ c = amp \/ c = semi.
Proof.
  unfold delimiter. rewrite !orb_true_iff, !N.eqb_eq. tauto.
Qed.

Lemma u_is_space_delimiter c : delimiter c = true -> is_space c = true -> c = sp.
Proof.
  intros H Hs. destruct (u_delimiter_cases c H) as [-> | [-> | [-> | [-> | ->]]]];
    [reflexivity|vm_compute in Hs; discriminate..].
Qed.

Lemma u_plain_inv c : plain c = true -> delimiter c = false /\ is_space c = false.
Proof.
  unfold plain. rewrite andb_true_iff, !negb_true_iff. tauto.
Qed.

Lemma u_clean_split s :
  clean s ->
  Forall (fun c => plain c = true) s
  \/ exists a d b,
       s = a ++ d :: b /\ Forall (fun c => plain c = true) a
       /\ delimiter d = true /\ clean b.
Proof.
  induction s as [|c r IH]; [now left|]. intros H. inversion H as [|? ? Hc Hr]; subst.
  destruct (delimiter c) eqn:Ed.
  - right. now exists [], c, r.
  - assert (plain c = true) as Hp.
    { unfold plain. rewrite Ed. cbn [negb andb]. destruct (is_space c) eqn:Es; [|reflexivity].
      rewrite (Hc eq_refl) in Ed. discriminate. }
    destruct (IH Hr) as [Hall|(a & d & b & -> & Ha & Hd & Hb)].
    + left. now constructor.
    + right. exists (c :: a), d, b. repeat split; auto.
Qed.

Lemma u_first_delimiter p : forall x d y d' q,
  Forall (fun c => plain c = true) p ->
  delimiter d = true ->
  x ++ d :: y = p ++ d' :: q ->
  (x = p /\ d = d' /\ y = q) \/ exists x', x = p ++ d' :: x' /\ q = x' ++ d :: y.
Proof.
  induction p as [|c p IH]; intros x d y d' q Hp Hd E.
  - destruct x as [|c' x']; cbn [app] in E; injection E as -> <-.
    + now left.
    + right. now exists x'.
  - inversion Hp as [|? ? Hc Hp']; subst. destruct x as [|c' x']; cbn [app] in E.
    + injection E as -> _. apply u_plain_inv in Hc as [Hc _]. congruence.
    + injection E as -> E.
      destruct (IH _ _ _ _ _ Hp' Hd E) as [(-> & -> & ->)|(x'' & -> & ->)].
      * now left.
      * right. now exists x''.
Qed.

Section WithLowering.

Context (toLowerCase : ustring -> ustring) (HL : Lowering toLowerCase).

Lemma u_lower_nil : toLowerCase [] = [].
Proof. now rewrite (lower_ascii _ HL [] (Forall_nil _)). Qed.

Lemma u_lower_head d b :
  delimiter d = true -> toLowerCase (d :: b) = d :: toLowerCase b.
Proof.
  intros Hd. change (d :: b) with ([] ++ d :: b).
  now rewrite (lower_split _ HL [] d b Hd), u_lower_nil.
Qed.

(** A delimiter of the lower-cased string is a delimiter of the
    string, with the lower-cased sides on its sides. *)
Lemma u_lower_suffix s : clean s -> forall x d y,
  delimiter d = true ->
  toLowerCase s = x ++ d :: y ->
  exists a b, s = a ++ d :: b /\ x = toLowerCase a /\ y = toLowerCase b /\ clean b.
Proof.
  induction s as [s IH] using shorter_list_ind. intros Hs x d y Hd E.
  destruct (u_clean_split s Hs) as [Hall|(a & d' & b & -> & Ha & Hd' & Hb)].
  - exfalso. pose proof (lower_plain _ HL s Hall) as Hp. rewrite E in Hp.
    apply Forall_app in Hp as [_ Hp]. inversion Hp as [|? ? Hx _]; subst.
    apply u_plain_inv in Hx as [Hx _]. congruence.
  - rewrite (lower_split _ HL a d' b Hd') in E.
    destruct (u_first_delimiter _ _ _ _ _ _ (lower_plain _ HL a Ha) Hd (eq_sym E))
      as [(-> & -> & ->)|(x' & -> & E')].
    + now exists a, b.
    + destruct (IH b) with (x := x') (d := d) (y := y)
        as (a' & b' & -> & -> & -> & Hb'); auto.
      { rewrite length_app. cbn. lia. }
      exists (a ++ d' :: a'), b'. rewrite <- app_assoc. cbn [app].
      repeat split; auto. now rewrite (lower_split _ HL a d' a' Hd').
Qed.

Lemma u_lower_In d s :
  clean s -> delimiter d = true -> In d (toLowerCase s) -> In d s.
Proof.
  intros Hs Hd Hin. apply in_split in Hin as (x & y & E).
  destruct (u_lower_suffix s Hs x d y Hd E) as (a & b & -> & _).
  apply in_or_app. right. now left.
Qed.

Lemma u_lower_clean s : clean s -> clean (toLowerCase s).
Proof.
  induction s as [s IH] using shorter_list_ind. intros Hs.
  destruct (u_clean_split s Hs) as [Hall|(a & d & b & -> & Ha & Hd & Hb)].
  - apply (Forall_impl _ (P := fun c => plain c = true)); [|now apply (lower_plain _ HL)].
    intros c Hc E. apply u_plain_inv in Hc as [_ Hc]. congruence.
  - rewrite (lower_split _ HL a d b Hd). apply Forall_app. split.
    + apply (Forall_impl _ (P := fun c => plain c = true));
        [|now apply (lower_plain _ HL)].
      intros c Hc E. apply u_plain_inv in Hc as [_ Hc]. congruence.
    + constructor; [now apply u_is_space_delimiter|].
      apply IH; [|exact Hb]. rewrite length_app. cbn. lia.
Qed.

Lemma u_space_run_plain_head c r t :
  plain c = true -> space_run ((c :: r) ++ t) = 0.
Proof.
  intros Hc. apply u_plain_inv in Hc as [_ Hc]. cbn [app space_run]. now rewrite Hc.
Qed.

Lemma u_lower_space_run b :
  clean b -> space_run b = 0 -> space_run (toLowerCase b) = 0.
Proof.
  intros Hb Hrun.
  assert (forall a t, Forall (fun c => plain c = true) a -> a <> [] ->
                      space_run (toLowerCase a ++ t) = 0) as Hseg.
  { intros a t Ha Hne. pose proof (lower_plain _ HL a Ha) as Hp.
    pose proof (lower_nonempty _ HL a Hne) as Hn.
    destruct (toLowerCase a) as [|c r]; [contradiction|].
    inversion Hp; subst. now apply u_space_run_plain_head. }
  destruct (u_clean_split b Hb) as [Hall|(a & d & b' & -> & Ha & Hd & Hb')].
  - destruct b as [|c r]; [now rewrite u_lower_nil|].
    rewrite <- (app_nil_r (toLowerCase (c :: r))). now apply Hseg.
  - rewrite (lower_split _ HL a d b' Hd). destruct a as [|c a].
    + rewrite u_lower_nil. cbn [app space_run] in *. now destruct (is_space d).
    + now apply Hseg.
Qed.

Lemma u_tag_free_lower s : clean s -> tag_free s -> tag_free (toLowerCase s).
Proof.
  intros Hs Ht. apply u_all_suffixes_intro. intros x c y E -> Hin.
  destruct (u_lower_suffix s Hs x lt_sign y eq_refl E) as (a & b & -> & _ & -> & Hb).
  apply u_all_suffixes_at in Ht. apply (Ht eq_refl).
  now apply (u_lower_In gt_sign b Hb).
Qed.

Lemma u_entity_free_lower s : clean s -> entity_free s -> entity_free (toLowerCase s).
Proof.
  intros Hs Ht. apply u_all_suffixes_intro. intros x c y E ->.
  destruct (u_lower_suffix s Hs x amp y eq_refl E) as (a & b & -> & _ & -> & Hb).
  apply u_all_suffixes_at in Ht. specialize (Ht eq_refl).
  destruct b as [|e b']; [now rewrite u_lower_nil|].
  destruct (N.eqb_spec e semi) as [->|He].
  - rewrite (u_lower_head semi b' eq_refl). now left.
  - apply u_semi_head_or_absent. intros Hin.
    apply (u_lower_In semi _ Hb eq_refl) in Hin as [Hin|Hin]; [congruence|].
    destruct Ht as [Ht|Ht]; [congruence|contradiction].
Qed.

Lemma u_single_spaced_lower s :
  clean s -> single_spaced s -> single_spaced (toLowerCase s).
Proof.
  intros Hs Ht. apply u_all_suffixes_intro. intros x c y E Hc.
  assert (c = sp) as ->.
  { pose proof (u_lower_clean s Hs) as Hcl. rewrite E in Hcl.
    apply Forall_app in Hcl as [_ Hcl]. inversion Hcl; subst. auto. }
  split; [reflexivity|].
  destruct (u_lower_suffix s Hs x sp y eq_refl E) as (a & b & -> & _ & -> & Hb).
  apply u_all_suffixes_at in Ht. destruct (Ht eq_refl) as [_ Hrun].
  now apply u_lower_space_run.
Qed.

Lemma u_lower_spaces_l ws x :
  Forall (fun c => c = sp) ws -> toLowerCase (ws ++ x) = ws ++ toLowerCase x.
Proof.
  induction 1 as [|c ws -> _ IH]; [reflexivity|]. cbn [app].
  now rewrite (u_lower_head sp _ eq_refl), IH.
Qed.

Lemma u_lower_spaces_r ws x :
  Forall (fun c => c = sp) ws -> toLowerCase (x ++ ws) = toLowerCase x ++ ws.
Proof.
  intros Hws. destruct Hws as [|c ws -> Hws]; [now rewrite !app_nil_r|].
  rewrite (lower_split _ HL x sp ws eq_refl).
  rewrite <- (app_nil_r ws) at 1. now rewrite (u_lower_spaces_l ws [] Hws), u_lower_nil, app_nil_r.
Qed.

(** Trimming a lower-cased string whose only whitespace is the space
    leaves it lower-cased. *)
Lemma u_lower_trim_fixed v :
  clean v -> toLowerCase v = v -> toLowerCase (trim v) = trim v.
Proof.
  intros Hv Hfix. destruct (u_trim_split v) as (ws1 & ws2 & E & H1 & H2).
  remember (trim v) as core eqn:Ec. clear Ec. subst v.
  assert (forall ws, Forall (fun c => is_space c = true) ws -> clean ws ->
                     Forall (fun c => c = sp) ws) as Hsp.
  { intros ws Ha Hb. unfold clean in Hb. rewrite Forall_forall in Ha, Hb |- *.
    intros c Hin. exact (Hb c Hin (Ha c Hin)). }
  apply Forall_app in Hv as [Hv1 Hv]. apply Forall_app in Hv as [_ Hv2].
  rewrite (u_lower_spaces_l ws1 _ (Hsp ws1 H1 Hv1)) in Hfix.
  rewrite (u_lower_spaces_r ws2 _ (Hsp ws2 H2 Hv2)) in Hfix.
  apply app_inv_head in Hfix. now apply app_inv_tail in Hfix.
Qed.

(** ** The normalised title *)

Lemma u_normalizeTitle_stages s :
  normalizeTitle toLowerCase s
  = if nonempty s then trim (toLowerCase (collapse (strip s))) else [].
Proof. unfold normalizeTitle. now destruct (nonempty s). Qed.

Lemma u_collapse_clean s : clean (collapse s).
Proof.
  apply (u_all_suffixes_Forall _ _ _ (fun c r H Hc => proj1 (H Hc))
           (u_single_spaced_collapse s)).
Qed.

Lemma u_strip_tag_free s : tag_free (strip s).
Proof.
  unfold strip.
  do 8 (apply u_tag_free_replace; [vm_compute; intuition discriminate
                                   |vm_compute; intuition discriminate|]).
  apply u_tag_free_strip.
Qed.

Lemma u_normalizeTitle_fixed t :
  tag_free t -> entity_free t -> single_spaced t ->
  toLowerCase t = t -> trim t = t -> normalizeTitle toLowerCase t = t.
Proof.
  intros Htag Hent Hsp Hlow Htrim. unfold normalizeTitle.
  destruct t as [|c r]; [reflexivity|]. cbn [nonempty negb].
  rewrite (u_tag_free_fixed _ Htag).
  assert (forall d p rep, d <> semi -> In semi p ->
            replace_all (match_lit (amp :: d :: p)) rep (c :: r) = c :: r) as Hlit.
  { intros d p rep Hd Hp. now apply u_entity_free_no_lit. }
  change (ustr "&nbsp;") with (amp :: 110 :: ustr "bsp;")%N.
  change (ustr "&amp;") with (amp :: 97 :: ustr "mp;")%N.
  change (ustr "&quot;") with (amp :: 113 :: ustr "uot;")%N.
  change (ustr "&#8217;") with (amp :: 35 :: ustr "8217;")%N.
  change (ustr "&#8216;") with (amp :: 35 :: ustr "8216;")%N.
  change (ustr "&#39;") with (amp :: 35 :: ustr "39;")%N.
  change (ustr "&#038;") with (amp :: 35 :: ustr "038;")%N.
  rewrite !Hlit; try discriminate; try (vm_compute; tauto).
  rewrite (u_entity_free_fixed _ Hent), (u_single_spaced_fixed _ Hsp), Hlow.
  exact Htrim.
Qed.

Lemma u_normalizeTitle_shape s :
  let t := normalizeTitle toLowerCase s in
  tag_free t /\ entity_free t /\ single_spaced t /\ toLowerCase t = t /\ trim t = t.
Proof.
  rewrite u_normalizeTitle_stages. destruct s as [|c r]; cbn [nonempty].
  - cbv zeta. repeat split. apply u_lower_nil.
  - set (s := c :: r). clearbody s. cbv zeta.
    pose proof (u_collapse_clean (strip s)) as Hclean.
    repeat split.
    + apply u_tag_free_trim, u_tag_free_lower; [exact Hclean|].
      apply u_tag_free_replace; [vm_compute; intuition discriminate
                                |vm_compute; intuition discriminate|].
      apply u_strip_tag_free.
    + apply u_entity_free_trim, u_entity_free_lower; [exact Hclean|].
      apply u_entity_free_collapse, u_entity_free_strip.
    + apply u_single_spaced_trim, u_single_spaced_lower; [exact Hclean|].
      apply u_single_spaced_collapse.
    + apply u_lower_trim_fixed; [now apply u_lower_clean|apply (lower_idem _ HL)].
    + apply u_trim_idem.
Qed.

(** C6. Title normalisation is idempotent on every string of code
    units, for every [toLowerCase] with the properties of the one of
    the platform, and the title [<b>Weekend Brunch</b> &amp; More]
    normalises to [weekend brunch & more]. *)
Theorem normalizeTitle_idempotent s :
  normalizeTitle toLowerCase (normalizeTitle toLowerCase s)
  = normalizeTitle toLowerCase s
  /\ normalizeTitle toLowerCase (ustr "<b>Weekend Brunch</b> &amp; More")
     = ustr "weekend brunch & more".
Proof.
  split.
  - destruct (u_normalizeTitle_shape s) as (H1 & H2 & H3 & H4 & H5).
    now apply u_normalizeTitle_fixed.
  - rewrite u_normalizeTitle_stages.
    replace (collapse (strip (ustr "<b>Weekend Brunch</b> &amp; More")))
      with (ustr "Weekend Brunch & More") by (vm_compute; reflexivity).
    rewrite (lower_ascii _ HL); [vm_compute; reflexivity|].
    vm_compute. repeat constructor.
Qed.

Lemma u_trim_start_head s c r : trim_start s = c :: r -> is_space c = false.
Proof.
  induction s as [|x s IH]; [discriminate|]. cbn [trim_start].
  destruct (is_space x) eqn:E; [exact IH|]. intros H. injection H as -> _. exact E.
Qed.

Lemma u_trim_end_head s c r : trim_end s = c :: r -> exists r', s = c :: r'.
Proof.
  destruct s as [|x s]; [discriminate|]. cbn [trim_end].
  destruct (trim_end s); [destruct (is_space x); [discriminate|]|];
    intros H; injection H as -> _; now exists s.
Qed.

Lemma u_trim_end_last s : forall r c, trim_end s = r ++ [c] -> is_space c = false.
Proof.
  induction s as [|x s IH]; intros r c; [now destruct r|]. cbn [trim_end].
  destruct (trim_end s) as [|y t] eqn:E.
  - destruct (is_space x) eqn:Ex; [now destruct r|].
    destruct r as [|z r]; [intros H; injection H as ->; exact Ex|].
    intros H. injection H as _ H. now destruct r.
  - destruct r as [|z r]; [discriminate|]. intros H. injection H as _ H.
    now apply (IH r c).
Qed.

(** X7. The normalised form of a title, whatever the title: it holds no
    tag (no [<] with a [>] after it) and no entity (no [&], some
    characters other than [;], then [;]); lower-casing leaves it as it
    is; its only whitespace is the space character, never two in a row,
    and never at either end. *)
Theorem normalizeTitle_canonical s :
  let t := normalizeTitle toLowerCase s in
  (forall a b c, t <> a ++ lt_sign :: b ++ gt_sign :: c)
  /\ (forall a b c, b <> [] -> ~ In semi b -> t <> a ++ amp :: b ++ semi :: c)
  /\ toLowerCase t = t
  /\ Forall (fun c => is_space c = true -> c = sp) t
  /\ (forall a c, t <> a ++ sp :: sp :: c)
  /\ (forall c r, t = c :: r -> is_space c = false)
  /\ (forall r c, t = r ++ [c] -> is_space c = false).
Proof.
  destruct (u_normalizeTitle_shape s) as (Htag & Hent & Hsp & Hlow & Htrim).
  cbv zeta in *. set (t := normalizeTitle toLowerCase s) in *. clearbody t.
  repeat split.
  - intros a b c ->. apply u_all_suffixes_at in Htag.
    apply (Htag eq_refl), in_or_app. right. now left.
  - intros a b c Hb Hsemi ->. apply u_all_suffixes_at in Hent.
    specialize (Hent eq_refl). destruct b as [|d b]; [contradiction|].
    cbn [app] in Hent. destruct Hent as [->|Hno].
    + apply Hsemi. now left.
    + apply Hno, in_or_app. right. now left.
  - exact Hlow.
  - apply (u_all_suffixes_Forall _ _ _ (fun c r H Hc => proj1 (H Hc)) Hsp).
  - intros a c ->. apply u_all_suffixes_at in Hsp.
    destruct (Hsp eq_refl) as [_ H]. discriminate.
  - intros c r ->. unfold trim in Htrim.
    destruct (u_trim_end_head _ _ _ Htrim) as (r' & E).
    apply (u_trim_start_head _ _ _ E).
  - intros r c ->. unfold trim in Htrim. apply (u_trim_end_last _ _ _ Htrim).
Qed.

End WithLowering.

(** ** A case mapping for the samples *)

Lemma u_latin_unit_cases c :
  ((((65 <= c <= 90) \/ (192 <= c <= 222 /\ c <> 215)) /\ latin_lower_unit c = c + 32)
   \/ ((~ (65 <= c <= 90) /\ ~ (192 <= c <= 222 /\ c <> 215)) /\ latin_lower_unit c = c))%N.
Proof.
  unfold latin_lower_unit.
  destruct (N.leb_spec 65 c), (N.leb_spec c 90), (N.leb_spec 192 c), (N.leb_spec c 222),
    (N.eqb_spec c 215); cbn [andb orb negb]; first [left; split; [lia|reflexivity]
                                                   |right; split; [lia|reflexivity]].
Qed.

Lemma u_is_space_false c : (forall e, In e whitespace -> c <> e) -> is_space c = false.
Proof.
  intros H. unfold is_space. apply not_true_is_false. intros E.
  apply existsb_exists in E as (e & Hin & He). apply N.eqb_eq in He. now apply (H e).
Qed.

Lemma u_latin_unit_plain c : plain c = true -> plain (latin_lower_unit c) = true.
Proof.
  intros Hc. destruct (u_latin_unit_cases c) as [[Hrange ->]|[_ ->]]; [|exact Hc].
  unfold plain, delimiter, sp, lt_sign, gt_sign, amp, semi.
  rewrite u_is_space_false.
  - repeat match goal with
           | |- context [N.eqb ?a ?b] =>
               destruct (N.eqb_spec a b); [exfalso; lia|]
           end. reflexivity.
  - intros e He. cbn in He.
    repeat (destruct He as [<-|He]; [lia|]). contradiction.
Qed.

Lemma latin_lowering : Lowering latin_lower.
Proof.
  constructor; unfold latin_lower.
  - intros s. rewrite map_map. apply map_ext. intros c.
    destruct (u_latin_unit_cases c) as [[Hrange E]|[_ E]].
    + rewrite E.
      destruct (u_latin_unit_cases (c + 32)) as [[Hr _]|[_ E']]; [exfalso; lia|exact E'].
    + now rewrite !E.
  - intros [|c s]; [contradiction|discriminate].
  - intros a c b Hc. rewrite map_app. cbn [map]. do 2 f_equal.
    destruct (u_delimiter_cases c Hc) as [-> | [-> | [-> | [-> | ->]]]]; reflexivity.
  - intros s Hs. apply Forall_map. revert Hs. apply Forall_impl.
    exact u_latin_unit_plain.
  - intros s Hs. apply map_ext_Forall. revert Hs. apply Forall_impl.
    intros c Hc. unfold latin_lower_unit, ascii_lower.
    destruct (N.leb_spec 192 c); [exfalso; lia|]. cbn [andb orb].
    now rewrite orb_false_r.
Qed.

End Utf16Facts.

Lemma normalizeTitle_idempotent_witness :
  Utf16.Lowering Utf16.latin_lower
  /\ Utf16.normalizeTitle Utf16.latin_lower
       (Utf16.normalizeTitle Utf16.latin_lower
          (Utf16.ustr "  A &lt;b&gt; <<i>> &amp;amp; x &;y; "))
     = Utf16.normalizeTitle Utf16.latin_lower
         (Utf16.ustr "  A &lt;b&gt; <<i>> &amp;amp; x &;y; ").
Proof.
  split; [exact latin_lowering|].
  exact (proj1 (normalizeTitle_idempotent Utf16.latin_lower latin_lowering
                  (Utf16.ustr "  A &lt;b&gt; <<i>> &amp;amp; x &;y; "))).
Defined.

Lemma normalizeTitle_canonical_witness :
  Utf16.Lowering Utf16.latin_lower
  /\ Utf16.latin_lower
       (Utf16.normalizeTitle Utf16.latin_lower (Utf16.ustr " Hello <b>World</b> "))
     = Utf16.normalizeTitle Utf16.latin_lower (Utf16.ustr " Hello <b>World</b> ").
Proof.
  split; [exact latin_lowering|].
  destruct (normalizeTitle_canonical Utf16.latin_lower latin_lowering
              (Utf16.ustr " Hello <b>World</b> ")) as (_ & _ & H & _).
  exact H.
Defined.

(** ** The normaliser of the pipeline is the one of UTF-16 strings *)

Lemma of_latin1_eqb a b : N.eqb (N_of_ascii a) (N_of_ascii b) = Ascii.eqb a b.
Proof.
  destruct (Ascii.eqb_spec a b) as [->|Hne]; [apply N.eqb_refl|].
  apply N.eqb_neq. intros E. apply Hne.
  now rewrite <- (ascii_N_embedding a), <- (ascii_N_embedding b), E.
Qed.

Lemma of_latin1_is_space c : Utf16.is_space (N_of_ascii c) = is_space c.
Proof. destruct c as [[] [] [] [] [] [] [] []]; vm_compute; reflexivity. Qed.

Lemma of_latin1_lower c : Utf16.latin_lower_unit (N_of_ascii c) = N_of_ascii (lower_char c).
Proof. destruct c as [[] [] [] [] [] [] [] []]; vm_compute; reflexivity. Qed.

Lemma of_latin1_startsWith p : forall s,
  Utf16.startsWith (of_latin1 s) (of_latin1 p) = startsWith s p.
Proof.
  induction p as [|x p IH]; intros [|y s]; try reflexivity.
  cbn [of_latin1 map Utf16.startsWith startsWith]. fold (of_latin1 s) (of_latin1 p).
  now rewrite of_latin1_eqb, IH.
Qed.

Lemma of_latin1_index_of c s :
  Utf16.index_of (N_of_ascii c) (of_latin1 s) = index_of c s.
Proof.
  induction s as [|x s IH]; [reflexivity|].
  cbn [of_latin1 map Utf16.index_of index_of]. fold (of_latin1 s).
  now rewrite of_latin1_eqb, IH.
Qed.

Lemma of_latin1_space_run s : Utf16.space_run (of_latin1 s) = space_run s.
Proof.
  induction s as [|x s IH]; [reflexivity|]. cbn [of_latin1 map Utf16.space_run space_run].
  fold (of_latin1 s). now rewrite of_latin1_is_space, IH.
Qed.

Lemma of_latin1_trim_start s :
  Utf16.trim_start (of_latin1 s) = of_latin1 (trim_start s).
Proof.
  induction s as [|x s IH]; [reflexivity|].
  cbn [of_latin1 map Utf16.trim_start trim_start]. fold (of_latin1 s).
  rewrite of_latin1_is_space. now destruct (is_space x).
Qed.

Lemma of_latin1_trim_end s : Utf16.trim_end (of_latin1 s) = of_latin1 (trim_end s).
Proof.
  induction s as [|x s IH]; [reflexivity|].
  cbn [of_latin1 map Utf16.trim_end trim_end]. fold (of_latin1 s). rewrite IH.
  destruct (trim_end s); cbn [of_latin1 map];
    [rewrite of_latin1_is_space; now destruct (is_space x)|reflexivity].
Qed.

Lemma of_latin1_trim s : Utf16.trim (of_latin1 s) = of_latin1 (trim s).
Proof. unfold Utf16.trim, trim. now rewrite of_latin1_trim_start, of_latin1_trim_end. Qed.

Lemma of_latin1_replace_from mu ma rep :
  (forall s, mu (of_latin1 s) = ma s) ->
  forall s k,
    Utf16.replace_from mu (of_latin1 rep) k (of_latin1 s)
    = of_latin1 (replace_from ma rep k s).
Proof.
  intros Hm. induction s as [|c r IH]; intros k; [reflexivity|].
  cbn [of_latin1 map Utf16.replace_from replace_from]. fold (of_latin1 r).
  destruct k as [|k]; [|apply IH].
  change (N_of_ascii c :: of_latin1 r) with (of_latin1 (c :: r)). rewrite Hm.
  destruct (ma (c :: r)) as [[|n]|].
  - cbn [of_latin1 map]. f_equal. apply IH.
  - unfold of_latin1 at 3. rewrite map_app. f_equal. apply IH.
  - cbn [of_latin1 map]. f_equal. apply IH.
Qed.

Lemma of_latin1_replace_all mu ma rep s :
  (forall s, mu (of_latin1 s) = ma s) ->
  Utf16.replace_all mu (of_latin1 rep) (of_latin1 s) = of_latin1 (replace_all ma rep s).
Proof. intros Hm. now apply of_latin1_replace_from. Qed.

Lemma of_latin1_match_tag s : Utf16.match_tag (of_latin1 s) = match_tag s.
Proof.
  destruct s as [|c r]; [reflexivity|]. cbn [of_latin1 map Utf16.match_tag match_tag].
  fold (of_latin1 r). change Utf16.lt_sign with (N_of_ascii "<").
  change Utf16.gt_sign with (N_of_ascii ">").
  now rewrite of_latin1_eqb, of_latin1_index_of.
Qed.

Lemma of_latin1_match_lit p s :
  Utf16.match_lit (of_latin1 p) (of_latin1 s) = match_lit p s.
Proof.
  unfold Utf16.match_lit, match_lit. rewrite of_latin1_startsWith.
  unfold of_latin1. now rewrite length_map.
Qed.

Lemma of_latin1_match_entity s : Utf16.match_entity (of_latin1 s) = match_entity s.
Proof.
  destruct s as [|a [|c r]]; [reflexivity|reflexivity|].
  cbn [of_latin1 map Utf16.match_entity match_entity]. fold (of_latin1 r).
  change Utf16.amp with (N_of_ascii "&"). change Utf16.semi with (N_of_ascii ";").
  now rewrite !of_latin1_eqb, of_latin1_index_of.
Qed.

Lemma of_latin1_match_spaces s : Utf16.match_spaces (of_latin1 s) = match_spaces s.
Proof. unfold Utf16.match_spaces, match_spaces. now rewrite of_latin1_space_run. Qed.

Lemma of_latin1_lower_case s :
  Utf16.latin_lower (of_latin1 s) = of_latin1 (toLowerCase s).
Proof.
  unfold Utf16.latin_lower, of_latin1, toLowerCase. rewrite !map_map.
  apply map_ext. exact of_latin1_lower.
Qed.

(** On the strings of the pipeline the two normalisers agree: the
    normaliser of the pipeline is the one of UTF-16 strings, with a
    case mapping that is the one of Unicode below 256. *)
Lemma normalizeTitle_of_latin1 s :
  Utf16.normalizeTitle Utf16.latin_lower (of_latin1 s) = of_latin1 (normalizeTitle s).
Proof.
  unfold Utf16.normalizeTitle, normalizeTitle.
  destruct s as [|c r]; [reflexivity|].
  change (Utf16.nonempty (of_latin1 (c :: r))) with true. cbn [nonempty negb].
  set (s := c :: r). clearbody s.
  assert (forall x, Utf16.ustr x = of_latin1 (str x)) as Hstr by reflexivity.
  change [34%N] with (of_latin1 [dquote]). change (@nil N) with (of_latin1 []).
  rewrite !Hstr.
  rewrite (of_latin1_replace_all _ _ _ _ of_latin1_match_tag).
  rewrite !(of_latin1_replace_all _ (match_lit _) _ _ (of_latin1_match_lit _)).
  rewrite (of_latin1_replace_all _ _ _ _ of_latin1_match_entity).
  rewrite (of_latin1_replace_all _ _ _ _ of_latin1_match_spaces).
  now rewrite of_latin1_lower_case, of_latin1_trim.
Qed.
